(** * payload-sync: reactive subscription and incremental-delta engine

    A shallow embedding of the TypeScript sources of the payload-sync
    plugin: the document matcher ([query-matcher.ts]), the change
    classifier of the incremental publisher, the query fingerprinter
    ([query-hash.ts]), the schema dependency extractor, the subscriptions
    actor with its dependency index, the fan-out orchestrator and the
    client view store. *)

From Stdlib Require Import ZArith String Ascii List Bool Lia Permutation.
From Stdlib Require Import DecimalString.
From stdpp Require Import base gmap sets list strings.

Set Warnings "-register-all,-clear-no-such-hyp".

Local Open Scope string_scope.
Local Open Scope Z_scope.

(** ** JavaScript values

    Documents, where-clauses and populate descriptions are plain JavaScript
    values.  Numbers are restricted to integers.  An object is the list of
    its own enumerable properties in enumeration order (keys pairwise
    distinct); the members of [Object.prototype] are not modelled, so a key
    such as [toString] reads as [undefined]. *)
Module JS.

Inductive value : Type :=
| VUndef
| VNull
| VBool (b : bool)
| VNum (n : Z)
| VStr (s : string)
| VArr (items : list value)
| VObj (props : list (string * value)).

(** [!!v] *)
Definition truthy (v : value) : bool :=
  match v with
  | VUndef | VNull => false
  | VBool b => b
  | VNum n => negb (n =? 0)
  | VStr s => negb (String.eqb s "")
  | VArr _ | VObj _ => true
  end.

(** [typeof v === 'object'] (true of [null] and of arrays as well). *)
Definition typeof_object (v : value) : bool :=
  match v with
  | VNull | VArr _ | VObj _ => true
  | _ => false
  end.

(** [typeof v === 'string'] *)
Definition typeof_string (v : value) : bool :=
  match v with VStr _ => true | _ => false end.

(** [Array.isArray(v)] *)
Definition isArray (v : value) : bool :=
  match v with VArr _ => true | _ => false end.

(** [v === undefined] and [v === null] *)
Definition is_undefined (v : value) : bool :=
  match v with VUndef => true | _ => false end.
Definition is_null (v : value) : bool :=
  match v with VNull => true | _ => false end.

(** The canonical property key of an array index. *)
Definition index_key (i : nat) : string :=
  NilEmpty.string_of_uint (Nat.to_uint i).

(** Pairs every element with its index key, counting from [i]. *)
Fixpoint indexed_from {A} (i : nat) (l : list A) : list (string * A) :=
  match l with
  | [] => []
  | x :: l' => (index_key i, x) :: indexed_from (S i) l'
  end.

Definition indexed {A} (l : list A) : list (string * A) := indexed_from 0 l.

Fixpoint chars (s : string) : list string :=
  match s with
  | EmptyString => []
  | String c s' => String c EmptyString :: chars s'
  end.

(** Lookup of an own property in a property list. *)
Fixpoint assoc (key : string) (props : list (string * value)) : value :=
  match props with
  | [] => VUndef
  | (k, v) :: rest => if String.eqb k key then v else assoc key rest
  end.

(** ['key' in obj] for an object or array. *)
Fixpoint has_key (key : string) (props : list (string * value)) : bool :=
  match props with
  | [] => false
  | (k, _) :: rest => String.eqb k key || has_key key rest
  end.

(** [Object.entries(v)] for a value that is neither [null] nor [undefined]:
    the own enumerable properties. *)
Definition entries (v : value) : list (string * value) :=
  match v with
  | VObj props => props
  | VArr items => indexed items
  | VStr s => indexed (map VStr (chars s))
  | _ => []
  end.

(** [Object.keys(v)] *)
Definition keys (v : value) : list string := map fst (entries v).

(** [v[key]] for a value [v] that is neither [null] nor [undefined]. *)
Definition get (v : value) (key : string) : value :=
  match v with
  | VObj props => assoc key props
  | VArr items =>
      if String.eqb key "length" then VNum (Z.of_nat (List.length items))
      else assoc key (indexed items)
  | VStr s =>
      if String.eqb key "length" then VNum (Z.of_nat (String.length s))
      else assoc key (indexed (map VStr (chars s)))
  | _ => VUndef
  end.

(** [a === b].  Objects and arrays compare by reference; the values compared
    by the matcher come from two separate object graphs (the document and
    the filter), so two of them are never the same reference. *)
Definition strict_eq (a b : value) : bool :=
  match a, b with
  | VUndef, VUndef => true
  | VNull, VNull => true
  | VBool x, VBool y => Bool.eqb x y
  | VNum x, VNum y => x =? y
  | VStr x, VStr y => String.eqb x y
  | _, _ => false
  end.

(** *** Strings *)

(** [s.split(sep)] for a one-character separator. *)
Fixpoint split_go (sep : ascii) (cur : string) (s : string) : list string :=
  match s with
  | EmptyString => [String.rev cur]
  | String c s' =>
      if Ascii.eqb c sep then String.rev cur :: split_go sep EmptyString s'
      else split_go sep (String c cur) s'
  end.

Definition split (sep : ascii) (s : string) : list string :=
  split_go sep EmptyString s.

(** [s.includes(t)] *)
Fixpoint includes (s t : string) : bool :=
  String.prefix t s ||
  match s with
  | EmptyString => false
  | String _ s' => includes s' t
  end.

Definition lower_ascii (c : ascii) : ascii :=
  let n := nat_of_ascii c in
  if (Nat.leb 65 n && Nat.leb n 90)%bool then ascii_of_nat (n + 32) else c.

(** [s.toLowerCase()] on ASCII text. *)
Fixpoint toLowerCase (s : string) : string :=
  match s with
  | EmptyString => EmptyString
  | String c s' => String (lower_ascii c) (toLowerCase s')
  end.

(** [a < b] on strings: lexicographic on code units. *)
Fixpoint string_lt (a b : string) : bool :=
  match a, b with
  | _, EmptyString => false
  | EmptyString, String _ _ => true
  | String x a', String y b' =>
      let nx := nat_of_ascii x in
      let ny := nat_of_ascii y in
      if Nat.ltb nx ny then true
      else if Nat.ltb ny nx then false
      else string_lt a' b'
  end.

(** *** Relational comparison *)

Definition Z_to_string (n : Z) : string :=
  NilEmpty.string_of_int (Z.to_int n).

(** [String(v)], as used by [Array.prototype.join] and by the conversion
    of an object to a primitive. *)
Fixpoint toString (v : value) : string :=
  match v with
  | VUndef => "undefined"
  | VNull => "null"
  | VBool true => "true"
  | VBool false => "false"
  | VNum n => Z_to_string n
  | VStr s => s
  | VArr items =>
      (fix join (l : list value) : string :=
         match l with
         | [] => ""
         | [x] => match x with VUndef | VNull => "" | _ => toString x end
         | x :: rest =>
             (match x with VUndef | VNull => "" | _ => toString x end)
               ++ "," ++ join rest
         end) items
  | VObj _ => "[object Object]"
  end.

(** [ToPrimitive]: objects and arrays become strings. *)
Definition toPrimitive (v : value) : value :=
  match v with
  | VArr _ | VObj _ => VStr (toString v)
  | _ => v
  end.

Definition is_space (c : ascii) : bool :=
  let n := nat_of_ascii c in
  (Nat.eqb n 32 || Nat.eqb n 9 || Nat.eqb n 10 || Nat.eqb n 13)%bool.

Fixpoint trim_left (s : string) : string :=
  match s with
  | String c s' => if is_space c then trim_left s' else s
  | EmptyString => EmptyString
  end.

Definition trim (s : string) : string :=
  String.rev (trim_left (String.rev (trim_left s))).

(** [ToNumber] of a string; [None] is [NaN].  Only (signed) decimal
    integer literals are numeric here. *)
Definition string_to_number (s : string) : option Z :=
  let t := trim s in
  if String.eqb t "" then Some 0
  else match NilEmpty.int_of_string t with
       | Some i => Some (Z.of_int i)
       | None => None
       end.

(** [ToNumber] of a primitive; [None] is [NaN]. *)
Definition toNumber (v : value) : option Z :=
  match v with
  | VUndef => None
  | VNull => Some 0
  | VBool b => Some (if b then 1 else 0)
  | VNum n => Some n
  | VStr s => string_to_number s
  | VArr _ | VObj _ => None
  end.

(** The abstract relational comparison [a < b]; [None] is the result
    [undefined] (one operand is [NaN]). *)
Definition abstract_lt (a b : value) : option bool :=
  match toPrimitive a, toPrimitive b with
  | VStr x, VStr y => Some (string_lt x y)
  | pa, pb =>
      match toNumber pa, toNumber pb with
      | Some x, Some y => Some (x <? y)
      | _, _ => None
      end
  end.

Definition lt (a b : value) : bool :=
  match abstract_lt a b with Some r => r | None => false end.
Definition gt (a b : value) : bool := lt b a.
Definition le (a b : value) : bool :=
  match abstract_lt b a with Some r => negb r | None => false end.
Definition ge (a b : value) : bool :=
  match abstract_lt a b with Some r => negb r | None => false end.

End JS.

(** ** Document matcher ([utilities/query-matcher.ts]) *)
Module QueryMatcher.
Import JS.

(** [getNestedValue(obj, path)]: dot-notation traversal. *)
Definition getNestedValue (obj : value) (path : string) : value :=
  fold_left
    (fun current key =>
       if truthy current && negb (is_undefined (get current key))
       then get current key
       else VUndef)
    (split "." path) obj.

(** [compareValues(fieldValue, expectedValue)] *)
Definition compareValues (fieldValue expectedValue : value) : bool :=
  if strict_eq fieldValue expectedValue then true
  else if typeof_object fieldValue && negb (is_null fieldValue)
          && truthy (get fieldValue "id") && typeof_string expectedValue
  then strict_eq (get fieldValue "id") expectedValue
  else if typeof_string fieldValue && typeof_object expectedValue
          && negb (is_null expectedValue) && truthy (get expectedValue "id")
  then strict_eq fieldValue (get expectedValue "id")
  else strict_eq fieldValue expectedValue.

(** [expectedValue.some((val) => compareValues(fieldValue, val))], guarded
    by [Array.isArray(expectedValue)]. *)
Definition some_equal (fieldValue expectedValue : value) : bool :=
  match expectedValue with
  | VArr vals => existsb (compareValues fieldValue) vals
  | _ => false
  end.

(** One iteration of the operator loop of [evaluateFieldCondition]:
    [false] is [return false], [true] is [break]. *)
Definition evaluateOperator
    (fieldValue : value) (operator : string) (expectedValue : value) : bool :=
  if String.eqb operator "equals" then
    compareValues fieldValue expectedValue
  else if String.eqb operator "not_equals" then
    negb (compareValues fieldValue expectedValue)
  else if String.eqb operator "in" then
    isArray expectedValue && some_equal fieldValue expectedValue
  else if String.eqb operator "not_in" then
    negb (isArray expectedValue && some_equal fieldValue expectedValue)
  else if String.eqb operator "greater_than" then
    negb (le fieldValue expectedValue)
  else if String.eqb operator "greater_than_equal" then
    negb (lt fieldValue expectedValue)
  else if String.eqb operator "less_than" then
    negb (ge fieldValue expectedValue)
  else if String.eqb operator "less_than_equal" then
    negb (gt fieldValue expectedValue)
  else if String.eqb operator "like" then
    match fieldValue, expectedValue with
    | VStr f, VStr e => includes (toLowerCase f) (toLowerCase e)
    | _, _ => false
    end
  else if String.eqb operator "contains" then
    match fieldValue, expectedValue with
    | VStr f, VStr e => includes f e
    | _, _ => false
    end
  else if String.eqb operator "exists" then
    let exists_ :=
      negb (is_undefined fieldValue) && negb (is_null fieldValue) in
    strict_eq (VBool exists_) expectedValue
  else false.

(** [evaluateFieldCondition(doc, fieldPath, condition)] *)
Definition evaluateFieldCondition
    (doc : value) (fieldPath : string) (condition : value) : bool :=
  let fieldValue := getNestedValue doc fieldPath in
  if negb (typeof_object condition) || is_null condition then
    compareValues fieldValue condition
  else
    forallb
      (fun '(operator, expectedValue) =>
         evaluateOperator fieldValue operator expectedValue)
      (entries condition).

(** Reads property [key] of a property list and continues with [present]
    on its value, or with [absent] when there is no such property. *)
Definition on_prop {A} (key : string) (props : list (string * value))
    (absent : A) (present : value -> A) : A :=
  (fix go (l : list (string * value)) : A :=
     match l with
     | [] => absent
     | (k, v) :: rest => if String.eqb k key then present v else go rest
     end) props.

(** [evaluateWhereClause(doc, whereClause)] *)
Fixpoint evaluateWhereClause (doc whereClause : value) {struct whereClause}
  : bool :=
  if negb (truthy whereClause) || negb (typeof_object whereClause) then true
  else
    match whereClause with
    | VObj props =>
        let fields :=
          forallb
            (fun '(fieldPath, condition) =>
               evaluateFieldCondition doc fieldPath condition)
            props in
        let or_branch :=
          on_prop "or" props fields
            (fun o =>
               match o with
               | VArr conditions =>
                   existsb (evaluateWhereClause doc) conditions
               | _ => fields
               end) in
        on_prop "and" props or_branch
          (fun a =>
             match a with
             | VArr conditions => forallb (evaluateWhereClause doc) conditions
             | _ => or_branch
             end)
    | _ =>
        forallb
          (fun '(fieldPath, condition) =>
             evaluateFieldCondition doc fieldPath condition)
          (entries whereClause)
    end.

(** [documentMatchesQuery(doc, subscription)]; [subscription] is an object
    (the [params] of a query subscription). *)
Definition documentMatchesQuery (doc subscription : value) : bool :=
  let where_ := get subscription "where" in
  if negb (truthy where_) || (Nat.eqb (List.length (keys where_)) 0) then true
  else evaluateWhereClause doc where_.

End QueryMatcher.

(** ** Change classifier ([utilities/incremental-publisher.ts]) *)
Module IncrementalPublisher.
Import JS QueryMatcher.

Inductive Operation := Create | Update | Delete.

Inductive ChangeType := Insert | UpdateChange | DeleteChange | Upsert.

(** The classification block of [publishIncrementalUpdates]: the values of
    [changeType] ([None] is [null]) and [relevantDoc] once the
    [if (operation === ...)] chain has run for one query.  [originalDoc] is
    [VUndef] when the caller passed none. *)
Definition classify
    (operation : Operation) (doc originalDoc params : value)
  : option ChangeType * value :=
  match operation with
  | Create =>
      if documentMatchesQuery doc params then (Some Insert, doc)
      else (None, doc)
  | Update =>
      let docMatches := documentMatchesQuery doc params in
      let originalMatches :=
        if truthy originalDoc then documentMatchesQuery originalDoc params
        else false in
      if docMatches && originalMatches then (Some UpdateChange, doc)
      else if docMatches && negb originalMatches then (Some Upsert, doc)
      else if negb docMatches && originalMatches
           then (Some DeleteChange, originalDoc)
           else (None, doc)
  | Delete =>
      if truthy originalDoc && documentMatchesQuery originalDoc params
      then (Some DeleteChange, originalDoc)
      else (None, doc)
  end.





End IncrementalPublisher.

(** ** Query fingerprinter ([utilities/query-hash.ts]) *)
Module QueryHash.
Import JS.

Fixpoint insert_sorted (x : string) (l : list string) : list string :=
  match l with
  | [] => [x]
  | y :: rest => if string_lt y x then y :: insert_sorted x rest else x :: l
  end.

(** [keys.sort()] *)
Definition sort_strings (l : list string) : list string :=
  fold_right insert_sorted [] l.

Definition replace_char (from to : ascii) (s : string) : string :=
  string_of_list_ascii
    (map (fun c => if Ascii.eqb c from then to else c)
       (list_ascii_of_string s)).

Definition remove_char (x : ascii) (s : string) : string :=
  string_of_list_ascii
    (List.filter (fun c => negb (Ascii.eqb c x)) (list_ascii_of_string s)).

Definition is_alnum (c : ascii) : bool :=
  let n := nat_of_ascii c in
  ((Nat.leb 48 n && Nat.leb n 57) || (Nat.leb 65 n && Nat.leb n 90)
   || (Nat.leb 97 n && Nat.leb n 122))%bool.

(** [s.replace(/[^a-zA-Z0-9]/g, '')] *)
Definition keep_alnum (s : string) : string :=
  string_of_list_ascii (List.filter is_alnum (list_ascii_of_string s)).

Section Encoders.

(** The library functions the fingerprinter calls: [packr.pack] of
    msgpackr ([None] when it throws), [Buffer.toString('base64')],
    [JSON.stringify] with an array replacer, and [btoa]. *)
Variable pack : value -> option (list Byte.byte).
Variable base64 : list Byte.byte -> string.
Variable JSON_stringify : value -> list string -> string.
Variable btoa : string -> string.

(** [encodeParamsAsJSON(params)] *)
Definition encodeParamsAsJSON (params : value) : string :=
  let paramsString := JSON_stringify params (sort_strings (keys params)) in
  keep_alnum (btoa paramsString).

(** The object rest pattern [{ type, collection, ...params }]. *)
Definition rest_params (query : list (string * value))
  : list (string * value) :=
  List.filter
    (fun '(k, _) => negb (String.eqb k "type" || String.eqb k "collection"))
    query.

(** ['key' in params && params[key] !== undefined && params[key] !== null] *)
Definition meaningful (key : string) (params : list (string * value))
  : bool :=
  has_key key params
  && negb (is_undefined (assoc key params))
  && negb (is_null (assoc key params)).

(** [typeof v === 'object' && Object.keys(v).length > 0] *)
Definition has_content (v : value) : bool :=
  typeof_object v && negb (Nat.eqb (List.length (keys v)) 0).

(** The properties of [stableParams], in the order they are assigned. *)
Definition stableParams (params : list (string * value))
  : list (string * value) :=
  (if meaningful "where" params && has_content (assoc "where" params)
   then [("where", assoc "where" params)] else [])
  ++ (if meaningful "sort" params
      then [("sort", assoc "sort" params)] else [])
  ++ (if meaningful "limit" params
      then [("limit", assoc "limit" params)] else [])
  ++ (if meaningful "populate" params
         && has_content (assoc "populate" params)
      then [("populate", assoc "populate" params)] else [])
  ++ (if meaningful "id" params
      then [("id", assoc "id" params)] else []).

(** The [try]/[catch] of [createQueryHash]: the msgpackr encoding made
    URL-safe, or the JSON fallback when [pack] throws. *)
Definition encodedParams (stable : value) : string :=
  match pack stable with
  | Some buffer =>
      remove_char "="
        (replace_char "/" "_" (replace_char "+" "-" (base64 buffer)))
  | None => encodeParamsAsJSON stable
  end.

(** [createQueryHash(query)]; [query] holds the properties of the query
    object in the order the caller wrote them. *)
Definition createQueryHash (query : list (string * value)) : string :=
  let type := assoc "type" query in
  let collection := assoc "collection" query in
  let params := rest_params query in
  toString type ++ "." ++ toString collection ++ "."
    ++ encodedParams (VObj (stableParams params)).

End Encoders.

(** Two values that differ only in the order of object keys, at any
    depth. *)
Inductive same_up_to_key_order : value -> value -> Prop :=
| ko_refl v : same_up_to_key_order v v
| ko_reorder props1 props2 :
    Permutation props1 props2 ->
    same_up_to_key_order (VObj props1) (VObj props2)
| ko_inside k v1 v2 props :
    same_up_to_key_order v1 v2 ->
    same_up_to_key_order (VObj ((k, v1) :: props)) (VObj ((k, v2) :: props))
| ko_trans v1 v2 v3 :
    same_up_to_key_order v1 v2 ->
    same_up_to_key_order v2 v3 ->
    same_up_to_key_order v1 v3.

(** The optional fields of a query, and the values that count as empty
    for each. *)
Definition optional_field (k : string) : Prop :=
  k ∈ ["where"; "sort"; "limit"; "page"; "populate"; "id"].

Definition empty_for (k : string) (v : value) : Prop :=
  v = VUndef \/ v = VNull
  \/ ((k = "where" \/ k = "populate") /\ v = VObj []).

(** Two query objects that differ only in the order of their own keys or
    in the presence of empty optional fields. *)
Inductive same_query : list (string * value) -> list (string * value) -> Prop :=
| sq_reorder q1 q2 :
    NoDup (map fst q1) -> Permutation q1 q2 -> same_query q1 q2
| sq_empty k v q :
    optional_field k -> empty_for k v -> k ∉ map fst q ->
    same_query ((k, v) :: q) q
| sq_sym q1 q2 : same_query q1 q2 -> same_query q2 q1
| sq_trans q1 q2 q3 : same_query q1 q2 -> same_query q2 q3 -> same_query q1 q3.

(** A stand-in encoder that writes keys and values in the order it meets
    them, as a decodable encoder does. *)
Fixpoint render (v : value) : string :=
  match v with
  | VUndef => "u"
  | VNull => "n"
  | VBool true => "t"
  | VBool false => "f"
  | VNum n => "#" ++ Z_to_string n
  | VStr s => "'" ++ s ++ "'"
  | VArr items => "[" ++ fold_right (fun x acc => render x ++ "," ++ acc) "]" items
  | VObj props =>
      "{" ++ (fix go (l : list (string * value)) : string :=
                match l with
                | [] => "}"
                | (k, x) :: rest => k ++ ":" ++ render x ++ "," ++ go rest
                end) props
  end.

Definition render_pack (v : value) : option (list Byte.byte) :=
  Some (list_byte_of_string (render v)).

Definition render_base64 (b : list Byte.byte) : string :=
  string_of_list_byte b.

End QueryHash.

(** ** Schema dependency extractor
    ([utilities/schema-dependency-extractor.ts]) *)
Module SchemaDeps.
Import JS QueryMatcher.

(** [field.relationTo]: absent, one collection or several. *)
Inductive RelationTo :=
| RelNone
| RelOne (target : string)
| RelMany (targets : list string).

(** A Payload field definition.  [f_fields] and the field lists of
    [f_tabs] are empty when the field has none. *)
Inductive Field :=
| mkField (f_name : option string) (f_type : string)
    (f_relationTo : RelationTo) (f_collection : string)
    (f_fields : list Field) (f_tabs : list (list Field)).

Definition f_name (f : Field) : option string :=
  match f with mkField n _ _ _ _ _ => n end.
Definition f_type (f : Field) : string :=
  match f with mkField _ t _ _ _ _ => t end.
Definition f_relationTo (f : Field) : RelationTo :=
  match f with mkField _ _ r _ _ _ => r end.
Definition f_collection (f : Field) : string :=
  match f with mkField _ _ _ c _ _ => c end.

Record CollectionConfig := {
  slug : string;
  fields : list Field;
}.

Record SanitizedConfig := {
  collections : list CollectionConfig;
}.

Inductive QueryType := Find | FindByID | Count.

(** The part of a [PayloadQuery] the extractor reads; [q_populate] and
    [q_where] are [VUndef] when absent. *)
Record PayloadQuery := {
  q_type : QueryType;
  q_collection : string;
  q_populate : value;
  q_where : value;
}.

(** [payloadConfig.collections.find((col) => col.slug === name)] *)
Definition findCollection (payloadConfig : SanitizedConfig) (name : string)
  : option CollectionConfig :=
  List.find (fun col => String.eqb (slug col) name) (collections payloadConfig).

(** The body of the loop of [findFieldInCollection] for one field. *)
Fixpoint findInField (fieldName : string) (field : Field) {struct field}
  : option Field :=
  match field with
  | mkField name _ _ _ nested tabs =>
      if match name with
         | Some n => String.eqb n fieldName
         | None => false
         end
      then Some field
      else
        let search :=
          fix search (l : list Field) : option Field :=
            match l with
            | [] => None
            | f :: rest =>
                match findInField fieldName f with
                | Some found => Some found
                | None => search rest
                end
            end in
        match search nested with
        | Some nestedField => Some nestedField
        | None =>
            (fix search_tabs (ts : list (list Field)) : option Field :=
               match ts with
               | [] => None
               | tab :: rest =>
                   match search tab with
                   | Some tabField => Some tabField
                   | None => search_tabs rest
                   end
               end) tabs
        end
  end.

(** [findFieldInCollection(fieldName, fields)] *)
Fixpoint findFieldInCollection (fieldName : string) (fs : list Field)
  : option Field :=
  match fs with
  | [] => None
  | f :: rest =>
      match findInField fieldName f with
      | Some found => Some found
      | None => findFieldInCollection fieldName rest
      end
  end.

(** [getRelationshipTargets(field)] *)
Definition getRelationshipTargets (field : Field) : list string :=
  match
    (if String.eqb (f_type field) "relationship" then
       match f_relationTo field with
       | RelOne relationTo => Some [relationTo]
       | RelMany relationTo => Some relationTo
       | RelNone => None
       end
     else None)
  with
  | Some targets => targets
  | None =>
      if String.eqb (f_type field) "join" then [f_collection field] else []
  end.

(** [targets.forEach((collection) => dependencies.add(collection))] *)
Definition add_all (targets : list string) (dependencies : gset string)
  : gset string :=
  fold_left (fun deps collection => {[collection]} ∪ deps) targets dependencies.

(** [config === true || (typeof config === 'object' && config !== null)] *)
Definition populatable (config : value) : bool :=
  strict_eq config (VBool true)
  || (typeof_object config && negb (is_null config)).

(** A [for (const [key, x] of Object.entries(array))] loop with state. *)
Definition fold_indexed {S A : Type} (f : S -> string -> A -> S)
  : nat -> list A -> S -> S :=
  fix loop (i : nat) (l : list A) (s : S) : S :=
    match l with
    | [] => s
    | x :: rest => loop (Datatypes.S i) rest (f s (index_key i) x)
    end.

(** [extractPopulateDependencies]; the set is threaded through. *)
Fixpoint extractPopulateDependencies
    (payloadConfig : SanitizedConfig) (populate : value)
    (collectionConfig : CollectionConfig) (dependencies : gset string)
    {struct populate} : gset string :=
  let entry (deps : gset string) (fieldName : string) (config : value)
    : gset string :=
    if populatable config then
      match findFieldInCollection fieldName (fields collectionConfig) with
      | Some field =>
          let targetCollections := getRelationshipTargets field in
          let deps1 := add_all targetCollections deps in
          match config with
          | VObj cprops =>
              on_prop "populate" cprops deps1
                (fun inner =>
                   fold_left
                     (fun d targetCollection =>
                        match findCollection payloadConfig targetCollection with
                        | Some targetConfig =>
                            extractPopulateDependencies payloadConfig inner
                              targetConfig d
                        | None => d
                        end)
                     targetCollections deps1)
          | _ => deps1
          end
      | None => deps
      end
    else deps in
  match populate with
  | VObj props =>
      fold_left (fun deps '(fieldName, config) => entry deps fieldName config)
        props dependencies
  | VArr items => fold_indexed entry 0%nat items dependencies
  | _ => dependencies
  end.

(** The field-filter loop of [extractWhereDependencies] for one entry. *)
Definition whereEntry (collectionConfig : CollectionConfig)
    (deps : gset string) (fieldPath : string) : gset string :=
  if String.eqb fieldPath "and" || String.eqb fieldPath "or" then deps
  else if includes fieldPath "." then
    let relationField := hd "" (split "." fieldPath) in
    match findFieldInCollection relationField (fields collectionConfig) with
    | Some field => add_all (getRelationshipTargets field) deps
    | None => deps
    end
  else
    match findFieldInCollection fieldPath (fields collectionConfig) with
    | Some field => add_all (getRelationshipTargets field) deps
    | None => deps
    end.

(** [extractWhereDependencies] *)
Fixpoint extractWhereDependencies
    (where_ : value) (collectionConfig : CollectionConfig)
    (dependencies : gset string) {struct where_} : gset string :=
  match where_ with
  | VObj props =>
      let each (conditions : value) (deps : gset string) : gset string :=
        match conditions with
        | VArr l =>
            fold_left
              (fun d condition =>
                 extractWhereDependencies condition collectionConfig d)
              l deps
        | _ => deps
        end in
      let deps1 := on_prop "and" props dependencies
                     (fun a => each a dependencies) in
      let deps2 := on_prop "or" props deps1 (fun o => each o deps1) in
      fold_left (fun d '(fieldPath, _) => whereEntry collectionConfig d fieldPath)
        props deps2
  | VArr items =>
      fold_left (fun d '(fieldPath, _) => whereEntry collectionConfig d fieldPath)
        (indexed items) dependencies
  | _ => dependencies
  end.

(** [extractQueryDependencies(query, payloadConfig)] *)
Definition extractQueryDependencies
    (query : PayloadQuery) (payloadConfig : SanitizedConfig) : gset string :=
  let dependencies : gset string := {[q_collection query]} in
  match findCollection payloadConfig (q_collection query) with
  | None => dependencies
  | Some collectionConfig =>
      let deps1 :=
        match q_type query with
        | Find | FindByID =>
            if truthy (q_populate query) then
              extractPopulateDependencies payloadConfig (q_populate query)
                collectionConfig dependencies
            else dependencies
        | Count => dependencies
        end in
      match q_type query with
      | Find | Count =>
          if truthy (q_where query) then
            extractWhereDependencies (q_where query) collectionConfig deps1
          else deps1
      | FindByID => deps1
      end
  end.

(** A populate description reaches collection [C] from a collection when
    one of its populated fields has [C] among its relationship targets, or
    when a nested [populate] under such a field reaches [C] from one of the
    field's target collections. *)
Inductive populates (payloadConfig : SanitizedConfig)
  : CollectionConfig -> value -> string -> Prop :=
| populates_field cc populate fieldName config field C :
    typeof_object populate = true ->
    In (fieldName, config) (entries populate) ->
    populatable config = true ->
    findFieldInCollection fieldName (fields cc) = Some field ->
    In C (getRelationshipTargets field) ->
    populates payloadConfig cc populate C
| populates_nested cc populate fieldName cprops field target tc C :
    typeof_object populate = true ->
    In (fieldName, VObj cprops) (entries populate) ->
    has_key "populate" cprops = true ->
    findFieldInCollection fieldName (fields cc) = Some field ->
    In target (getRelationshipTargets field) ->
    findCollection payloadConfig target = Some tc ->
    populates payloadConfig tc (assoc "populate" cprops) C ->
    populates payloadConfig cc populate C.

End SchemaDeps.

(** ** Subscriptions actor ([actors/subscriptions.ts]) *)
Module Subscriptions.
Import JS SchemaDeps.

Record Query := {
  queryKey : string;
  collection : string;
  queryType : QueryType;
  params : value;
  lastSyncTime : Z;
}.

Record SessionSubscription := {
  clientId : string;
  queries : list Query;
  lastActivity : Z;
}.

Record DependencyObject := {
  dep_collection : string;
  dependencies : list string;
  dep_query : PayloadQuery;
}.

(** The persistent state of the actor.  [sessions] is the array of
    [{ clientId, session }] entries; the two dependency objects are maps
    from a string key. *)
Record State := {
  sessions : list (string * SessionSubscription);
  deps : gmap string DependencyObject;
  reverseDependencies : gmap string (list string);
}.

Definition initial : State :=
  {| sessions := []; deps := ∅; reverseDependencies := ∅ |}.

Definition getSessions (c : State) := sessions c.

Definition getSession (c : State) (id : string) : option SessionSubscription :=
  snd <$> List.find (fun s => String.eqb (fst s) id) (sessions c).

Fixpoint replace_session (id : string) (session : SessionSubscription)
    (l : list (string * SessionSubscription))
  : option (list (string * SessionSubscription)) :=
  match l with
  | [] => None
  | (cid, s) :: rest =>
      if String.eqb cid id then Some ((cid, session) :: rest)
      else cons (cid, s) <$> replace_session id session rest
  end.

Definition addSession (c : State) (id : string) (session : SessionSubscription)
  : State :=
  {| sessions :=
       match replace_session id session (sessions c) with
       | Some l => l
       | None => (sessions c ++ [(id, session)])%list
       end;
     deps := deps c;
     reverseDependencies := reverseDependencies c |}.

Definition deleteSession (c : State) (id : string) : State :=
  {| sessions := List.filter (fun s => negb (String.eqb (fst s) id)) (sessions c);
     deps := deps c;
     reverseDependencies := reverseDependencies c |}.

Fixpoint upsert_query (query : Query) (l : list Query) : list Query :=
  match l with
  | [] => [query]
  | q :: rest =>
      if String.eqb (queryKey q) (queryKey query) then query :: rest
      else q :: upsert_query query rest
  end.

(** [addQueryToSession]; [now] is the value of [new Date()]. *)
Definition addQueryToSession (now : Z) (c : State) (id : string) (query : Query)
  : State :=
  let touch (s : SessionSubscription) :=
    {| clientId := clientId s;
       queries := upsert_query query (queries s);
       lastActivity := now |} in
  let fix go (l : list (string * SessionSubscription)) :=
    match l with
    | [] => []
    | (cid, s) :: rest =>
        if String.eqb cid id then (cid, touch s) :: rest
        else (cid, s) :: go rest
    end in
  {| sessions := go (sessions c);
     deps := deps c;
     reverseDependencies := reverseDependencies c |}.

Definition addDependencies (c : State) (key : string)
    (dependencyObject : DependencyObject) : State :=
  {| sessions := sessions c;
     deps := <[key := dependencyObject]> (deps c);
     reverseDependencies := reverseDependencies c |}.

(** One iteration of the [forEach] of [addReverseDependencies]. *)
Definition addReverse (key : string) (rev : gmap string (list string))
    (depCollection : string) : gmap string (list string) :=
  match rev !! depCollection with
  | None => <[depCollection := [key]]> rev
  | Some arr =>
      if bool_decide (key ∈ arr) then rev
      else <[depCollection := (arr ++ [key])%list]> rev
  end.

Definition addReverseDependencies (c : State) (key : string)
    (dependencies : list string) : State :=
  {| sessions := sessions c;
     deps := deps c;
     reverseDependencies :=
       fold_left (addReverse key) dependencies (reverseDependencies c) |}.

(** One iteration of the [forEach] of [removeDependencies]. *)
Definition removeReverse (key : string) (rev : gmap string (list string))
    (depCollection : string) : gmap string (list string) :=
  match rev !! depCollection with
  | Some arr =>
      let arr' := List.filter (fun qk => negb (String.eqb qk key)) arr in
      match arr' with
      | [] => delete depCollection rev
      | _ => <[depCollection := arr']> rev
      end
  | None => rev
  end.

Definition removeDependencies (c : State) (key : string) : State :=
  match deps c !! key with
  | None => c
  | Some queryDeps =>
      {| sessions := sessions c;
         deps := delete key (deps c);
         reverseDependencies :=
           fold_left (removeReverse key) (dependencies queryDeps)
             (reverseDependencies c) |}
  end.

End Subscriptions.

(** ** Dependency tracker ([utilities/dependency-tracker.ts]) *)
Module DependencyTracker.
Import JS SchemaDeps Subscriptions.

(** [registerQueryDependencies], on the schema-driven path: the tracker
    has been initialised with [payloadConfig]. *)
Definition registerQueryDependencies (payloadConfig : SanitizedConfig)
    (c : State) (key : string) (collection : string) (populate where_ : value)
  : State :=
  let query :=
    {| q_type := Find; q_collection := collection;
       q_populate := populate; q_where := where_ |} in
  let dependencies := elements (extractQueryDependencies query payloadConfig) in
  let c1 :=
    addDependencies c key
      {| dep_collection := collection; dependencies := dependencies;
         dep_query := query |} in
  addReverseDependencies c1 key dependencies.

(** [getQueriesDependingOn(collection)] *)
Definition getQueriesDependingOn (c : State) (collection : string)
  : list string :=
  default [] (reverseDependencies c !! collection).

(** [unregisterQueryDependencies(queryKey)] *)
Definition unregisterQueryDependencies (c : State) (key : string) : State :=
  removeDependencies c key.

(** The index is consistent when the reverse map lists a query key under
    a collection exactly when the forward entry of that key has the
    collection among its dependencies. *)
Definition consistent (c : State) : Prop :=
  forall (key collection : string),
    key ∈ default [] (reverseDependencies c !! collection)
    <-> exists d, deps c !! key = Some d /\ collection ∈ dependencies d.

End DependencyTracker.

(** ** Session registry ([utilities/subscription-manager.ts] and the close
    handler of [utilities/endpoints.ts]) *)
Module SubscriptionManager.
Import JS SchemaDeps Subscriptions DependencyTracker.

Inductive Outcome (A : Type) :=
| Returned (a : A)
| Thrown (error : string).
Arguments Returned {A} a.
Arguments Thrown {A} error.

(** The array pattern [const [queryKey] = query] asks its right-hand side
    for an iterator.  A [Query] is a plain object and has none, so the
    binding throws a [TypeError]. *)
Definition array_pattern_head (query : Query) : Outcome string :=
  Thrown "TypeError: query is not iterable".

(** The loop [for (const [queryKey] of session.queries)] of
    [removeSession]. *)
Fixpoint unregister_each (c : State) (qs : list Query) : Outcome State :=
  match qs with
  | [] => Returned c
  | query :: rest =>
      match array_pattern_head query with
      | Returned key => unregister_each (unregisterQueryDependencies c key) rest
      | Thrown e => Thrown e
      end
  end.

(** [removeSession(clientId)] *)
Definition removeSession (c : State) (id : string) : Outcome State :=
  match getSession c id with
  | None => Returned c
  | Some session =>
      match unregister_each c (queries session) with
      | Returned c1 => Returned (deleteSession c1 id)
      | Thrown e => Thrown e
      end
  end.

(** The [abort] listener of [payloadSSEEndpoint], run when the push
    channel of [clientId] closes: the effect on the actor state and on the
    [clients] map (the set of connected client ids). *)
Definition onAbort (c : State) (clients : gset string) (id : string)
  : State * gset string :=
  if bool_decide (id ∈ clients) then (deleteSession c id, clients ∖ {[id]})
  else (c, clients).

(** [registerSession(clientId, queryKey, collection, queryType, params)];
    [now] is the value of [new Date()]. *)
Definition registerSession (payloadConfig : SanitizedConfig) (now : Z)
    (c : State) (id key collection : string) (type : QueryType)
    (params : value) : State :=
  let c1 :=
    match getSession c id with
    | Some _ => c
    | None =>
        addSession c id {| clientId := id; queries := []; lastActivity := now |}
    end in
  let c2 :=
    addQueryToSession now c1 id
      {| queryKey := key; collection := collection; queryType := type;
         params := params; lastSyncTime := now |} in
  registerQueryDependencies payloadConfig c2 key collection
    (get params "populate") (get params "where").

(** The query keys a session owns. *)
Definition owned (c : State) (id : string) : list string :=
  match getSession c id with
  | Some session => map queryKey (queries session)
  | None => []
  end.

End SubscriptionManager.

(** ** Fan-out orchestrator ([utilities/smart-publisher.ts] and
    [hooks/afterOperation.ts])

    An [async] function is modelled by what its promise settles to and by
    its effect on the world (channel writes, console); a call of an
    [async] function never throws into its caller. *)
Module SmartPublisher.
Import JS.
Export IncrementalPublisher (Operation, Create, Update, Delete).

Inductive Settled (A : Type) :=
| Fulfilled (a : A)
| Rejected (reason : value).
Arguments Fulfilled {A} a.
Arguments Rejected {A} reason.

Definition Async (World A : Type) : Type := World -> Settled A * World.

Definition ret {World A} (a : A) : Async World A :=
  fun w => (Fulfilled a, w).

(** [await]: a rejection is thrown on into the rest of the body. *)
Definition bind {World A B} (m : Async World A) (k : A -> Async World B)
  : Async World B :=
  fun w =>
    match m w with
    | (Fulfilled a, w1) => k a w1
    | (Rejected r, w1) => (Rejected r, w1)
    end.

(** [try { body } catch (error) { handler(error) }], and likewise
    [promise.catch(handler)]. *)
Definition try_catch {World A} (body : Async World A)
    (handler : value -> Async World A) : Async World A :=
  fun w =>
    match body w with
    | (Fulfilled a, w1) => (Fulfilled a, w1)
    | (Rejected r, w1) => handler r w1
    end.

(** Calling an [async] function: it runs and hands back its promise, here
    the settled outcome; nothing is thrown. *)
Definition start {World A} (m : Async World A)
  : Async World (Settled A) :=
  fun w => let '(r, w1) := m w in (Fulfilled r, w1).

(** [Promise.allSettled(promises)]: fulfils with every outcome. *)
Definition allSettled {World A} (promises : list (Settled A))
  : Async World (list (Settled A)) :=
  ret promises.

(** [Promise.all(promises)], for comparison only: rejects with the first
    rejection. *)
Fixpoint all {World A} (promises : list (Settled A))
  : Async World (list A) :=
  match promises with
  | [] => ret []
  | Fulfilled a :: rest => bind (all rest) (fun l => ret (a :: l))
  | Rejected r :: _ => fun w => (Rejected r, w)
  end.

Record PublishArgs := {
  collection : string;
  operation : Operation;
  doc : value;
  originalDoc : value;
}.

Section Publishers.

Variable World : Type.

(** The three publishers and the console. *)
Variable publishIncrementalUpdates : PublishArgs -> Async World unit.
Variable publishCountUpdates : PublishArgs -> Async World unit.
Variable publishSmartCrossCollectionUpdates :
  value -> PublishArgs -> Async World unit.
Variable console_error : string -> value -> World -> World.
Variable console_log : string -> World -> World.

Definition log (msg : string) : Async World unit :=
  fun w => (Fulfilled tt, console_log msg w).

Definition log_error (msg : string) (reason : value) : Async World unit :=
  fun w => (Fulfilled tt, console_error msg reason w).

Definition publisherNames : list string :=
  ["INCREMENTAL"; "COUNT"; "SMART-CROSS-COLLECTION"].

(** [results.forEach((result, index) => ...)] *)
Fixpoint log_failures (names : list string) (results : list (Settled unit))
  : Async World unit :=
  match results, names with
  | Rejected reason :: rest, name :: names' =>
      bind (log_error name reason) (fun _ => log_failures names' rest)
  | Fulfilled _ :: rest, _ :: names' => log_failures names' rest
  | _, _ => ret tt
  end.

(** [publishChanges({ collection, operation, doc, originalDoc, req })] *)
Definition publishChanges (a : PublishArgs) : Async World unit :=
  bind (log "Publishing") (fun _ =>
  try_catch
    (let docId :=
       if truthy (doc a) && truthy (get (doc a) "id")
       then get (doc a) "id" else VStr "unknown" in
     bind (start (publishIncrementalUpdates a)) (fun p1 =>
     bind (start (publishCountUpdates a)) (fun p2 =>
     bind (start (publishSmartCrossCollectionUpdates docId a)) (fun p3 =>
     bind (allSettled [p1; p2; p3]) (fun results =>
     bind (log_failures publisherNames results) (fun _ =>
     log "Completed publishing"))))))
    (fun error => log_error "SMART-PUBLISHER" error)).

(** What the hook leaves behind: the value it returns to the operation
    and the promises it started without awaiting them (the console
    output of the hook itself is left out). *)
Record HookResult := {
  returned : value;
  detached : list (Async World unit);
}.

(** [afterOperation({ collection, result, operation, req, args })];
    [originalDoc] is [req.context?.originalDoc]. *)
Definition afterOperation (slug : string) (result : value)
    (operation : string) (originalDoc : value) : HookResult :=
  if negb (bool_decide
             (operation ∈
                ["create"; "update"; "updateByID"; "delete"; "deleteByID"]))
  then {| returned := result; detached := [] |}
  else
    match
      (if String.eqb operation "create" then Some Create
       else if bool_decide (operation ∈ ["update"; "updateByID"])
       then Some Update
       else if bool_decide (operation ∈ ["delete"; "deleteByID"])
       then Some Delete
       else None)
    with
    | None => {| returned := result; detached := [] |}
    | Some operationType =>
        let task :=
          try_catch
            (publishChanges
               {| collection := slug; operation := operationType;
                  doc := result; originalDoc := originalDoc |})
            (fun error => log_error "AFTER-OPERATION" error) in
        {| returned := result; detached := [task] |}
    end.

(** The world once the three publishers have run one after the other,
    whatever each settled to. *)
Definition after_publishers (docId : value) (a : PublishArgs) (w : World)
  : World :=
  snd (publishSmartCrossCollectionUpdates docId a
         (snd (publishCountUpdates a
                 (snd (publishIncrementalUpdates a w))))).

(** Worlds that differ by console output only. *)
Inductive console_only : World -> World -> Prop :=
| co_refl w : console_only w w
| co_log msg w w' : console_only w w' -> console_only w (console_log msg w')
| co_error msg r w w' :
    console_only w w' -> console_only w (console_error msg r w').

End Publishers.

End SmartPublisher.

(** ** Client view store ([client/view-store.ts] and the
    [PayloadViewWrapper] class)

    Time is a millisecond clock.  A pending [setTimeout] is recorded by
    the time at which it is due; the runtime runs its callback at some
    moment not earlier than that.  The initial query of a view is
    asynchronous: it is sent when the view is built and settles in an
    event of its own, at any later moment. *)
Module ViewStore.
Import JS.

(** The fields of a [PayloadViewWrapper].  [v_key] is the fingerprint the
    store created it under ([None] for a disabled view, whose lifecycle
    callbacks do nothing); subscribers are callbacks, named by numbers. *)
Record View := {
  v_query : list (string * value);
  v_key : option string;
  v_ttl : nat;
  v_subscribers : gset nat;
  v_cleanupTimer : option nat;
  v_isDestroyed : bool;
  v_serverSubscriptionActive : bool;
}.

(** The view store together with the view objects it has created (each
    under a fresh identity), the client's [activeSubscriptions] map and
    the clock.  [materializations] counts the calls of
    [#onViewMaterialized] per fingerprint, and [pending] holds the views
    whose call of [#onViewMaterialized] is suspended at
    [await executeQuery(...)].  Snapshots and the shared cache are left
    out. *)
Record Store := {
  now : nat;
  heap : gmap nat View;
  next : nat;
  views : gmap string nat;
  activeSubscriptions : gset string;
  materializations : gmap string nat;
  pending : gset nat;
}.

Definition empty_store : Store :=
  {| now := 0; heap := ∅; next := 0; views := ∅;
     activeSubscriptions := ∅; materializations := ∅; pending := ∅ |}.

(** How the initial query of a view settles: [executeQuery] fulfils in the
    browser, fulfils with [null] where there is no [window], or
    rejects. *)
Inductive Settled := Fulfilled | NoWindow | Rejected.

Definition set_view (id : nat) (v : View) (s : Store) : Store :=
  {| now := now s; heap := <[id := v]> (heap s); next := next s;
     views := views s; activeSubscriptions := activeSubscriptions s;
     materializations := materializations s;
     pending := pending s |}.

(** [#cancelCleanup()] *)
Definition cancelCleanup (v : View) : View :=
  {| v_query := v_query v; v_key := v_key v; v_ttl := v_ttl v;
     v_subscribers := v_subscribers v; v_cleanupTimer := None;
     v_isDestroyed := v_isDestroyed v;
     v_serverSubscriptionActive := v_serverSubscriptionActive v |}.

(** [updateTTL(ttl)] *)
Definition updateTTL (ttl : nat) (v : View) : View :=
  {| v_query := v_query v; v_key := v_key v; v_ttl := ttl;
     v_subscribers := v_subscribers v; v_cleanupTimer := v_cleanupTimer v;
     v_isDestroyed := v_isDestroyed v;
     v_serverSubscriptionActive := v_serverSubscriptionActive v |}.

(** [#scheduleCleanupIfNeeded()] at time [t]. *)
Definition scheduleCleanupIfNeeded (t : nat) (v : View) : View :=
  if bool_decide (v_subscribers v = ∅) && negb (bool_decide (is_Some (v_cleanupTimer v)))
  then
    {| v_query := v_query v; v_key := v_key v; v_ttl := v_ttl v;
       v_subscribers := v_subscribers v;
       v_cleanupTimer := Some (t + v_ttl v)%nat;
       v_isDestroyed := v_isDestroyed v;
       v_serverSubscriptionActive := v_serverSubscriptionActive v |}
  else v.

Section Fingerprint.

(** [createQueryHash], with its encoders fixed. *)
Variable createQueryHash : list (string * value) -> string.

(** [#onViewMaterialized(hash, wrapper)] up to its [await]: the initial
    query of the view is sent, and the rest of the function waits for
    it. *)
Definition onViewMaterialized (hash : string) (id : nat) (s : Store) : Store :=
  {| now := now s; heap := heap s; next := next s; views := views s;
     activeSubscriptions := activeSubscriptions s;
     materializations :=
       <[hash := S (default 0%nat (materializations s !! hash))]>
         (materializations s);
     pending := {[id]} ∪ pending s |}.

(** The rest of [#onViewMaterialized(hash, wrapper)], run when the
    initial query of view [id] has settled.  With a result in the browser
    it opens the server subscription under the fingerprint
    ([subscribeToQuery] sets the entry of [activeSubscriptions]); it
    returns early where there is no [window], and a rejection goes to the
    [catch] block.  Nothing here looks at whether the view is still in
    the store or has been destroyed. *)
Definition onViewMaterialized_resumed (id : nat) (r : Settled) (s : Store)
  : Store :=
  if bool_decide (id ∈ pending s) then
    let opened :=
      match r, heap s !! id with
      | Fulfilled, Some v =>
          match v_key v with
          | Some hash => {[hash]} ∪ activeSubscriptions s
          | None => activeSubscriptions s
          end
      | _, _ => activeSubscriptions s
      end in
    {| now := now s; heap := heap s; next := next s; views := views s;
       activeSubscriptions := opened;
       materializations := materializations s;
       pending := pending s ∖ {[id]} |}
  else s.

(** [#onViewDematerialized(hash)] *)
Definition onViewDematerialized (hash : string) (s : Store) : Store :=
  match views s !! hash with
  | Some _ =>
      {| now := now s; heap := heap s; next := next s;
         views := delete hash (views s);
         activeSubscriptions := activeSubscriptions s ∖ {[hash]};
         materializations := materializations s;
     pending := pending s |}
  | None => s
  end.

(** [new PayloadViewWrapper(query, ttl, onMaterialized, onDematerialized)]:
    the constructor materializes at once; the callback of a disabled
    view does nothing. *)
Definition new_view (query : list (string * value)) (key : option string)
    (ttl : nat) (s : Store) : nat * Store :=
  let id := next s in
  let v :=
    {| v_query := query; v_key := key; v_ttl := ttl; v_subscribers := ∅;
       v_cleanupTimer := None; v_isDestroyed := false;
       v_serverSubscriptionActive := true |} in
  let s1 :=
    {| now := now s; heap := <[id := v]> (heap s); next := S (next s);
       views := views s; activeSubscriptions := activeSubscriptions s;
       materializations := materializations s;
     pending := pending s |} in
  (id, match key with
       | Some hash => onViewMaterialized hash id s1
       | None => s1
       end).

(** [getView(query, enabled, ttl)]: the view it returns, by identity. *)
Definition getView (query : list (string * value)) (enabled : bool)
    (ttl : nat) (s : Store) : nat * Store :=
  if negb enabled then new_view query None 0 s
  else
    let hash := createQueryHash query in
    match views s !! hash with
    | Some id =>
        (id, match heap s !! id with
             | Some existingView => set_view id (updateTTL ttl existingView) s
             | None => s
             end)
    | None =>
        let '(id, s1) := new_view query (Some hash) ttl s in
        (id, {| now := now s1; heap := heap s1; next := next s1;
                views := <[hash := id]> (views s1);
                activeSubscriptions := activeSubscriptions s1;
                materializations := materializations s1;
     pending := pending s1 |})
    end.

(** [view.subscribe(callback)]; on a destroyed view it throws and
    changes nothing. *)
Definition subscribe (id callback : nat) (s : Store) : Store :=
  match heap s !! id with
  | Some v =>
      if v_isDestroyed v then s
      else
        set_view id
          (cancelCleanup
             {| v_query := v_query v; v_key := v_key v; v_ttl := v_ttl v;
                v_subscribers := {[callback]} ∪ v_subscribers v;
                v_cleanupTimer := v_cleanupTimer v;
                v_isDestroyed := v_isDestroyed v;
                v_serverSubscriptionActive := v_serverSubscriptionActive v |})
          s
  | None => s
  end.

(** The function returned by [subscribe]. *)
Definition unsubscribe (id callback : nat) (s : Store) : Store :=
  match heap s !! id with
  | Some v =>
      set_view id
        (scheduleCleanupIfNeeded (now s)
           {| v_query := v_query v; v_key := v_key v; v_ttl := v_ttl v;
              v_subscribers := v_subscribers v ∖ {[callback]};
              v_cleanupTimer := v_cleanupTimer v;
              v_isDestroyed := v_isDestroyed v;
              v_serverSubscriptionActive := v_serverSubscriptionActive v |})
        s
  | None => s
  end.

(** [view.destroy()] *)
Definition destroy (id : nat) (s : Store) : Store :=
  match heap s !! id with
  | Some v =>
      if v_isDestroyed v then s
      else
        let s1 :=
          set_view id
            {| v_query := v_query v; v_key := v_key v; v_ttl := v_ttl v;
               v_subscribers := ∅; v_cleanupTimer := None;
               v_isDestroyed := true;
               v_serverSubscriptionActive := false |}
            s in
        match v_key v with
        | Some hash => onViewDematerialized hash s1
        | None => s1
        end
  | None => s
  end.

(** The callback of the cleanup timer of view [id].  The runtime runs it
    only while the timer is pending and due. *)
Definition timerFires (id : nat) (s : Store) : Store :=
  match heap s !! id with
  | Some v =>
      match v_cleanupTimer v with
      | Some due =>
          if bool_decide (due ≤ now s)%nat then
            if bool_decide (v_subscribers v = ∅) then destroy id s else s
          else s
      | None => s
      end
  | None => s
  end.

Definition advance (dt : nat) (s : Store) : Store :=
  {| now := (now s + dt)%nat; heap := heap s; next := next s;
     views := views s; activeSubscriptions := activeSubscriptions s;
     materializations := materializations s;
     pending := pending s |}.

(** What can happen to the store. *)
Inductive Event :=
| GetView (query : list (string * value)) (enabled : bool) (ttl : nat)
| Subscribe (id callback : nat)
| Unsubscribe (id callback : nat)
| TimerFires (id : nat)
| QuerySettles (id : nat) (r : Settled)
| Advance (dt : nat).

Definition step (s : Store) (e : Event) : Store :=
  match e with
  | GetView query enabled ttl => snd (getView query enabled ttl s)
  | Subscribe id callback => subscribe id callback s
  | Unsubscribe id callback => unsubscribe id callback s
  | TimerFires id => timerFires id s
  | QuerySettles id r => onViewMaterialized_resumed id r s
  | Advance dt => advance dt s
  end.

Definition run (s : Store) (events : list Event) : Store :=
  fold_left step events s.

(** The event is a [getView] for an enabled query with fingerprint
    [hash]: the only event that can put a view under [hash] into the
    store. *)
Definition asks_for (hash : string) (e : Event) : bool :=
  match e with
  | GetView query true _ => String.eqb (createQueryHash query) hash
  | _ => false
  end.

(** View [id] exists and has not been destroyed. *)
Definition alive (s : Store) (id : nat) : Prop :=
  exists v, heap s !! id = Some v /\ v_isDestroyed v = false.

Definition destroyed (s : Store) (id : nat) : Prop :=
  exists v, heap s !! id = Some v /\ v_isDestroyed v = true.

Definition subscribers (s : Store) (id : nat) : gset nat :=
  match heap s !! id with
  | Some v => v_subscribers v
  | None => ∅
  end.

Definition ttl_of (s : Store) (id : nat) : nat :=
  match heap s !! id with
  | Some v => v_ttl v
  | None => 0
  end.

(** The run [events] splits into [before ++ during] and view [id] has had
    no subscriber at the split and after every further event. *)
Definition quiet_since (events before during : list Event) (id : nat)
  : Prop :=
  events = (before ++ during)%list
  /\ forall k, subscribers
                 (run empty_store (before ++ take k during)%list) id = ∅.

Definition timer_of (s : Store) (id : nat) : option nat :=
  match heap s !! id with
  | Some v => v_cleanupTimer v
  | None => None
  end.

Definition key_of (s : Store) (id : nat) : option string :=
  match heap s !! id with
  | Some v => v_key v
  | None => None
  end.

End Fingerprint.

End ViewStore.

(** ** Session registry: lookups and the legacy entry points
    ([utilities/subscription-manager.ts], [actors/subscriptions.ts]) *)
Module Registry.
Import JS SchemaDeps Subscriptions DependencyTracker SubscriptionManager.

(** [cleanupOldSessions(maxAgeMinutes)] of the actor; [now] is the value
    of [Date.now()], and dates compare by their time value. *)
Definition cleanupOldSessions (now : Z) (c : State) (maxAgeMinutes : Z)
  : State :=
  let cutoffTime := now - maxAgeMinutes * 60 * 1000 in
  {| sessions :=
       List.filter (fun s => cutoffTime <=? lastActivity (snd s)) (sessions c);
     deps := deps c;
     reverseDependencies := reverseDependencies c |}.

(** [getQueries(clientId)] of the actor. *)
Definition getQueries (c : State) (id : string) : option (list Query) :=
  queries <$> getSession c id.

(** [getSessionsForCollection(collection)] *)
Definition getSessionsForCollection (c : State) (collection : string)
  : list SessionSubscription :=
  map snd
    (List.filter
       (fun s =>
          existsb
            (fun query => String.eqb (Subscriptions.collection query) collection)
            (queries (snd s)))
       (getSessions c)).

(** [getSessionsForQuery(queryKey)] *)
Definition getSessionsForQuery (c : State) (key : string)
  : list SessionSubscription :=
  map snd
    (List.filter
       (fun s =>
          existsb (fun query => String.eqb (queryKey query) key)
            (queries (snd s)))
       (getSessions c)).

(** [getAllSessions()] *)
Definition getAllSessions (c : State) : list SessionSubscription :=
  map snd (getSessions c).

(** [addQueryToSession(clientId, queryKey, collection, queryType, params)]
    of the subscription manager. *)
Definition addQueryToSession (payloadConfig : SanitizedConfig) (now : Z)
    (c : State) (id key collection : string) (type : QueryType)
    (params : value) : State :=
  match getSession c id with
  | None => c
  | Some _ =>
      let c1 :=
        Subscriptions.addQueryToSession now c id
          {| queryKey := key; collection := collection; queryType := type;
             params := params; lastSyncTime := now |} in
      registerQueryDependencies payloadConfig c1 key collection
        (get params "populate") (get params "where")
  end.

(** [subscribeToQuery(clientId, queryKey, collection, params)] *)
Definition subscribeToQuery (payloadConfig : SanitizedConfig) (now : Z)
    (c : State) (id key collection : string) (params : value) : State :=
  match getSession c id with
  | None => registerSession payloadConfig now c id key collection Find params
  | Some _ => addQueryToSession payloadConfig now c id key collection Find params
  end.

(** [subscribeToCount(clientId, queryKey, collection, params)] *)
Definition subscribeToCount (payloadConfig : SanitizedConfig) (now : Z)
    (c : State) (id key collection : string) (params : value) : State :=
  registerSession payloadConfig now c id key collection Count params.

(** The operations on the dependency index, as a trace. *)
Inductive IndexOp :=
| Register (key collection : string) (populate_ where_ : value)
| Unregister (key : string).

Definition index_step (payloadConfig : SanitizedConfig) (c : State)
    (op : IndexOp) : State :=
  match op with
  | Register key collection populate_ where_ =>
      registerQueryDependencies payloadConfig c key collection populate_ where_
  | Unregister key => unregisterQueryDependencies c key
  end.

Definition index_run (payloadConfig : SanitizedConfig) (c : State)
    (ops : list IndexOp) : State :=
  fold_left (index_step payloadConfig) ops c.

(** In a trace, a key always names the same query. *)
Definition keys_name_one_query (ops : list IndexOp) : Prop :=
  forall key c1 p1 w1 c2 p2 w2,
    In (Register key c1 p1 w1) ops -> In (Register key c2 p2 w2) ops ->
    c1 = c2 /\ p1 = p2 /\ w1 = w2.

End Registry.

(** ** The three publishers ([utilities/incremental-publisher.ts],
    [utilities/count-publisher.ts],
    [utilities/smart-cross-collection-publisher.ts])

    A publisher reads the session registry and the map of connected
    clients, and writes messages to the clients' channels.  What it leaves
    behind is the list of messages written, each with the client it went
    to (the object handed to [JSON.stringify]), and the list of documents
    it fetched with [req.payload.findByID].  Console output is left
    out. *)
Module Publishers.
Import JS QueryMatcher IncrementalPublisher SchemaDeps Subscriptions.
Import DependencyTracker SubscriptionManager Registry.

Record Wire := {
  written : list (string * value);
  fetched : list (string * value * value);
}.

Definition silent : Wire := {| written := []; fetched := [] |}.

(** [client.writer.write(...)] on the channel of [id]. *)
Definition write (id : string) (message : value) (w : Wire) : Wire :=
  {| written := (written w ++ [(id, message)])%list; fetched := fetched w |}.

(** [isFieldPopulated(doc, fieldPath)]: the truthiness of what it returns,
    or [None] when it throws (an array field whose first element is
    [null]). *)
Definition isFieldPopulated (doc : value) (fieldPath : string) : option bool :=
  let fieldValue := getNestedValue doc fieldPath in
  if is_undefined fieldValue || is_null fieldValue then Some false
  else if typeof_string fieldValue then Some false
  else if typeof_object fieldValue && truthy (get fieldValue "id") then Some true
  else
    match fieldValue with
    | VArr (first :: _) =>
        if typeof_object first then
          if is_null first then None else Some (truthy (get first "id"))
        else Some false
    | _ => Some false
    end.

(** The loop of [needsPopulation] over the keys of the populate
    description. *)
Fixpoint needs_any (doc : value) (fieldPaths : list string) : option bool :=
  match fieldPaths with
  | [] => Some false
  | fieldPath :: rest =>
      match isFieldPopulated doc fieldPath with
      | None => None
      | Some false => Some true
      | Some true => needs_any doc rest
      end
  end.

(** [needsPopulation(doc, populateConfig)]; [None] when it throws. *)
Definition needsPopulation (doc populateConfig : value) : option bool :=
  if negb (truthy populateConfig) || negb (typeof_object populateConfig)
  then Some false
  else needs_any doc (keys populateConfig).

Section Payload.

(** [req.payload.findByID({ collection, id, populate })]: the populated
    document, or [None] when the promise rejects. *)
Variable findByID : string -> value -> value -> option value.

(** The value of [Date.now()], taken not to change while one mutation is
    published. *)
Variable now : Z.

(** [populateDocument(doc, collection, populateConfig, req)]: the document
    the promise fulfils with, or [None] when it rejects.  Past the first
    test every path reads [doc.id] for a log line, in the [try] block and
    again in the [catch] block, which throws when [doc] is [null] or
    [undefined]. *)
Definition populateDocument (doc : value) (collection : string)
    (populateConfig : value) (w : Wire) : option value * Wire :=
  if negb (truthy populateConfig)
     || Nat.eqb (List.length (keys populateConfig)) 0
  then (Some doc, w)
  else if is_undefined doc || is_null doc then (None, w)
  else
    match needsPopulation doc populateConfig with
    | Some false => (Some doc, w)
    | Some true =>
        let w1 :=
          {| written := written w;
             fetched :=
               (fetched w ++ [(collection, get doc "id", populateConfig)])%list
          |} in
        match findByID collection (get doc "id") populateConfig with
        | Some populatedDoc => (Some populatedDoc, w1)
        | None => (Some doc, w1)
        end
    | None => (Some doc, w)
    end.

Definition changeType_name (changeType : ChangeType) : string :=
  match changeType with
  | Insert => "insert"
  | UpdateChange => "update"
  | DeleteChange => "delete"
  | Upsert => "upsert"
  end.

(** The body of the query loop of [publishIncrementalUpdates]: the update
    it pushes to [relevantUpdates], if any.  Reading [query.params.where]
    of a query whose [params] is [null] or [undefined] throws into the
    [catch] of the loop body, as does a rejected [populateDocument]; the
    query is then skipped. *)
Definition incrementalUpdate (collection : string) (operation : Operation)
    (doc originalDoc : value) (query : Query) (w : Wire)
  : option value * Wire :=
  if negb (String.eqb (Subscriptions.collection query) collection)
  then (None, w)
  else
    match queryType query with
    | Count => (None, w)
    | Find | FindByID =>
        if is_undefined (params query) || is_null (params query)
        then (None, w)
        else
          match classify operation doc originalDoc (params query) with
          | (None, _) => (None, w)
          | (Some changeType, relevantDoc) =>
              let '(finalDoc, w1) :=
                match changeType with
                | DeleteChange => (Some relevantDoc, w)
                | _ =>
                    if truthy (get (params query) "populate")
                    then populateDocument relevantDoc collection
                           (get (params query) "populate") w
                    else (Some relevantDoc, w)
                end in
              match finalDoc with
              | Some data =>
                  (Some (VObj [("queryKey", VStr (queryKey query));
                               ("changeType",
                                VStr (changeType_name changeType));
                               ("data", data)]),
                   w1)
              | None => (None, w1)
              end
          end
    end.

(** The query loop: the array [relevantUpdates] of one session. *)
Fixpoint incrementalUpdates (collection : string) (operation : Operation)
    (doc originalDoc : value) (qs : list Query) (w : Wire)
  : list value * Wire :=
  match qs with
  | [] => ([], w)
  | query :: rest =>
      let '(update, w1) :=
        incrementalUpdate collection operation doc originalDoc query w in
      let '(updates, w2) :=
        incrementalUpdates collection operation doc originalDoc rest w1 in
      (match update with
       | Some u => u :: updates
       | None => updates
       end, w2)
  end.

(** The end of the session loop, shared by the incremental and the count
    publisher: a message goes out when there is an update and the client
    is connected. *)
Definition send (clients : gset string) (session : SessionSubscription)
    (type : string) (relevantUpdates : list value) (w : Wire) : Wire :=
  match relevantUpdates with
  | [] => w
  | _ =>
      if bool_decide (clientId session ∈ clients) then
        write (clientId session)
          (VObj [("type", VStr type); ("updates", VArr relevantUpdates);
                 ("timestamp", VNum now)])
          w
      else w
  end.

(** [publishIncrementalUpdates({ collection, operation, doc, originalDoc,
    req })] *)
Definition publishIncrementalUpdates (c : State) (clients : gset string)
    (collection : string) (operation : Operation) (doc originalDoc : value)
    (w : Wire) : Wire :=
  fold_left
    (fun w session =>
       let '(relevantUpdates, w1) :=
         incrementalUpdates collection operation doc originalDoc
           (queries session) w in
       send clients session "incremental_updates" relevantUpdates w1)
    (getSessionsForCollection c collection) w.

(** The query loop of [publishCountUpdates]. *)
Definition countUpdates (collection : string) (qs : list Query) : list value :=
  flat_map
    (fun query =>
       if negb (String.eqb (Subscriptions.collection query) collection)
          || negb match queryType query with Count => true | _ => false end
       then []
       else [VObj [("queryKey", VStr (queryKey query));
                   ("changeType", VStr "count_invalidated")]])
    qs.

(** [publishCountUpdates({ collection })] *)
Definition publishCountUpdates (c : State) (clients : gset string)
    (collection : string) (w : Wire) : Wire :=
  fold_left
    (fun w session =>
       send clients session "count_updates"
         (countUpdates collection (queries session)) w)
    (getSessionsForCollection c collection) w.

End Payload.

(** *** The cross-collection publisher *)

(** The table [fieldToCollectionMapping] of [checkPopulateAffected]. *)
Definition populateFieldMapping (fieldName : string) : option string :=
  if String.eqb fieldName "assignee" then Some "users"
  else if String.eqb fieldName "author" then Some "users"
  else if String.eqb fieldName "user" then Some "users"
  else if String.eqb fieldName "createdBy" then Some "users"
  else if String.eqb fieldName "updatedBy" then Some "users"
  else if String.eqb fieldName "project" then Some "projects"
  else if String.eqb fieldName "task" then Some "tasks"
  else if String.eqb fieldName "workspace" then Some "workspaces"
  else None.

(** The table [fieldToCollectionMapping] of [checkWhereClauseAffected]. *)
Definition whereFieldMapping (fieldName : string) : option string :=
  if String.eqb fieldName "assignee" then Some "users"
  else if String.eqb fieldName "author" then Some "users"
  else if String.eqb fieldName "user" then Some "users"
  else if String.eqb fieldName "project" then Some "projects"
  else None.

(** [expectedCollection === changedCollection] *)
Definition maps_to (mapping : string -> option string)
    (fieldName changedCollection : string) : bool :=
  match mapping fieldName with
  | Some expectedCollection => String.eqb expectedCollection changedCollection
  | None => false
  end.

(** [checkPopulateAffected({ query, changedCollection })] *)
Definition checkPopulateAffected (query : Query) (changedCollection : string)
  : bool :=
  let populate_ := get (params query) "populate" in
  if negb (truthy populate_) then false
  else
    existsb (fun fieldName => maps_to populateFieldMapping fieldName
                                changedCollection)
      (keys populate_).

(** The field loop of [checkWhereClauseAffected] for one entry. *)
Definition whereFieldAffected (changedCollection fieldPath : string) : bool :=
  if String.eqb fieldPath "and" || String.eqb fieldPath "or" then false
  else if includes fieldPath "." then
    maps_to whereFieldMapping (hd "" (split "." fieldPath)) changedCollection
  else false.

(** [checkWhereClauseAffected(where, changedCollection, ...)] *)
Fixpoint checkWhereClauseAffected (where_ : value) (changedCollection : string)
    {struct where_} : bool :=
  if negb (truthy where_) || negb (typeof_object where_) then false
  else
    match where_ with
    | VObj props =>
        let fields :=
          existsb (fun '(fieldPath, _) =>
                     whereFieldAffected changedCollection fieldPath)
            props in
        let or_branch :=
          on_prop "or" props fields
            (fun o =>
               match o with
               | VArr conditions =>
                   existsb
                     (fun condition =>
                        checkWhereClauseAffected condition changedCollection)
                     conditions
               | _ => fields
               end) in
        on_prop "and" props or_branch
          (fun a =>
             match a with
             | VArr conditions =>
                 existsb
                   (fun condition =>
                      checkWhereClauseAffected condition changedCollection)
                   conditions
             | _ => or_branch
             end)
    | _ =>
        existsb (fun '(fieldPath, _) =>
                   whereFieldAffected changedCollection fieldPath)
          (entries where_)
    end.

(** [determineQueryChangeType(query, changedCollection, ...)]: whether the
    result is [invalidate] (otherwise it is [null]); it throws when the
    query is on another collection and its [params] is [null] or
    [undefined]. *)
Definition determineQueryChangeType (query : Query) (changedCollection : string)
  : Outcome bool :=
  if String.eqb (Subscriptions.collection query) changedCollection
  then Returned false
  else if is_undefined (params query) || is_null (params query)
  then Thrown "TypeError: cannot read properties of params"
  else if truthy (get (params query) "populate")
          && checkPopulateAffected query changedCollection
  then Returned true
  else if truthy (get (params query) "where")
          && checkWhereClauseAffected (get (params query) "where")
               changedCollection
  then Returned true
  else Returned false.

(** An element of [affectedUpdates]. *)
Record Affected := {
  a_clientId : string;
  a_queryKey : string;
  a_changeType : string;
  a_data : value;
}.

(** The session loop of [publishCrossCollectionUpdates] for one query
    key. *)
Fixpoint affectedSessions (changedCollection key : string)
    (ss : list SessionSubscription) : Outcome (list Affected) :=
  match ss with
  | [] => Returned []
  | session :: rest =>
      match List.find (fun q => String.eqb (queryKey q) key) (queries session)
      with
      | None => affectedSessions changedCollection key rest
      | Some query =>
          match determineQueryChangeType query changedCollection with
          | Thrown e => Thrown e
          | Returned invalidate =>
              match affectedSessions changedCollection key rest with
              | Thrown e => Thrown e
              | Returned more =>
                  Returned
                    (if invalidate
                     then {| a_clientId := clientId session;
                             a_queryKey := key;
                             a_changeType := "invalidate";
                             a_data := VUndef |} :: more
                     else more)
              end
          end
      end
  end.

(** The loop over the dependent query keys. *)
Fixpoint affectedUpdates (c : State) (changedCollection : string)
    (dependentQueryKeys : list string) : Outcome (list Affected) :=
  match dependentQueryKeys with
  | [] => Returned []
  | key :: rest =>
      match affectedSessions changedCollection key (getSessionsForQuery c key)
      with
      | Thrown e => Thrown e
      | Returned here =>
          match affectedUpdates c changedCollection rest with
          | Thrown e => Thrown e
          | Returned more => Returned (here ++ more)%list
          end
      end
  end.

(** The keys of [updatesBySession], in insertion order. *)
Fixpoint first_occurrences (ids seen : list string) : list string :=
  match ids with
  | [] => []
  | id :: rest =>
      if bool_decide (id ∈ seen) then first_occurrences rest seen
      else id :: first_occurrences rest (id :: seen)
  end.

Definition operation_name (operation : Operation) : string :=
  match operation with
  | Create => "create"
  | Update => "update"
  | Delete => "delete"
  end.

Definition wire_update (update : Affected) : value :=
  VObj [("queryKey", VStr (a_queryKey update));
        ("changeType", VStr (a_changeType update));
        ("data", a_data update)].

Section Clock.

Variable now : Z.

(** The body of the loop of [sendCrossCollectionUpdates] for one client
    id.  [clients.get(session.clientId)] throws into the [catch] when the
    registry has no session under the id; a client that is not connected
    ends the iteration. *)
Definition sendToSession (c : State) (clients : gset string)
    (changedCollection : string) (operation : Operation) (id : string)
    (sessionUpdates : list Affected) (w : Wire) : Wire :=
  let invalidateUpdates :=
    List.filter (fun u => String.eqb (a_changeType u) "invalidate")
      sessionUpdates in
  let incrementalUpdates :=
    List.filter (fun u => negb (String.eqb (a_changeType u) "invalidate"))
      sessionUpdates in
  let connected :=
    match getSession c id with
    | Some session => Some (bool_decide (clientId session ∈ clients), session)
    | None => None
    end in
  let send_incremental (w : Wire) :=
    match incrementalUpdates, connected with
    | _ :: _, Some (true, session) =>
        write (clientId session)
          (VObj [("type", VStr "incremental_updates");
                 ("updates", VArr (map wire_update incrementalUpdates));
                 ("timestamp", VNum now)])
          w
    | _, _ => w
    end in
  match invalidateUpdates, connected with
  | _ :: _, Some (true, session) =>
      send_incremental
        (write (clientId session)
           (VObj [("type", VStr "cross_collection_updates");
                  ("updates", VArr (map wire_update invalidateUpdates));
                  ("sourceCollection", VStr changedCollection);
                  ("operationType", VStr (operation_name operation));
                  ("timestamp", VNum now)])
           w)
  | _ :: _, Some (false, _) => w
  | _, _ => send_incremental w
  end.

(** [sendCrossCollectionUpdates(updates, changedCollection,
    operationType)] *)
Definition sendCrossCollectionUpdates (c : State) (clients : gset string)
    (updates : list Affected) (changedCollection : string)
    (operation : Operation) (w : Wire) : Wire :=
  fold_left
    (fun w id =>
       sendToSession c clients changedCollection operation id
         (List.filter (fun u => String.eqb (a_clientId u) id) updates) w)
    (first_occurrences (map a_clientId updates) []) w.

(** [publishCrossCollectionUpdates({ collection, operation, ... })]: the
    promise rejects when a dependent query cannot be read. *)
Definition publishCrossCollectionUpdates (c : State) (clients : gset string)
    (changedCollection : string) (operation : Operation) (w : Wire)
  : Outcome Wire :=
  match affectedUpdates c changedCollection
          (getQueriesDependingOn c changedCollection) with
  | Thrown e => Thrown e
  | Returned [] => Returned w
  | Returned updates =>
      Returned
        (sendCrossCollectionUpdates c clients updates changedCollection
           operation w)
  end.

End Clock.

End Publishers.

(** ** Reading a fingerprint back ([utilities/query-hash.ts]) *)
Module QueryHashDecoding.
Import JS QueryHash.

(** ['='.repeat((4 - (s.length % 4)) % 4)] *)
Definition padding (s : string) : string :=
  string_of_list_ascii
    (repeat "="%char ((4 - String.length s mod 4) mod 4)%nat).

(** The object [{ type, collection, params }]. *)
Record DecodedQuery := {
  d_type : string;
  d_collection : string;
  d_params : value;
}.

Section Decoders.

(** The library functions the decoder calls: [packr.unpack] of msgpackr,
    [atob] and [JSON.parse] ([None] when they throw), and
    [Buffer.from(s, 'base64')]. *)
Variable unpack : list Byte.byte -> option value.
Variable from_base64 : string -> list Byte.byte.
Variable atob : string -> option string.
Variable JSON_parse : string -> option value.

(** [decodeParamsFromJSON(encoded)] *)
Definition decodeParamsFromJSON (encoded : string) : value :=
  match atob (encoded ++ padding encoded) with
  | Some jsonString =>
      match JSON_parse jsonString with
      | Some params => params
      | None => VObj []
      end
  | None => VObj []
  end.

(** [decodeQueryHash(hash)]; [None] is [null]. *)
Definition decodeQueryHash (hash : string) : option DecodedQuery :=
  match split "." hash with
  | [type; collection; encodedParams] =>
      let base64 :=
        replace_char "_" "/" (replace_char "-" "+" encodedParams)
          ++ padding encodedParams in
      Some {| d_type := type; d_collection := collection;
              d_params :=
                match unpack (from_base64 base64) with
                | Some params => params
                | None => decodeParamsFromJSON encodedParams
                end |}
  | _ => None
  end.

End Decoders.

(** [createChannelName(queryHash)] *)
Definition createChannelName (queryHash : string) : string :=
  "query." ++ queryHash.

(** The characters a base64 body is free of: the two URL-safe
    substitutes, the padding character and the dot. *)
Definition base64_char (c : ascii) : bool :=
  negb (Ascii.eqb c "-" || Ascii.eqb c "_" || Ascii.eqb c "="
        || Ascii.eqb c ".").

Fixpoint base64_body (s : string) : bool :=
  match s with
  | EmptyString => true
  | String c s' => base64_char c && base64_body s'
  end.

(** A stand-in base64 that pads its output to a multiple of four, with
    the decoder that goes with it. *)
Definition padded_base64 (b : list Byte.byte) : string :=
  string_of_list_byte b ++ padding (string_of_list_byte b).

Definition unpadded_bytes (s : string) : list Byte.byte :=
  list_byte_of_string (remove_char "=" s).

(** A decoder for the stand-in encoder [render]: it reads one value off
    the front of a text, with the rest of the text; [fuel] bounds the
    number of values read. *)
Fixpoint read_until (stop : ascii) (s : string) : option (string * string) :=
  match s with
  | EmptyString => None
  | String c rest =>
      if Ascii.eqb c stop then Some (EmptyString, rest)
      else
        match read_until stop rest with
        | Some (text, rest1) => Some (String c text, rest1)
        | None => None
        end
  end.

Definition is_digit (c : ascii) : bool :=
  let n := nat_of_ascii c in (Nat.leb 48 n && Nat.leb n 57)%bool.

Fixpoint read_digits (s : string) : string * string :=
  match s with
  | EmptyString => (EmptyString, EmptyString)
  | String c rest =>
      if is_digit c then
        let '(digits, rest1) := read_digits rest in (String c digits, rest1)
      else (EmptyString, s)
  end.

Fixpoint read_value (fuel : nat) (s : string) : option (value * string) :=
  match fuel, s with
  | S fuel1, String c rest =>
      if Ascii.eqb c "u" then Some (VUndef, rest)
      else if Ascii.eqb c "n" then Some (VNull, rest)
      else if Ascii.eqb c "t" then Some (VBool true, rest)
      else if Ascii.eqb c "f" then Some (VBool false, rest)
      else if Ascii.eqb c "#" then
        let '(digits, rest1) := read_digits rest in
        match NilEmpty.int_of_string digits with
        | Some i => Some (VNum (Z.of_int i), rest1)
        | None => None
        end
      else if Ascii.eqb c "'" then
        match read_until "'" rest with
        | Some (text, rest1) => Some (VStr text, rest1)
        | None => None
        end
      else if Ascii.eqb c "[" then
        match read_items fuel1 rest with
        | Some (items, rest1) => Some (VArr items, rest1)
        | None => None
        end
      else if Ascii.eqb c "{" then
        match read_props fuel1 rest with
        | Some (props, rest1) => Some (VObj props, rest1)
        | None => None
        end
      else None
  | _, _ => None
  end
with read_items (fuel : nat) (s : string) : option (list value * string) :=
  match fuel, s with
  | S fuel1, String c rest =>
      if Ascii.eqb c "]" then Some ([], rest)
      else
        match read_value fuel1 s with
        | Some (item, String sep rest1) =>
            if Ascii.eqb sep "," then
              match read_items fuel1 rest1 with
              | Some (items, rest2) => Some (item :: items, rest2)
              | None => None
              end
            else None
        | _ => None
        end
  | _, _ => None
  end
with read_props (fuel : nat) (s : string)
  : option (list (string * value) * string) :=
  match fuel, s with
  | S fuel1, String c rest =>
      if Ascii.eqb c "}" then Some ([], rest)
      else
        match read_until ":" s with
        | Some (key, rest1) =>
            match read_value fuel1 rest1 with
            | Some (x, String sep rest2) =>
                if Ascii.eqb sep "," then
                  match read_props fuel1 rest2 with
                  | Some (props, rest3) => Some ((key, x) :: props, rest3)
                  | None => None
                  end
                else None
            | _ => None
            end
        | None => None
        end
  | _, _ => None
  end.

Definition unrender (b : list Byte.byte) : option value :=
  let text := string_of_list_byte b in
  match read_value (S (String.length text)) text with
  | Some (v, EmptyString) => Some v
  | _ => None
  end.

End QueryHashDecoding.

(** ** The query endpoint ([utilities/endpoints.ts]) *)
Module Endpoints.
Import JS QueryHash SchemaDeps Subscriptions SubscriptionManager Registry.

(** What the handler is given: a request without a [json] method, one
    whose [json()] rejects, or the parsed body. *)
Inductive Request :=
| NoJson
| BadJson
| Body (body : value).

Inductive Response :=
| Json (status : Z) (body : value)
| Text (status : Z) (body : string).

Definition status_of (r : Response) : Z :=
  match r with
  | Json status _ => status
  | Text status _ => status
  end.

Definition internal_error : Response :=
  Json 500 (VObj [("error", VStr "Internal server error")]).

Section Handler.

Variable pack : value -> option (list Byte.byte).
Variable base64 : list Byte.byte -> string.
Variable JSON_stringify : value -> list string -> string.
Variable btoa : string -> string.

(** The schema the dependency tracker was initialised with, and the
    value of [new Date()] and [Date.now()] during the request. *)
Variable payloadConfig : SanitizedConfig.
Variable now : Z.

(** The Payload operation chosen by the [switch]: [execute type body] is
    its result, or [None] when it rejects. *)
Variable execute : string -> value -> option value.

(** The object handed to [createQueryHash]. *)
Definition hashed_query (body : value) : list (string * value) :=
  map (fun key => (key, get body key))
    ["type"; "collection"; "where"; "sort"; "limit"; "page"; "depth";
     "populate"; "locale"; "fallbackLocale"; "id"].

Definition is_string (v : value) (s : string) : bool :=
  strict_eq v (VStr s).

(** The validation at the head of the handler: [true] when one of the
    five errors is thrown. *)
Definition rejects (clients : gset string) (body : value) : bool :=
  let type := get body "type" in
  let clientId := get body "clientId" in
  negb (truthy type) || negb (truthy (get body "collection"))
  || negb (truthy clientId)
  || negb match clientId with
          | VStr id => bool_decide (id ∈ clients)
          | _ => false
          end
  || (is_string type "create" && negb (truthy (get body "data")))
  || ((is_string type "update" || is_string type "delete")
      && negb (truthy (get body "id")))
  || (is_string type "update" && negb (truthy (get body "data"))).

(** The two [if] statements that register the subscription.  The
    registry keeps collection names as strings: [None] when a read is
    asked for a collection that is not a string. *)
Definition subscribe_for (c : State) (body : value) (id queryKey : string)
  : option State :=
  let type := get body "type" in
  if is_string type "count" then
    match get body "collection" with
    | VStr collection =>
        Some (subscribeToCount payloadConfig now c id queryKey collection
                (VObj [("where", get body "where");
                       ("locale", get body "locale")]))
    | _ => None
    end
  else if is_string type "find" || is_string type "findByID" then
    match get body "collection" with
    | VStr collection =>
        Some (subscribeToQuery payloadConfig now c id queryKey collection
                (VObj [("where", get body "where"); ("sort", get body "sort");
                       ("limit", get body "limit");
                       ("populate", get body "populate")]))
    | _ => None
    end
  else Some c.

Definition operations : list string :=
  ["find"; "findByID"; "count"; "create"; "update"; "delete"].

(** The handler of [payloadQueryEndpoint]: its response and the registry
    it leaves.  The subscriptions actor is taken to be initialised
    (otherwise [getSubscriptions] throws at the first line and the answer
    is the 500 of the [catch] block, with the registry untouched), and the
    Payload operation is taken not to register anything itself. *)
Definition payloadQueryEndpoint (clients : gset string) (c : State)
    (request : Request) : option (Response * State) :=
  match request with
  | NoJson => Some (Text 500 "req.json is not a function", c)
  | BadJson => Some (internal_error, c)
  | Body body =>
      if is_undefined body || is_null body then Some (internal_error, c)
      else if rejects clients body then Some (internal_error, c)
      else
        match get body "clientId" with
        | VStr id =>
            let queryKey :=
              createQueryHash pack base64 JSON_stringify btoa
                (hashed_query body) in
            match subscribe_for c body id queryKey with
            | None => None
            | Some c1 =>
                match get body "type" with
                | VStr type =>
                    if bool_decide (type ∈ operations) then
                      match execute type body with
                      | Some result =>
                          Some (Json 200
                                  (VObj [("data", result);
                                         ("queryKey", VStr queryKey);
                                         ("timestamp", VNum now)]),
                                c1)
                      | None => Some (internal_error, c1)
                      end
                    else
                      Some (Json 400
                              (VObj [("error", VStr "Invalid operation type")]),
                            c1)
                | _ =>
                    Some (Json 400
                            (VObj [("error", VStr "Invalid operation type")]),
                          c1)
                end
            end
        | _ => Some (internal_error, c)
        end
  end.

End Handler.

End Endpoints.

(** ** Client-side reconciliation ([client/payload-sync.ts])

    The [find] branch of [handleIncrementalUpdates]: how one update is
    folded into the cached array of documents.  [None] stands for a thrown
    exception, which the handler catches: the cache is then left as it
    was and the subscriber is called with the error. *)
Module ClientCache.
Import JS QueryMatcher.

Definition nullish (v : value) : bool := is_undefined v || is_null v.

(** [Object.prototype.hasOwnProperty.call(v, key)] for a value that is
    neither [null] nor [undefined]. *)
Definition hasOwnProperty (v : value) (key : string) : bool :=
  match v with
  | VArr _ | VStr _ => String.eqb key "length" || has_key key (entries v)
  | _ => has_key key (entries v)
  end.

(** [props[key] = v] on an object under construction. *)
Fixpoint set_prop (key : string) (v : value) (props : list (string * value))
  : list (string * value) :=
  match props with
  | [] => [(key, v)]
  | (k, x) :: rest =>
      if String.eqb k key then (k, v) :: rest
      else (k, x) :: set_prop key v rest
  end.

(** The object spread [{ ...a, ...b }]. *)
Definition spread (a b : value) : value :=
  VObj (fold_left (fun props '(k, v) => set_prop k v props) (entries b)
          (entries a)).

(** [doc.id === data.id], as the callbacks of [findIndex] and [filter]
    evaluate it: reading [id] of [null] or [undefined] throws. *)
Definition same_id (doc data : value) : option bool :=
  if nullish doc || nullish data then None
  else Some (strict_eq (get doc "id") (get data "id")).

(** [docs.findIndex((doc) => doc.id === data.id)]; [Some None] is -1. *)
Fixpoint findIndex (docs : list value) (data : value) : option (option nat) :=
  match docs with
  | [] => Some None
  | doc :: rest =>
      match same_id doc data with
      | None => None
      | Some true => Some (Some 0%nat)
      | Some false =>
          match findIndex rest data with
          | None => None
          | Some index => Some (S <$> index)
          end
      end
  end.

(** [docs.filter((doc) => doc.id !== data.id)] *)
Fixpoint deleteById (docs : list value) (data : value) : option (list value) :=
  match docs with
  | [] => Some []
  | doc :: rest =>
      match same_id doc data with
      | None => None
      | Some same =>
          match deleteById rest data with
          | None => None
          | Some kept => Some (if same then kept else doc :: kept)
          end
      end
  end.

(** [sort.startsWith('-')] and the sort field, for a sort string. *)
Definition isDescending (sort : string) : bool := String.prefix "-" sort.

Definition sortField (sort : string) : string :=
  if isDescending sort then String.substring 1 (String.length sort - 1) sort
  else sort.

(** [compareDocuments(docA, docB, field, descending)] *)
Definition compareDocuments (docA docB : value) (field : string)
    (descending : bool) : Z :=
  let valueA := getNestedValue docA field in
  let valueB := getNestedValue docB field in
  let comparison :=
    if lt valueA valueB then -1 else if gt valueA valueB then 1 else 0 in
  if descending then - comparison else comparison.

(** The loop of [findSortedInsertPosition]; the interval shrinks in every
    iteration, so [right - left] iterations are enough. *)
Fixpoint search (before : value -> bool) (docs : list value)
    (fuel left right : nat) : nat :=
  match fuel with
  | O => left
  | S fuel' =>
      if (left <? right)%nat then
        let mid := ((left + right) / 2)%nat in
        if before (nth mid docs VUndef)
        then search before docs fuel' (S mid) right
        else search before docs fuel' left mid
      else left
  end.

(** [findSortedInsertPosition(docs, newDoc, sort)] *)
Definition findSortedInsertPosition (docs : list value) (newDoc : value)
    (sort : string) : nat :=
  match docs with
  | [] => 0%nat
  | _ =>
      search
        (fun doc =>
           compareDocuments doc newDoc (sortField sort) (isDescending sort)
           <? 0)
        docs (List.length docs) 0 (List.length docs)
  end.

(** [docs.splice(index, 0, newDoc)] *)
Definition splice_in (index : nat) (newDoc : value) (docs : list value)
  : list value :=
  (firstn index docs ++ newDoc :: skipn index docs)%list.

(** [insertDocumentSorted(docs, newDoc, query)]; it throws when [query]
    is [null] or [undefined] and when the sort is truthy but has no
    [startsWith] method. *)
Definition insertDocumentSorted (docs : list value) (newDoc query : value)
  : option (list value) :=
  if nullish query then None
  else
    let sort := get query "sort" in
    if negb (truthy sort) || Nat.eqb (List.length docs) 0
    then Some (docs ++ [newDoc])%list
    else
      match sort with
      | VStr s => Some (splice_in (findSortedInsertPosition docs newDoc s)
                          newDoc docs)
      | _ => None
      end.

Section Sort.

(** [Array.prototype.sort] with a comparator. *)
Variable array_sort : (value -> value -> Z) -> list value -> list value.

(** [mightAffectSorting(updatedDoc, query)] *)
Definition mightAffectSorting (updatedDoc query : value) : option bool :=
  if nullish query then None
  else
    let sort := get query "sort" in
    if negb (truthy sort) then Some false
    else
      match sort with
      | VStr s =>
          if nullish updatedDoc then None
          else Some (hasOwnProperty updatedDoc (sortField s))
      | _ => None
      end.

(** [sortDocumentArray(docs, query)] *)
Definition sortDocumentArray (docs : list value) (query : value)
  : option (list value) :=
  if nullish query then None
  else
    let sort := get query "sort" in
    if negb (truthy sort) then Some docs
    else
      match sort with
      | VStr s =>
          Some (array_sort
                  (fun a b =>
                     compareDocuments a b (sortField s) (isDescending s))
                  docs)
      | _ => None
      end.

(** The [update] case, also taken by [upsert] when the document is
    present: merge in place, then sort again if the update carries the
    sort field. *)
Definition mergeAt (index : nat) (docs : list value) (data query : value)
  : option (list value) :=
  let merged :=
    <[index := spread (nth index docs VUndef) data]> docs in
  match mightAffectSorting data query with
  | None => None
  | Some true => sortDocumentArray merged query
  | Some false => Some merged
  end.

(** The [switch (changeType)] of [handleIncrementalUpdates] on a copy of
    the cached array.  An [update] that finds no document reads [data.id]
    for its log line, which throws when [data] is [null] or [undefined]
    (with a non-empty array the callback of [findIndex] has thrown
    already). *)
Definition applyChange (changeType : string) (docs : list value)
    (data query : value) : option (list value) :=
  if String.eqb changeType "insert" then insertDocumentSorted docs data query
  else if String.eqb changeType "update" then
    match findIndex docs data with
    | None => None
    | Some (Some index) => mergeAt index docs data query
    | Some None => if nullish data then None else Some docs
    end
  else if String.eqb changeType "upsert" then
    match findIndex docs data with
    | None => None
    | Some (Some index) => mergeAt index docs data query
    | Some None => insertDocumentSorted docs data query
    end
  else if String.eqb changeType "delete" then deleteById docs data
  else Some docs.

End Sort.

End ClientCache.

(** * Properties *)

(** ** Document matcher *)
Module QueryMatcherProofs.
Import JS QueryMatcher.

Lemma on_prop_assoc {A} key props (absent : A) present :
  on_prop key props absent present
  = if has_key key props then present (assoc key props) else absent.
Proof.
  induction props as [|[k v] rest IH]; simpl; [reflexivity|].
  destruct (String.eqb k key); simpl; [reflexivity|exact IH].
Qed.

Lemma assoc_absent key props : has_key key props = false -> assoc key props = VUndef.
Proof.
  induction props as [|[k v] rest IH]; simpl; [reflexivity|].
  destruct (String.eqb k key); simpl; [discriminate|exact IH].
Qed.

(** The body of [evaluateWhereClause] on an object, read through
    property access. *)
Lemma evaluateWhereClause_object doc props :
  evaluateWhereClause doc (VObj props)
  = match assoc "and" props with
    | VArr conditions => forallb (evaluateWhereClause doc) conditions
    | _ =>
        match assoc "or" props with
        | VArr conditions => existsb (evaluateWhereClause doc) conditions
        | _ =>
            forallb
              (fun '(fieldPath, condition) =>
                 evaluateFieldCondition doc fieldPath condition)
              props
        end
    end.
Proof.
  cbn [evaluateWhereClause truthy typeof_object negb orb].
  rewrite !on_prop_assoc.
  destruct (has_key "and" props) eqn:Hand.
  - destruct (assoc "and" props); try reflexivity;
      destruct (has_key "or" props) eqn:Hor; try reflexivity;
      rewrite (assoc_absent _ _ Hor); reflexivity.
  - rewrite (assoc_absent _ _ Hand).
    destruct (has_key "or" props) eqn:Hor; [reflexivity|].
    rewrite (assoc_absent _ _ Hor); reflexivity.
Qed.

Lemma documentMatchesQuery_object doc subscription k v props :
  get subscription "where" = VObj ((k, v) :: props) ->
  documentMatchesQuery doc subscription
  = evaluateWhereClause doc (VObj ((k, v) :: props)).
Proof. intros H. unfold documentMatchesQuery. rewrite H. reflexivity. Qed.

(** C10: when the where-clause object has an [and] key holding an array,
    the matcher answers with the conjunction of the array's conditions and
    nothing else in the object is looked at; when there is no [and] array
    and the [or] key holds an array, it answers with the disjunction of
    that array's conditions. *)
Theorem logical_key_shadows_siblings doc subscription props :
  get subscription "where" = VObj props ->
  (forall conditions,
      assoc "and" props = VArr conditions ->
      evaluateWhereClause doc (VObj props)
      = forallb (evaluateWhereClause doc) conditions
      /\ documentMatchesQuery doc subscription
         = forallb (evaluateWhereClause doc) conditions)
  /\ (forall conditions,
         isArray (assoc "and" props) = false ->
         assoc "or" props = VArr conditions ->
         evaluateWhereClause doc (VObj props)
         = existsb (evaluateWhereClause doc) conditions
         /\ documentMatchesQuery doc subscription
            = existsb (evaluateWhereClause doc) conditions).
Proof.
  intros Hwhere.
  assert (Hdoc : forall key conditions,
             assoc key props = VArr conditions ->
             documentMatchesQuery doc subscription
             = evaluateWhereClause doc (VObj props)).
  { intros key conditions Hk. destruct props as [|[k v] rest].
    - discriminate Hk.
    - eapply documentMatchesQuery_object; eassumption. }
  split; intros conditions.
  - intros Hand. rewrite (Hdoc _ _ Hand), evaluateWhereClause_object, Hand.
    split; reflexivity.
  - intros Hnot Hor. rewrite (Hdoc _ _ Hor), evaluateWhereClause_object, Hor.
    destruct (assoc "and" props); try discriminate Hnot; split; reflexivity.
Qed.

Definition sample_doc : value :=
  VObj [("id", VStr "1"); ("status", VStr "active"); ("priority", VNum 5)].

Definition sample_where : list (string * value) :=
  [("status", VStr "archived");
   ("or", VArr [VObj [("status", VStr "done")]]);
   ("and", VArr [VObj [("status", VStr "active")];
                 VObj [("priority", VObj [("greater_than", VNum 3)])]])].

Lemma logical_key_shadows_siblings_witness :
  documentMatchesQuery sample_doc (VObj [("where", VObj sample_where)]) = true.
Proof.
  pose proof (logical_key_shadows_siblings sample_doc
                (VObj [("where", VObj sample_where)]) sample_where
                eq_refl) as [Hand _].
  destruct (Hand _ eq_refl) as [_ ->]. reflexivity.
Defined.

(** *** Missing fields *)

Lemma getNestedValue_step_undefined keys_ :
  fold_left
    (fun current key =>
       if truthy current && negb (is_undefined (get current key))
       then get current key else VUndef)
    keys_ VUndef = VUndef.
Proof. induction keys_ as [|k rest IH]; simpl; [reflexivity|exact IH]. Qed.

(** Once an intermediate segment of the path is missing, the traversal
    yields [undefined]. *)
Lemma missing_intermediate obj (before after : list string) :
  fold_left
    (fun current key =>
       if truthy current && negb (is_undefined (get current key))
       then get current key else VUndef)
    before obj = VUndef ->
  fold_left
    (fun current key =>
       if truthy current && negb (is_undefined (get current key))
       then get current key else VUndef)
    (before ++ after)%list obj = VUndef.
Proof.
  intros H. rewrite fold_left_app, H. apply getNestedValue_step_undefined.
Qed.

Lemma compareValues_undefined e : compareValues VUndef e = is_undefined e.
Proof. destruct e; reflexivity. Qed.

Lemma some_equal_undefined vals :
  existsb (compareValues VUndef) vals = existsb is_undefined vals.
Proof.
  induction vals as [|v rest IH]; simpl; [reflexivity|].
  rewrite compareValues_undefined, IH. reflexivity.
Qed.

Lemma evaluateFieldCondition_single doc fieldPath operator expectedValue :
  evaluateFieldCondition doc fieldPath (VObj [(operator, expectedValue)])
  = evaluateOperator (getNestedValue doc fieldPath) operator expectedValue.
Proof.
  unfold evaluateFieldCondition. simpl. apply andb_true_r.
Qed.

(** A filter value as it arrives from JSON: it is not [undefined] and, if
    an array, has no [undefined] element. *)
Definition json_operand (e : value) : bool :=
  negb (is_undefined e)
  && match e with
     | VArr vals => negb (existsb is_undefined vals)
     | _ => true
     end.

Definition known_operators : list string :=
  ["equals"; "not_equals"; "in"; "not_in"; "greater_than";
   "greater_than_equal"; "less_than"; "less_than_equal"; "like";
   "contains"; "exists"].

Definition ordering_operators : list string :=
  ["greater_than"; "greater_than_equal"; "less_than"; "less_than_equal"].

Lemma ordering_on_undefined e :
  le VUndef e = false /\ lt VUndef e = false
  /\ ge VUndef e = false /\ gt VUndef e = false.
Proof.
  unfold le, lt, ge, gt, lt, abstract_lt.
  repeat split; destruct e; simpl; try reflexivity;
    try (destruct (toNumber _); reflexivity);
    try (destruct (string_to_number _); reflexivity).
Qed.

(** The four ordering operators are written as
    [if (fieldValue <= expectedValue) return false] and the like, and every
    comparison with [undefined] is false, so no [return false] is taken
    and an [undefined] field passes [greater_than] and [less_than] of the
    same bound alike. *)
Remark ordering_operators_accept_undefined operator e :
  operator ∈ ordering_operators -> evaluateOperator VUndef operator e = true.
Proof.
  intros Hin. destruct (ordering_on_undefined e) as (Hle & Hlt & Hge & Hgt).
  unfold ordering_operators in Hin.
  repeat (apply elem_of_cons in Hin as [->|Hin]);
    [| | | | apply elem_of_nil in Hin; destruct Hin];
    unfold evaluateOperator; simpl;
    rewrite ?Hle, ?Hlt, ?Hge, ?Hgt; reflexivity.
Qed.

Lemma unknown_operator_rejects fieldValue operator e :
  operator ∉ known_operators -> evaluateOperator fieldValue operator e = false.
Proof.
  intros Hnot. unfold evaluateOperator.
  repeat match goal with
         | |- context [String.eqb operator ?k] =>
             destruct (String.eqb_spec operator k) as [->|_];
             [exfalso; apply Hnot; unfold known_operators; set_solver|]
         end.
  reflexivity.
Qed.

(** C4, as the code has it: when the path of a leaf condition resolves to
    [undefined], the operators [equals], [in], [like], [contains], [exists]
    with an expected value other than [false], and every unknown operator
    fail; [exists] with [false] succeeds, and so do the two negated
    operators [not_equals] and [not_in]. *)
Theorem undefined_field_operators doc fieldPath expectedValue :
  getNestedValue doc fieldPath = VUndef ->
  json_operand expectedValue = true ->
  let holds operator :=
    evaluateFieldCondition doc fieldPath (VObj [(operator, expectedValue)]) in
  (holds "exists" = true <-> expectedValue = VBool false)
  /\ holds "equals" = false
  /\ holds "in" = false
  /\ holds "like" = false
  /\ holds "contains" = false
  /\ holds "not_equals" = true
  /\ holds "not_in" = true
  /\ (forall operator, operator ∉ known_operators -> holds operator = false).
Proof.
  intros Hundef Hjson holds. subst holds. cbv beta.
  setoid_rewrite evaluateFieldCondition_single. rewrite Hundef.
  unfold json_operand in Hjson. apply andb_true_iff in Hjson as [Hdef Harr].
  assert (Hcmp : compareValues VUndef expectedValue = false).
  { rewrite compareValues_undefined. destruct (is_undefined expectedValue);
      [discriminate Hdef|reflexivity]. }
  assert (Hsome : isArray expectedValue && some_equal VUndef expectedValue
                  = false).
  { destruct expectedValue; try reflexivity. simpl.
    rewrite some_equal_undefined.
    destruct (existsb is_undefined items); [discriminate Harr|reflexivity]. }
  repeat split.
  - unfold evaluateOperator; simpl.
    destruct expectedValue as [| |[]| | | |]; simpl; congruence.
  - intros ->. reflexivity.
  - unfold evaluateOperator; simpl. exact Hcmp.
  - unfold evaluateOperator; simpl. exact Hsome.
  - unfold evaluateOperator; simpl. rewrite Hcmp. reflexivity.
  - unfold evaluateOperator; simpl. rewrite Hsome. reflexivity.
  - intros operator. apply unknown_operator_rejects.
Qed.

Definition task_without_assignee : value :=
  VObj [("id", VStr "1"); ("name", VStr "Write report")].

Lemma undefined_field_operators_witness :
  evaluateFieldCondition task_without_assignee "assignee.name"
    (VObj [("not_equals", VStr "John")]) = true
  /\ evaluateFieldCondition task_without_assignee "assignee.name"
       (VObj [("equals", VStr "John")]) = false.
Proof.
  pose proof (undefined_field_operators task_without_assignee "assignee.name"
                (VStr "John") eq_refl eq_refl) as H.
  cbv zeta in H. destruct H as (_ & Heq & _ & _ & _ & Hne & _).
  split; assumption.
Defined.

(** Not every operator other than [exists: false] fails on a missing
    field: with the intermediate [assignee] missing, a [not_equals] and a
    [not_in] condition succeed. *)
Lemma undefined_field_counterexample :
  getNestedValue task_without_assignee "assignee.name" = VUndef
  /\ evaluateFieldCondition task_without_assignee "assignee.name"
       (VObj [("not_equals", VStr "John")]) = true
  /\ evaluateFieldCondition task_without_assignee "assignee.name"
       (VObj [("not_in", VArr [VStr "John"; VStr "Ann"])]) = true.
Proof. repeat split; reflexivity. Qed.

End QueryMatcherProofs.

(** ** Change classifier *)
Module IncrementalPublisherProofs.
Import JS QueryMatcher IncrementalPublisher.





(** For a before-document that is there (an object), "was in" is plain
    matching. *)
Lemma was_in_of_document props filter :
  truthy (VObj props) && documentMatchesQuery (VObj props) filter
  = documentMatchesQuery (VObj props) filter.
Proof. reflexivity. Qed.

(** The scenario of the specification: a query for the tasks of project
    P1, and a task moved from P1 to P2 by an update. *)
Example moved_out_of_scope :
  classify Update
    (VObj [("id", VStr "t1"); ("project", VStr "P2")])
    (VObj [("id", VStr "t1"); ("project", VStr "P1")])
    (VObj [("where", VObj [("project", VObj [("equals", VStr "P1")])]);
           ("sort", VStr "-createdAt")])
  = (Some DeleteChange, VObj [("id", VStr "t1"); ("project", VStr "P1")]).
Proof. reflexivity. Qed.

End IncrementalPublisherProofs.

(** ** Query fingerprinter *)
Module QueryHashProofs.
Import JS QueryHash.

Lemma assoc_no_key key props : has_key key props = false -> assoc key props = VUndef.
Proof.
  induction props as [|[k v] rest IH]; simpl; [reflexivity|].
  destruct (String.eqb k key); simpl; [discriminate|exact IH].
Qed.

Lemma has_key_elem key props : has_key key props = true <-> key ∈ map fst props.
Proof.
  induction props as [|[k v] rest IH]; simpl.
  - split; [discriminate|]. intros H. apply elem_of_nil in H. destruct H.
  - rewrite orb_true_iff, IH, elem_of_cons.
    destruct (String.eqb_spec k key); split; intros [H|H]; auto; congruence.
Qed.

Lemma assoc_fresh key props : key ∉ map fst props -> assoc key props = VUndef.
Proof.
  intros H. apply assoc_no_key. destruct (has_key key props) eqn:E; [|reflexivity].
  apply has_key_elem in E. contradiction.
Qed.

(** Reading a property does not depend on the order in which the
    properties were written, as long as no key occurs twice. *)
Lemma assoc_permutation key (q1 q2 : list (string * value)) :
  NoDup (map fst q1) -> Permutation q1 q2 -> assoc key q1 = assoc key q2.
Proof.
  intros Hnd Hperm. induction Hperm as [|[k v] l l' Hp IH|[k1 v1] [k2 v2] l|l l' l'' H1 IH1 H2 IH2].
  - reflexivity.
  - simpl in *. apply NoDup_cons in Hnd as [_ Hnd].
    destruct (String.eqb k key); [reflexivity|auto].
  - simpl in *. apply NoDup_cons in Hnd as [Hnot _].
    destruct (String.eqb_spec k1 key) as [->|]; destruct (String.eqb_spec k2 key) as [->|];
      try reflexivity.
    exfalso. apply Hnot. left.
  - rewrite IH1 by assumption. apply IH2.
    assert (Hmap : map fst l ≡ₚ map fst l') by (apply Permutation_map; exact H1).
    rewrite <- Hmap. exact Hnd.
Qed.

Lemma meaningful_assoc key params :
  meaningful key params
  = negb (is_undefined (assoc key params)) && negb (is_null (assoc key params)).
Proof.
  unfold meaningful. destruct (has_key key params) eqn:E; [reflexivity|].
  rewrite (assoc_no_key _ _ E). reflexivity.
Qed.

Lemma assoc_rest_params key query :
  String.eqb key "type" = false -> String.eqb key "collection" = false ->
  assoc key (rest_params query) = assoc key query.
Proof.
  intros Ht Hc. induction query as [|[k v] rest IH]; [reflexivity|].
  unfold rest_params in *. cbn [List.filter].
  destruct (String.eqb_spec k key) as [->|Hne].
  - rewrite Ht, Hc. cbn [orb negb assoc]. rewrite String.eqb_refl. reflexivity.
  - destruct (negb _); cbn [assoc]; rewrite ?IH;
      destruct (String.eqb_spec k key); congruence.
Qed.

(** What [stableParams] keeps of a plain field and of an object-valued
    field. *)
Definition kept (key : string) (v : value) : list (string * value) :=
  if negb (is_undefined v) && negb (is_null v) then [(key, v)] else [].

Definition kept_content (key : string) (v : value) : list (string * value) :=
  if negb (is_undefined v) && negb (is_null v) && has_content v
  then [(key, v)] else [].

Lemma stableParams_of_query query :
  stableParams (rest_params query)
  = (kept_content "where" (assoc "where" query)
     ++ kept "sort" (assoc "sort" query)
     ++ kept "limit" (assoc "limit" query)
     ++ kept_content "populate" (assoc "populate" query)
     ++ kept "id" (assoc "id" query))%list.
Proof.
  unfold stableParams, kept, kept_content.
  rewrite !meaningful_assoc, !assoc_rest_params by reflexivity.
  reflexivity.
Qed.

(** *** Reading a fingerprint back *)

Fixpoint dot_free (s : string) : bool :=
  match s with
  | EmptyString => true
  | String c s' => negb (Ascii.eqb c ".") && dot_free s'
  end.

Lemma append_nil s : "" ++ s = s.
Proof. reflexivity. Qed.

Lemma append_cons c a s : String c a ++ s = String c (a ++ s).
Proof. reflexivity. Qed.

Lemma dot_free_app_dot a b : dot_free (a ++ String "." b) = false.
Proof.
  induction a as [|c a IH]; [reflexivity|].
  rewrite append_cons. cbn [dot_free]. rewrite IH. apply andb_false_r.
Qed.

Lemma split_first_dot a a' r r' :
  dot_free a = true -> dot_free a' = true ->
  a ++ String "." r = a' ++ String "." r' -> a = a' /\ r = r'.
Proof.
  revert a'. induction a as [|c a IH]; intros [|c' a'];
    rewrite ?append_nil, ?append_cons; cbn [dot_free].
  - intros _ _ [= ->]. auto.
  - intros _ Hd [= <- _]. discriminate Hd.
  - intros Hd _ [= -> _]. discriminate Hd.
  - intros Hd Hd' [= -> Heq].
    apply andb_true_iff in Hd as [_ Hd]. apply andb_true_iff in Hd' as [_ Hd'].
    destruct (IH a' Hd Hd' Heq) as [-> ->]. auto.
Qed.

Lemma split_last_dot c c' e e' :
  dot_free e = true -> dot_free e' = true ->
  c ++ String "." e = c' ++ String "." e' -> c = c' /\ e = e'.
Proof.
  intros He He'. revert c'. induction c as [|x c IH]; intros [|x' c'];
    rewrite ?append_nil, ?append_cons.
  - intros [= ->]. auto.
  - intros [= _ Heq]. rewrite Heq, dot_free_app_dot in He. discriminate He.
  - intros [= _ Heq]. rewrite <- Heq, dot_free_app_dot in He'. discriminate He'.
  - intros [= -> Heq]. destruct (IH c' Heq) as [-> ->]. auto.
Qed.

Section Encoders.
Variable pack : value -> option (list Byte.byte).
Variable base64 : list Byte.byte -> string.
Variable JSON_stringify : value -> list string -> string.
Variable btoa : string -> string.

Local Abbreviation fingerprint :=
  (createQueryHash pack base64 JSON_stringify btoa).

(** The fingerprint reads seven properties of the query and nothing
    else. *)
Lemma fingerprint_reads query1 query2 :
  (forall key,
      key ∈ ["type"; "collection"; "where"; "sort"; "limit"; "populate"; "id"] ->
      assoc key query1 = assoc key query2) ->
  fingerprint query1 = fingerprint query2.
Proof.
  intros H. unfold createQueryHash. rewrite !stableParams_of_query.
  rewrite !(H "type"), !(H "collection"), !(H "where"), !(H "sort"),
    !(H "limit"), !(H "populate"), !(H "id") by set_solver.
  reflexivity.
Qed.

Lemma fingerprint_drops_empty k v q :
  optional_field k -> empty_for k v -> k ∉ map fst q ->
  fingerprint ((k, v) :: q) = fingerprint q.
Proof.
  intros Hopt Hempty Hfresh. unfold createQueryHash.
  rewrite !stableParams_of_query.
  pose proof (assoc_fresh _ _ Hfresh) as Hq.
  unfold optional_field in Hopt.
  repeat (apply elem_of_cons in Hopt as [->|Hopt]);
    [| | | | | |apply elem_of_nil in Hopt; destruct Hopt];
    cbn [assoc String.eqb Ascii.eqb Bool.eqb]; rewrite ?Hq;
    destruct Hempty as [->|[->|[[Hk|Hk] ->]]]; try discriminate Hk;
    reflexivity.
Qed.

(** C5, as the code has it: the fingerprint does not depend on the order
    of the query object's own keys, nor on the presence of an optional
    field ([where], [sort], [limit], [page], [populate], [id]) whose value
    is [undefined] or [null] or, for [where] and [populate], an empty
    object. *)
Theorem fingerprint_of_same_query query1 query2 :
  same_query query1 query2 -> fingerprint query1 = fingerprint query2.
Proof.
  induction 1 as [q1 q2 Hnd Hperm|k v q Hopt Hempty Hfresh|q1 q2 _ IH
                 |q1 q2 q3 _ IH1 _ IH2].
  - apply fingerprint_reads. intros key _. apply assoc_permutation; assumption.
  - apply fingerprint_drops_empty; assumption.
  - symmetry. exact IH.
  - rewrite IH1. exact IH2.
Qed.

(** Two queries that differ in [page] only have the same fingerprint. *)
Lemma pages_share_fingerprint query page1 page2 :
  fingerprint (("page", page1) :: query) = fingerprint (("page", page2) :: query).
Proof.
  apply fingerprint_reads. intros key Hkey.
  repeat (apply elem_of_cons in Hkey as [->|Hkey]);
    [| | | | | | |apply elem_of_nil in Hkey; destruct Hkey]; reflexivity.
Qed.

(** What the fingerprint keeps of a query's parameters. *)
Definition stable_of (query : list (string * value)) : value :=
  VObj (stableParams (rest_params query)).

(** Two fingerprints that agree come from queries of the same type and
    collection whose kept fields agree, as long as the encoder writes no
    dot and does not give the two parameter objects the same encoding
    unless they are equal (an encoder that can be decoded never does). *)
Lemma fingerprint_determines query1 query2 type1 type2 coll1 coll2 :
  (encodedParams pack base64 JSON_stringify btoa (stable_of query1)
   = encodedParams pack base64 JSON_stringify btoa (stable_of query2) ->
   stable_of query1 = stable_of query2) ->
  dot_free (encodedParams pack base64 JSON_stringify btoa (stable_of query1))
  = true ->
  dot_free (encodedParams pack base64 JSON_stringify btoa (stable_of query2))
  = true ->
  assoc "type" query1 = VStr type1 -> assoc "type" query2 = VStr type2 ->
  dot_free type1 = true -> dot_free type2 = true ->
  assoc "collection" query1 = VStr coll1 ->
  assoc "collection" query2 = VStr coll2 ->
  fingerprint query1 = fingerprint query2 ->
  type1 = type2 /\ coll1 = coll2
  /\ kept_content "where" (assoc "where" query1)
     = kept_content "where" (assoc "where" query2)
  /\ kept "sort" (assoc "sort" query1) = kept "sort" (assoc "sort" query2)
  /\ kept "limit" (assoc "limit" query1) = kept "limit" (assoc "limit" query2)
  /\ kept_content "populate" (assoc "populate" query1)
     = kept_content "populate" (assoc "populate" query2)
  /\ kept "id" (assoc "id" query1) = kept "id" (assoc "id" query2).
Proof.
  intros Hinj Hdot1 Hdot2 Ht1 Ht2 Hd1 Hd2 Hc1 Hc2. unfold createQueryHash.
  fold (stable_of query1). fold (stable_of query2).
  rewrite Ht1, Ht2, Hc1, Hc2. cbn [toString]. intros Heq.
  change ("." ++ ?x) with (String "." x) in Heq.
  apply split_first_dot in Heq as [-> Heq]; [|assumption..].
  apply split_last_dot in Heq as [-> Heq]; [|assumption..].
  apply Hinj in Heq. unfold stable_of in Heq. injection Heq as Heq.
  rewrite !stableParams_of_query in Heq. revert Heq.
  unfold kept, kept_content.
  repeat match goal with
         | |- context [if ?b then _ else _] => destruct b
         end;
    cbn [app]; intros Heq; try discriminate Heq;
    repeat split; try reflexivity; congruence.
Qed.

(** C6, as the code has it: two queries that differ in type, in
    collection, or in what the fingerprint keeps of [where], [sort],
    [limit], [populate] or [id] have different fingerprints, for an
    encoder that writes no dot and tells their parameter objects apart.
    ([page] is not among the fields the fingerprint keeps.) *)
Theorem fingerprint_separates query1 query2 type1 type2 coll1 coll2 :
  (encodedParams pack base64 JSON_stringify btoa (stable_of query1)
   = encodedParams pack base64 JSON_stringify btoa (stable_of query2) ->
   stable_of query1 = stable_of query2) ->
  dot_free (encodedParams pack base64 JSON_stringify btoa (stable_of query1))
  = true ->
  dot_free (encodedParams pack base64 JSON_stringify btoa (stable_of query2))
  = true ->
  assoc "type" query1 = VStr type1 -> assoc "type" query2 = VStr type2 ->
  dot_free type1 = true -> dot_free type2 = true ->
  assoc "collection" query1 = VStr coll1 ->
  assoc "collection" query2 = VStr coll2 ->
  type1 <> type2 \/ coll1 <> coll2
  \/ kept_content "where" (assoc "where" query1)
     <> kept_content "where" (assoc "where" query2)
  \/ kept "sort" (assoc "sort" query1) <> kept "sort" (assoc "sort" query2)
  \/ kept "limit" (assoc "limit" query1) <> kept "limit" (assoc "limit" query2)
  \/ kept_content "populate" (assoc "populate" query1)
     <> kept_content "populate" (assoc "populate" query2)
  \/ kept "id" (assoc "id" query1) <> kept "id" (assoc "id" query2) ->
  fingerprint query1 <> fingerprint query2.
Proof.
  intros Hinj Hdot1 Hdot2 Ht1 Ht2 Hd1 Hd2 Hc1 Hc2 Hdiff Heq.
  destruct (fingerprint_determines _ _ _ _ _ _ Hinj Hdot1 Hdot2 Ht1 Ht2 Hd1
              Hd2 Hc1 Hc2 Heq) as (H1 & H2 & H3 & H4 & H5 & H6 & H7).
  destruct Hdiff as [H|[H|[H|[H|[H|[H|H]]]]]]; contradiction.
Qed.

End Encoders.

Definition tasks_by_status_then_priority : list (string * value) :=
  [("where", VObj [("status", VStr "active"); ("priority", VNum 5)]);
   ("type", VStr "find"); ("collection", VStr "tasks")].

Definition tasks_by_priority_then_status : list (string * value) :=
  [("where", VObj [("priority", VNum 5); ("status", VStr "active")]);
   ("type", VStr "find"); ("collection", VStr "tasks")].

Definition tasks_sorted_first : list (string * value) :=
  [("sort", VStr "-createdAt"); ("collection", VStr "tasks");
   ("where", VObj []); ("type", VStr "find")].

Definition tasks_sorted_last : list (string * value) :=
  [("type", VStr "find"); ("collection", VStr "tasks");
   ("sort", VStr "-createdAt")].

Lemma tasks_sorted_same_query : same_query tasks_sorted_first tasks_sorted_last.
Proof.
  eapply sq_trans.
  - apply (sq_reorder _ (("where", VObj []) :: tasks_sorted_last)).
    + simpl. repeat constructor; set_solver.
    + unfold tasks_sorted_first, tasks_sorted_last.
      eapply perm_trans; [apply perm_skip, perm_swap|].
      eapply perm_trans; [apply perm_swap|].
      apply perm_skip.
      eapply perm_trans; [apply perm_skip, perm_swap|].
      eapply perm_trans; [apply perm_swap|].
      apply perm_skip, perm_swap.
  - apply sq_empty.
    + unfold optional_field. set_solver.
    + right. right. split; [left|]; reflexivity.
    + simpl. set_solver.
Qed.

Lemma fingerprint_of_same_query_witness :
  createQueryHash render_pack render_base64 (fun _ _ => "") (fun s => s)
    tasks_sorted_first
  = createQueryHash render_pack render_base64 (fun _ _ => "") (fun s => s)
      tasks_sorted_last.
Proof.
  apply (fingerprint_of_same_query render_pack render_base64 (fun _ _ => "")
           (fun s => s) tasks_sorted_first tasks_sorted_last).
  exact tasks_sorted_same_query.
Defined.

(** Fingerprint determinism as the specification words it: fingerprints
    agree whenever two queries differ only in the order of object keys. *)
Definition key_order_invariance : Prop :=
  forall pack base64 JSON_stringify btoa query1 query2,
    same_up_to_key_order (VObj query1) (VObj query2) ->
    createQueryHash pack base64 JSON_stringify btoa query1
    = createQueryHash pack base64 JSON_stringify btoa query2.

(** It fails for keys inside [where]: the where-clause is handed to the
    encoder as the caller wrote it, and an encoder that writes the keys in
    the order it meets them tells the two queries apart. *)
Lemma nested_key_order_counterexample : ~ key_order_invariance.
Proof.
  intros H.
  specialize (H render_pack render_base64 (fun _ _ => "") (fun s => s)
                tasks_by_status_then_priority tasks_by_priority_then_status).
  assert (Hsame : same_up_to_key_order (VObj tasks_by_status_then_priority)
                    (VObj tasks_by_priority_then_status)).
  { apply ko_inside, ko_reorder, perm_swap. }
  specialize (H Hsame). vm_compute in H. discriminate H.
Qed.

(** The same two queries are told apart by every encoder that can be
    decoded. *)
Lemma nested_key_order_changes_fingerprint pack base64 JSON_stringify btoa :
  (forall v1 v2,
      encodedParams pack base64 JSON_stringify btoa v1
      = encodedParams pack base64 JSON_stringify btoa v2 -> v1 = v2) ->
  createQueryHash pack base64 JSON_stringify btoa tasks_by_status_then_priority
  <> createQueryHash pack base64 JSON_stringify btoa
       tasks_by_priority_then_status.
Proof.
  intros Hinj Heq. unfold createQueryHash in Heq.
  rewrite !stableParams_of_query in Heq. cbn in Heq.
  injection Heq as Heq. apply Hinj in Heq. discriminate Heq.
Qed.

Definition tasks_sorted_newest_first : list (string * value) :=
  [("type", VStr "find"); ("collection", VStr "tasks");
   ("sort", VStr "-createdAt"); ("limit", VNum 10)].

Definition tasks_sorted_by_name : list (string * value) :=
  [("type", VStr "find"); ("collection", VStr "tasks");
   ("sort", VStr "name"); ("limit", VNum 10)].

Lemma fingerprint_separates_witness :
  createQueryHash render_pack render_base64 (fun _ _ => "") (fun s => s)
    tasks_sorted_newest_first
  <> createQueryHash render_pack render_base64 (fun _ _ => "") (fun s => s)
       tasks_sorted_by_name.
Proof.
  apply (fingerprint_separates render_pack render_base64 (fun _ _ => "")
           (fun s => s) tasks_sorted_newest_first tasks_sorted_by_name
           "find" "find" "tasks" "tasks");
    try reflexivity.
  - intros H. vm_compute in H. discriminate H.
  - right. right. right. left. intros H. vm_compute in H. discriminate H.
Defined.

(** Separation with [page] counted among the parameters that tell
    fingerprints apart. *)
Definition page_separates : Prop :=
  forall pack base64 JSON_stringify btoa query (page1 page2 : Z),
    page1 <> page2 ->
    createQueryHash pack base64 JSON_stringify btoa
      (("page", VNum page1) :: query)
    <> createQueryHash pack base64 JSON_stringify btoa
         (("page", VNum page2) :: query).

(** It does not: page 1 and page 2 of the same query share a
    fingerprint, whatever the encoder. *)
Lemma page_counterexample : ~ page_separates.
Proof.
  intros H.
  apply (H render_pack render_base64 (fun _ _ => "") (fun s => s)
           tasks_sorted_newest_first 1 2); [discriminate|].
  apply pages_share_fingerprint.
Qed.

End QueryHashProofs.

(** ** Schema dependency extractor *)
Module SchemaDepsProofs.
Import JS QueryMatcher SchemaDeps.

(** The nesting depth of a value bounds the recursion of the walks. *)
Fixpoint size (v : value) : nat :=
  match v with
  | VArr items => S (list_sum (map size items))
  | VObj props => S (list_sum (map (fun p => size (snd p)) props))
  | _ => 0
  end.

Lemma size_assoc key props :
  (size (assoc key props) < size (VObj props))%nat.
Proof.
  simpl. induction props as [|[k v] rest IH]; simpl; [lia|].
  destruct (String.eqb k key); simpl in *; lia.
Qed.

Lemma size_prop k v props :
  In (k, v) props -> (size v < size (VObj props))%nat.
Proof.
  simpl. induction props as [|[k' v'] rest IH]; simpl; [tauto|].
  intros [H|H]; [inversion H; subst; lia|]. specialize (IH H). lia.
Qed.

Lemma size_item v items : In v items -> (size v < size (VArr items))%nat.
Proof.
  simpl. induction items as [|x rest IH]; simpl; [tauto|].
  intros [->|H]; [lia|]. specialize (IH H). lia.
Qed.

Lemma indexed_from_In {A} i (l : list A) k x :
  In (k, x) (indexed_from i l) -> In x l.
Proof.
  revert i. induction l as [|y rest IH]; simpl; intros i; [tauto|].
  intros [H|H]; [inversion H; auto|right; eauto].
Qed.

Lemma size_entry k v w :
  typeof_object w = true -> In (k, v) (entries w) -> (size v < size w)%nat.
Proof.
  destruct w; simpl; try discriminate; intros _ H.
  - tauto.
  - apply (size_item v items). eapply indexed_from_In. exact H.
  - apply (size_prop k v props H).
Qed.

Section Folds.
Context {A : Type} (f : gset string -> A -> gset string).

Lemma fold_left_grows (l : list A) :
  (forall d x, In x l -> d ⊆ f d x) -> forall d, d ⊆ fold_left f l d.
Proof.
  induction l as [|x rest IH]; simpl; intros Hf d; [reflexivity|].
  transitivity (f d x); [apply Hf; left; reflexivity|].
  apply IH. intros d' y Hy. apply Hf. right. exact Hy.
Qed.

Lemma fold_left_reaches (l : list A) x C :
  In x l -> (forall d, C ∈ f d x) ->
  (forall d y, In y l -> d ⊆ f d y) ->
  forall d, C ∈ fold_left f l d.
Proof.
  induction l as [|y rest IH]; simpl; intros Hin Hx Hf d; [tauto|].
  destruct Hin as [->|Hin].
  - eapply fold_left_grows; [|apply Hx].
    intros d' z Hz. apply Hf. right. exact Hz.
  - apply IH; auto.
Qed.
End Folds.

Lemma fold_left_ext {S B} (f g : S -> B -> S) l s :
  (forall s' x, f s' x = g s' x) -> fold_left f l s = fold_left g l s.
Proof.
  intros H. revert s. induction l as [|x rest IH]; intros s; [reflexivity|].
  simpl. rewrite H. apply IH.
Qed.

Lemma add_all_grows targets deps : deps ⊆ add_all targets deps.
Proof.
  unfold add_all. apply fold_left_grows. intros d x _. set_solver.
Qed.

Lemma add_all_adds targets deps C : In C targets -> C ∈ add_all targets deps.
Proof.
  intros H. unfold add_all.
  apply (fold_left_reaches _ targets C C H); intros; set_solver.
Qed.

(** *** The populate walk, one entry at a time *)

Definition populateNested (payloadConfig : SanitizedConfig) (inner : value)
    (deps : gset string) (targets : list string) : gset string :=
  fold_left
    (fun d targetCollection =>
       match findCollection payloadConfig targetCollection with
       | Some targetConfig =>
           extractPopulateDependencies payloadConfig inner targetConfig d
       | None => d
       end)
    targets deps.

Definition populateEntry (payloadConfig : SanitizedConfig)
    (collectionConfig : CollectionConfig) (deps : gset string)
    (e : string * value) : gset string :=
  let '(fieldName, config) := e in
  if populatable config then
    match findFieldInCollection fieldName (fields collectionConfig) with
    | Some field =>
        let targets := getRelationshipTargets field in
        let deps1 := add_all targets deps in
        match config with
        | VObj cprops =>
            if has_key "populate" cprops
            then populateNested payloadConfig (assoc "populate" cprops)
                   deps1 targets
            else deps1
        | _ => deps1
        end
    | None => deps
    end
  else deps.

Lemma fold_indexed_indexed {S A} (f : S -> string -> A -> S) i l s :
  fold_indexed f i l s = fold_left (fun s' '(k, x) => f s' k x) (indexed_from i l) s.
Proof.
  revert i s. induction l as [|x rest IH]; intros i s; [reflexivity|].
  simpl. apply IH.
Qed.

Lemma extractPopulateDependencies_entries payloadConfig populate cc deps :
  typeof_object populate = true ->
  extractPopulateDependencies payloadConfig populate cc deps
  = fold_left (populateEntry payloadConfig cc) (entries populate) deps.
Proof.
  assert (Hentry : forall d fieldName config,
             (if populatable config then
                match findFieldInCollection fieldName (fields cc) with
                | Some field =>
                    let targetCollections := getRelationshipTargets field in
                    let deps1 := add_all targetCollections d in
                    match config with
                    | VObj cprops =>
                        on_prop "populate" cprops deps1
                          (fun inner =>
                             fold_left
                               (fun d0 targetCollection =>
                                  match findCollection payloadConfig
                                          targetCollection with
                                  | Some targetConfig =>
                                      extractPopulateDependencies payloadConfig
                                        inner targetConfig d0
                                  | None => d0
                                  end)
                               targetCollections deps1)
                    | _ => deps1
                    end
                | None => d
                end
              else d)
             = populateEntry payloadConfig cc d (fieldName, config)).
  { intros d fieldName config. unfold populateEntry.
    destruct (populatable config); [|reflexivity].
    destruct (findFieldInCollection _ _); [|reflexivity].
    destruct config; try reflexivity. cbv zeta.
    rewrite QueryMatcherProofs.on_prop_assoc. reflexivity. }
  destruct populate; try discriminate; intros _.
  - reflexivity.
  - cbn [entries extractPopulateDependencies]. unfold indexed.
    rewrite fold_indexed_indexed. apply fold_left_ext.
    intros d [fieldName config]. apply Hentry.
  - cbn [entries extractPopulateDependencies]. apply fold_left_ext.
    intros d [fieldName config]. apply Hentry.
Qed.

Lemma extractPopulateDependencies_other payloadConfig populate cc deps :
  typeof_object populate = false ->
  extractPopulateDependencies payloadConfig populate cc deps = deps.
Proof. destruct populate; try discriminate; reflexivity. Qed.

Lemma populate_grows_bounded payloadConfig n :
  forall populate cc deps,
    (size populate < n)%nat ->
    deps ⊆ extractPopulateDependencies payloadConfig populate cc deps.
Proof.
  induction n as [|n IH]; intros populate cc deps Hsize; [lia|].
  destruct (typeof_object populate) eqn:Hobj.
  2:{ rewrite extractPopulateDependencies_other by assumption. reflexivity. }
  rewrite extractPopulateDependencies_entries by assumption.
  apply fold_left_grows. intros d [fieldName config] Hin.
  pose proof (size_entry _ _ _ Hobj Hin) as Hlt.
  unfold populateEntry. destruct (populatable config); [|reflexivity].
  destruct (findFieldInCollection _ _) as [field|]; [|reflexivity].
  cbv zeta. pose proof (add_all_grows (getRelationshipTargets field) d) as Hadd.
  destruct config; try exact Hadd.
  destruct (has_key "populate" props); [|exact Hadd].
  etransitivity; [exact Hadd|].
  unfold populateNested. apply fold_left_grows. intros d' target _.
  destruct (findCollection payloadConfig target); [|reflexivity].
  apply IH. pose proof (size_assoc "populate" props). lia.
Qed.

Lemma populate_grows payloadConfig populate cc deps :
  deps ⊆ extractPopulateDependencies payloadConfig populate cc deps.
Proof. eapply populate_grows_bounded. apply Nat.lt_succ_diag_r. Qed.

Lemma populateNested_grows payloadConfig inner deps targets :
  deps ⊆ populateNested payloadConfig inner deps targets.
Proof.
  unfold populateNested. apply fold_left_grows. intros d target _.
  destruct (findCollection payloadConfig target);
    [apply populate_grows|reflexivity].
Qed.

Lemma populateEntry_grows payloadConfig cc deps e :
  deps ⊆ populateEntry payloadConfig cc deps e.
Proof.
  destruct e as [fieldName config]. unfold populateEntry.
  destruct (populatable config); [|reflexivity].
  destruct (findFieldInCollection _ _) as [field|]; [|reflexivity].
  cbv zeta. pose proof (add_all_grows (getRelationshipTargets field) deps) as Hadd.
  destruct config; try exact Hadd.
  destruct (has_key "populate" props); [|exact Hadd].
  etransitivity; [exact Hadd|].
  unfold populateNested. apply fold_left_grows. intros d' target _.
  destruct (findCollection payloadConfig target); [|reflexivity].
  apply populate_grows.
Qed.

(** Every collection a populate description reaches is collected. *)
Lemma populates_collected payloadConfig cc populate C :
  populates payloadConfig cc populate C ->
  forall deps, C ∈ extractPopulateDependencies payloadConfig populate cc deps.
Proof.
  induction 1 as [cc populate fieldName config field C Hobj Hin Hpop Hfield HC
                 |cc populate fieldName cprops field target tc C Hobj Hin Hkey
                    Hfield Htarget Htc _ IH];
    intros deps; rewrite extractPopulateDependencies_entries by assumption.
  - apply (fold_left_reaches _ _ (fieldName, config) C Hin).
    + intros d. unfold populateEntry. rewrite Hpop, Hfield. cbv zeta.
      pose proof (add_all_adds _ d C HC) as Hadd.
      destruct config; try exact Hadd.
      destruct (has_key "populate" props); [|exact Hadd].
      apply (populateNested_grows _ _ _ _ C Hadd).
    + intros d y _. apply populateEntry_grows.
  - apply (fold_left_reaches _ _ (fieldName, VObj cprops) C Hin).
    + intros d. unfold populateEntry.
      replace (populatable (VObj cprops)) with true by reflexivity.
      rewrite Hfield, Hkey. cbv zeta. unfold populateNested.
      apply (fold_left_reaches _ _ target C Htarget).
      * intros d'. rewrite Htc. apply IH.
      * intros d' y _. destruct (findCollection payloadConfig y);
          [apply populate_grows|reflexivity].
    + intros d y _. apply populateEntry_grows.
Qed.

(** *** The where walk *)

Lemma whereEntry_grows cc deps fieldPath : deps ⊆ whereEntry cc deps fieldPath.
Proof.
  unfold whereEntry. destruct (_ || _); [reflexivity|].
  destruct (includes fieldPath ".");
    destruct (findFieldInCollection _ _); try reflexivity; apply add_all_grows.
Qed.

Lemma where_grows_bounded n :
  forall where_ cc deps,
    (size where_ < n)%nat -> deps ⊆ extractWhereDependencies where_ cc deps.
Proof.
  induction n as [|n IH]; intros where_ cc deps Hsize; [lia|].
  destruct where_; try reflexivity.
  - cbn [extractWhereDependencies]. apply fold_left_grows.
    intros d [fieldPath c] _. apply whereEntry_grows.
  - cbn [extractWhereDependencies]. rewrite !QueryMatcherProofs.on_prop_assoc.
    assert (Heach : forall key d,
               d ⊆ match assoc key props with
                   | VArr l =>
                       fold_left
                         (fun d0 condition =>
                            extractWhereDependencies condition cc d0) l d
                   | _ => d
                   end).
    { intros key d. pose proof (size_assoc key props) as Hk.
      destruct (assoc key props) eqn:E; try reflexivity.
      apply fold_left_grows. intros d0 condition Hin. apply IH.
      pose proof (size_item _ _ Hin). lia. }
    etransitivity; [|apply fold_left_grows; intros d [fieldPath c] _;
                     apply whereEntry_grows].
    destruct (has_key "and" props); destruct (has_key "or" props);
      try reflexivity; try apply Heach.
    etransitivity; [apply (Heach "and")|apply (Heach "or")].
Qed.

Lemma where_grows where_ cc deps :
  deps ⊆ extractWhereDependencies where_ cc deps.
Proof. eapply where_grows_bounded. apply Nat.lt_succ_diag_r. Qed.



(** The schema of the extractor's test suite. *)
Definition text_field (name : string) : Field :=
  mkField (Some name) "text" RelNone "" [] [].

Definition relationship_field (name target : string) : Field :=
  mkField (Some name) "relationship" (RelOne target) "" [] [].

Definition mockPayloadConfig : SanitizedConfig :=
  {| collections :=
       [ {| slug := "tasks";
            fields := [text_field "name";
                       relationship_field "assignee" "users";
                       relationship_field "project" "projects";
                       relationship_field "author" "users"] |};
         {| slug := "users";
            fields := [text_field "name"; text_field "email"] |};
         {| slug := "projects";
            fields := [text_field "name";
                       relationship_field "owner" "users"] |} ] |}.



(** The unknown-collection case of the test suite. *)
Example unknown_collection_singleton :
  extractQueryDependencies
    {| q_type := Find; q_collection := "unknown-collection";
       q_populate := VObj [("someField", VBool true)]; q_where := VUndef |}
    mockPayloadConfig
  = {["unknown-collection"]}.
Proof. reflexivity. Qed.

End SchemaDepsProofs.

(** ** Dependency index and session registry *)
Module SubscriptionsProofs.
Import JS SchemaDeps Subscriptions DependencyTracker SubscriptionManager.
Import SchemaDepsProofs.

(** *** When the two maps stay consistent *)

Lemma addReverse_lookup key (rev : gmap string (list string)) dep k coll :
  k ∈ default [] (addReverse key rev dep !! coll)
  <-> k ∈ default [] (rev !! coll) \/ (k = key /\ coll = dep).
Proof.
  unfold addReverse. destruct (rev !! dep) as [arr|] eqn:E.
  - case_bool_decide as Hin.
    + split; [auto|]. intros [H|[-> ->]]; [exact H|]. rewrite E. exact Hin.
    + destruct (decide (coll = dep)) as [->|Hne].
      * rewrite lookup_insert_eq, E. simpl. rewrite elem_of_app, list_elem_of_singleton.
        split; intros [H|H]; auto; destruct H; auto.
      * rewrite lookup_insert_ne by congruence. split; [auto|].
        intros [H|[_ H]]; [exact H|contradiction].
  - destruct (decide (coll = dep)) as [->|Hne].
    + rewrite lookup_insert_eq, E. simpl. rewrite list_elem_of_singleton.
      split; [auto|]. intros [H|[H _]]; [|exact H].
      apply elem_of_nil in H. destruct H.
    + rewrite lookup_insert_ne by congruence. split; [auto|].
      intros [H|[_ H]]; [exact H|contradiction].
Qed.

Lemma addReverse_fold key ds (rev : gmap string (list string)) k coll :
  k ∈ default [] (fold_left (addReverse key) ds rev !! coll)
  <-> k ∈ default [] (rev !! coll) \/ (k = key /\ coll ∈ ds).
Proof.
  revert rev. induction ds as [|dep rest IH]; intros rev; simpl.
  - split; [auto|]. intros [H|[_ H]]; [exact H|].
    apply elem_of_nil in H. destruct H.
  - rewrite IH, addReverse_lookup, elem_of_cons. tauto.
Qed.

Lemma elem_of_filter_ne key (arr : list string) k :
  k ∈ List.filter (fun qk => negb (String.eqb qk key)) arr
  <-> k ∈ arr /\ k <> key.
Proof.
  rewrite !list_elem_of_In, filter_In, negb_true_iff.
  destruct (String.eqb_spec k key); split; intros [H1 H2]; split;
    auto; congruence.
Qed.

Lemma removeReverse_lookup key (rev : gmap string (list string)) dep k coll :
  k ∈ default [] (removeReverse key rev dep !! coll)
  <-> k ∈ default [] (rev !! coll) /\ ~ (k = key /\ coll = dep).
Proof.
  unfold removeReverse. destruct (rev !! dep) as [arr|] eqn:E.
  - pose proof (elem_of_filter_ne key arr k) as Hf.
    destruct (decide (coll = dep)) as [->|Hne].
    + rewrite E. simpl.
      destruct (List.filter _ arr) as [|x arr'] eqn:Ef.
      * rewrite lookup_delete_eq. simpl. split.
        -- intros H. apply elem_of_nil in H. destruct H.
        -- intros [Hin Hnot]. apply Hf. split; [exact Hin|]. intros ->. auto.
      * rewrite lookup_insert_eq. simpl. rewrite Hf. split.
        -- intros [Hin Hk]. split; [exact Hin|]. intros [Hk' _]. contradiction.
        -- intros [Hin Hnot]. split; [exact Hin|]. intros ->. auto.
    + destruct (List.filter _ arr).
      * rewrite lookup_delete_ne by congruence. split; [|tauto].
        intros H. split; [exact H|]. intros [_ Hc]. contradiction.
      * rewrite lookup_insert_ne by congruence. split; [|tauto].
        intros H. split; [exact H|]. intros [_ Hc]. contradiction.
  - split; [|tauto]. intros H. split; [exact H|]. intros [-> ->].
    rewrite E in H. apply elem_of_nil in H. destruct H.
Qed.

Lemma removeReverse_fold key ds (rev : gmap string (list string)) k coll :
  k ∈ default [] (fold_left (removeReverse key) ds rev !! coll)
  <-> k ∈ default [] (rev !! coll) /\ ~ (k = key /\ coll ∈ ds).
Proof.
  revert rev. induction ds as [|dep rest IH]; intros rev; simpl.
  - split; [|tauto]. intros H. split; [exact H|]. intros [_ Hc].
    apply elem_of_nil in Hc. destruct Hc.
  - rewrite IH, removeReverse_lookup, elem_of_cons. tauto.
Qed.

Lemma consistent_initial : consistent initial.
Proof.
  intros key coll. simpl. rewrite lookup_empty. simpl. split.
  - intros H. apply elem_of_nil in H. destruct H.
  - intros [d [H _]]. rewrite lookup_empty in H. discriminate H.
Qed.

(** Storing an entry and its reverse entries keeps the maps consistent
    when the key is new, or when every dependency of the entry it replaces
    is a dependency of the new one. *)
Lemma register_consistent c key d :
  consistent c ->
  (forall old coll,
      deps c !! key = Some old -> coll ∈ dependencies old ->
      coll ∈ dependencies d) ->
  consistent (addReverseDependencies (addDependencies c key d) key
                (dependencies d)).
Proof.
  intros Hc Hold k coll. simpl. rewrite addReverse_fold, (Hc k coll).
  destruct (decide (k = key)) as [->|Hne].
  - rewrite lookup_insert_eq. split.
    + intros [[old [Hl Hin]]|[_ Hin]]; exists d; split; eauto.
    + intros [d' [Heq Hin]]. inversion Heq; subst. right. auto.
  - rewrite lookup_insert_ne by congruence. split.
    + intros [H|[Hk _]]; [exact H|contradiction].
    + auto.
Qed.

Lemma removeDependencies_consistent c key :
  consistent c -> consistent (removeDependencies c key).
Proof.
  intros Hc k coll. unfold removeDependencies.
  destruct (deps c !! key) as [d|] eqn:E; [|apply Hc].
  simpl. rewrite removeReverse_fold, (Hc k coll).
  destruct (decide (k = key)) as [->|Hne].
  - rewrite lookup_delete_eq, E. split.
    + intros [[d' [Heq Hin]] Hnot]. inversion Heq; subst. exfalso. auto.
    + intros [d' [Heq _]]. discriminate Heq.
  - rewrite lookup_delete_ne by congruence. split; [tauto|].
    intros H. split; [exact H|]. intros [Hk _]. contradiction.
Qed.

(** *** Re-registration with a changed dependency set *)

Definition membersPayloadConfig : SanitizedConfig :=
  {| collections :=
       [ {| slug := "tasks";
            fields := [text_field "name";
                       relationship_field "assignee" "members"] |};
         {| slug := "members"; fields := [text_field "name"] |} ] |}.

Definition assignee_populate : value := VObj [("assignee", VBool true)].

(** The query registered under the first schema, then again after the
    target of [assignee] has changed from [users] to [members]. *)
Definition registered_once : State :=
  registerQueryDependencies mockPayloadConfig initial "find.tasks.k" "tasks"
    assignee_populate VUndef.

Definition registered_twice : State :=
  registerQueryDependencies membersPayloadConfig registered_once "find.tasks.k"
    "tasks" assignee_populate VUndef.

Lemma registered_twice_state :
  (exists d,
      deps registered_twice !! "find.tasks.k" = Some d
      /\ "members" ∈ dependencies d /\ "users" ∉ dependencies d)
  /\ getQueriesDependingOn registered_twice "users" = ["find.tasks.k"]
  /\ deps (unregisterQueryDependencies registered_twice "find.tasks.k")
     !! "find.tasks.k" = None
  /\ getQueriesDependingOn
       (unregisterQueryDependencies registered_twice "find.tasks.k") "users"
     = ["find.tasks.k"].
Proof.
  split.
  - eexists. split; [vm_compute; reflexivity|].
    split; apply (bool_decide_unpack _); vm_compute; exact I.
  - vm_compute. repeat split; reflexivity.
Qed.

Lemma registered_twice_inconsistent : ~ consistent registered_twice.
Proof.
  intros H. specialize (H "find.tasks.k" "users").
  destruct registered_twice_state as ((d & Hd & _ & Hnot) & Hr & _).
  change (default [] (reverseDependencies registered_twice !! "users")
          = ["find.tasks.k"]) in Hr.
  rewrite Hr in H. destruct H as [H _].
  destruct H as [d' [Hl Hin]]; [left|].
  rewrite Hl in Hd. injection Hd as ->. contradiction.
Qed.

(** C3 at its failing input: after the second registration the forward
    entry no longer lists [users], yet the reverse index still lists the
    query under [users], so the two maps are inconsistent; unregistering
    the query afterwards does not remove the stale entry either. *)
Theorem reregistration_leaves_stale_reverse_entry :
  consistent registered_once
  /\ (exists d,
         deps registered_twice !! "find.tasks.k" = Some d
         /\ "members" ∈ dependencies d /\ "users" ∉ dependencies d)
  /\ getQueriesDependingOn registered_twice "users" = ["find.tasks.k"]
  /\ ~ consistent registered_twice
  /\ deps (unregisterQueryDependencies registered_twice "find.tasks.k")
     !! "find.tasks.k" = None
  /\ getQueriesDependingOn
       (unregisterQueryDependencies registered_twice "find.tasks.k") "users"
     = ["find.tasks.k"].
Proof.
  destruct registered_twice_state as (H1 & H2 & H3 & H4).
  split; [|split; [exact H1|split; [exact H2|split;
    [exact registered_twice_inconsistent|split; [exact H3|exact H4]]]]].
  apply register_consistent; [apply consistent_initial|].
  intros old coll Hold. vm_compute in Hold. discriminate Hold.
Qed.

(** *** Removing a session *)

Definition assignee_params : value := VObj [("populate", assignee_populate)].

Definition one_session : State :=
  registerSession mockPayloadConfig 0 initial "client-1" "find.tasks.k"
    "tasks" Find assignee_params.

(** Closing the channel deletes the session and never touches the
    dependency index. *)
Lemma onAbort_keeps_index c clients id :
  deps (fst (onAbort c clients id)) = deps c
  /\ reverseDependencies (fst (onAbort c clients id)) = reverseDependencies c.
Proof. unfold onAbort. case_bool_decide; split; reflexivity. Qed.

(** [removeSession] throws as soon as the session owns a query. *)
Lemma removeSession_throws c id session :
  getSession c id = Some session -> queries session <> [] ->
  removeSession c id = Thrown "TypeError: query is not iterable".
Proof.
  intros Hs Hq. unfold removeSession. rewrite Hs.
  destruct (queries session); [congruence|reflexivity].
Qed.

(** C2 at its failing input: client-1 owns one query whose dependencies
    are registered.  When its channel closes the session is deleted but
    the dependency entry and both reverse entries stay; [removeSession]
    throws before it removes anything. *)
Theorem session_removal_leaves_dependencies :
  owned one_session "client-1" = ["find.tasks.k"]
  /\ (let after := fst (onAbort one_session {["client-1"]} "client-1") in
      getSession after "client-1" = None
      /\ is_Some (deps after !! "find.tasks.k")
      /\ getQueriesDependingOn after "users" = ["find.tasks.k"]
      /\ getQueriesDependingOn after "tasks" = ["find.tasks.k"])
  /\ removeSession one_session "client-1"
     = Thrown "TypeError: query is not iterable".
Proof.
  split; [vm_compute; reflexivity|]. split; [|vm_compute; reflexivity].
  cbv zeta. split; [vm_compute; reflexivity|].
  split; [|vm_compute; split; reflexivity].
  destruct (onAbort_keeps_index one_session {["client-1"]} "client-1")
    as [-> _].
  eexists. vm_compute. reflexivity.
Qed.

End SubscriptionsProofs.

(** ** Fan-out orchestrator *)
Module SmartPublisherProofs.
Import JS SmartPublisher.

Section Publishers.
Variable World : Type.
Variable publishIncrementalUpdates : PublishArgs -> Async World unit.
Variable publishCountUpdates : PublishArgs -> Async World unit.
Variable publishSmartCrossCollectionUpdates :
  value -> PublishArgs -> Async World unit.
Variable console_error : string -> value -> World -> World.
Variable console_log : string -> World -> World.

Local Abbreviation publishChanges :=
  (publishChanges World publishIncrementalUpdates publishCountUpdates
     publishSmartCrossCollectionUpdates console_error console_log).
Local Abbreviation afterOperation :=
  (afterOperation World publishIncrementalUpdates publishCountUpdates
     publishSmartCrossCollectionUpdates console_error console_log).
Local Abbreviation after_publishers :=
  (after_publishers World publishIncrementalUpdates publishCountUpdates
     publishSmartCrossCollectionUpdates).
Local Abbreviation console_only :=
  (console_only World console_error console_log).
Local Abbreviation log_failures :=
  (log_failures World console_error).

Lemma console_only_trans w1 w2 w3 :
  console_only w1 w2 -> console_only w2 w3 -> console_only w1 w3.
Proof.
  intros H12 H23. induction H23; [exact H12| |]; constructor; auto.
Qed.

Lemma log_failures_settles names results w :
  fst (log_failures names results w) = Fulfilled tt
  /\ console_only w (snd (log_failures names results w)).
Proof.
  revert names w. induction results as [|r rest IH]; intros names w.
  - destruct names; simpl; split; try reflexivity; constructor.
  - destruct r as [[]|reason], names as [|name names']; simpl;
      try (split; [reflexivity|constructor]).
    + apply IH.
    + unfold bind, log_error.
      destruct (IH names' (console_error name reason w)) as [Hf Hc].
      split; [exact Hf|].
      eapply console_only_trans; [|exact Hc]. repeat constructor.
Qed.

Definition docId_of (a : PublishArgs) : value :=
  if truthy (doc a) && truthy (get (doc a) "id")
  then get (doc a) "id" else VStr "unknown".

(** [publishChanges] always fulfils, whatever the three publishers settle
    to, and each of the three has run: apart from console output, the
    world is the one the three publishers leave behind. *)
Lemma publishChanges_settles a w :
  fst (publishChanges a w) = Fulfilled tt
  /\ console_only (after_publishers (docId_of a) a (console_log "Publishing" w))
       (snd (publishChanges a w)).
Proof.
  unfold SmartPublisher.publishChanges, SmartPublisher.after_publishers,
    bind, try_catch, start, allSettled, ret, log. fold (docId_of a).
  destruct (publishIncrementalUpdates a _) as [r1 w1]. cbn [fst snd].
  destruct (publishCountUpdates a w1) as [r2 w2]. cbn [fst snd].
  destruct (publishSmartCrossCollectionUpdates (docId_of a) a w2) as [r3 w3].
  cbn [fst snd].
  destruct (log_failures_settles publisherNames [r1; r2; r3] w3) as [Hf Hc].
  destruct (log_failures publisherNames [r1; r2; r3] w3) as [r w4].
  cbn [fst snd] in *. subst r. cbn [fst snd]. split; [reflexivity|].
  constructor. exact Hc.
Qed.

(** C8: the hook returns the operation's result whatever the publishers
    do; the fan-out it starts is detached, not awaited; run from any
    world, each detached task fulfils (no rejection of a publisher reaches
    the caller) and all three publishers have run, whichever of them
    rejected. *)
Theorem fan_out_never_fails_the_mutation slug result operation originalDoc :
  returned World (afterOperation slug result operation originalDoc) = result
  /\ forall task,
      In task (detached World (afterOperation slug result operation originalDoc)) ->
      exists a,
        doc a = result
        /\ forall w,
            fst (task w) = Fulfilled tt
            /\ console_only
                 (after_publishers (docId_of a) a (console_log "Publishing" w))
                 (snd (task w)).
Proof.
  unfold SmartPublisher.afterOperation.
  destruct (negb _); [split; [reflexivity|intros ? []]|].
  destruct (if String.eqb operation "create" then _ else _) as [op|];
    [|split; [reflexivity|intros ? []]].
  split; [reflexivity|]. intros task [<-|[]].
  exists {| collection := slug; operation := op; doc := result;
            originalDoc := originalDoc |}.
  split; [reflexivity|]. intros w. unfold try_catch.
  match goal with
  | |- context [SmartPublisher.publishChanges _ _ _ _ _ _ ?a w] =>
      destruct (publishChanges_settles a w) as [Hf Hc];
      destruct (publishChanges a w) as [r w']
  end.
  cbn [fst snd] in *. subst r. split; [reflexivity|exact Hc].
Qed.

(** A mutation does start the fan-out. *)
Lemma mutation_starts_fan_out slug result originalDoc :
  List.length (detached World (afterOperation slug result "update" originalDoc))
  = 1%nat.
Proof. reflexivity. Qed.

End Publishers.

(** With [Promise.all] in place of [Promise.allSettled] the aggregate
    would reject with the first rejection. *)
Example all_is_fail_fast :
  fst (all (World := unit) [Fulfilled tt; Rejected (VStr "count failed")] tt)
  = Rejected (VStr "count failed").
Proof. reflexivity. Qed.

(** A world that records which publishers ran, with a count publisher
    that rejects. *)
Definition recording (name : string) (ok : bool) : Async (list string) unit :=
  fun w => (if ok then Fulfilled tt else Rejected (VStr name),
            (w ++ [name])%list).

Lemma fan_out_never_fails_the_mutation_witness :
  Forall (fun task => fst (task []) = Fulfilled tt)
    (detached (list string)
       (afterOperation (list string)
          (fun _ => recording "incremental" true)
          (fun _ => recording "count" false)
          (fun _ _ => recording "cross" true)
          (fun name _ w => (w ++ [String.append "error:" name])%list)
          (fun _ w => w)
          "tasks" (VObj [("id", VStr "t1")]) "update" VUndef)).
Proof.
  apply Forall_forall. intros task Hin.
  destruct (fan_out_never_fails_the_mutation (list string)
              (fun _ => recording "incremental" true)
              (fun _ => recording "count" false)
              (fun _ _ => recording "cross" true)
              (fun name _ w => (w ++ [String.append "error:" name])%list)
              (fun _ w => w)
              "tasks" (VObj [("id", VStr "t1")]) "update" VUndef)
    as [_ Htasks].
  destruct (Htasks task) as [a [_ Hrun]].
  - apply list_elem_of_In. exact Hin.
  - apply Hrun.
Defined.

Example rejecting_publisher_does_not_stop_the_others :
  publishChanges (list string)
    (fun _ => recording "incremental" true)
    (fun _ => recording "count" false)
    (fun _ _ => recording "cross" true)
    (fun name _ w => (w ++ [String.append "error:" name])%list)
    (fun _ w => w)
    {| collection := "tasks"; operation := Update;
       doc := VObj [("id", VStr "t1")]; originalDoc := VUndef |} []
  = (Fulfilled tt, ["incremental"; "count"; "cross"; "error:COUNT"]).
Proof. reflexivity. Qed.

End SmartPublisherProofs.

(** ** Client view store *)
Module ViewStoreProofs.
Import JS ViewStore.

Section Fingerprint.
Variable createQueryHash : list (string * value) -> string.

Local Abbreviation getView := (getView createQueryHash).
Local Abbreviation step := (step createQueryHash).
Local Abbreviation run := (run createQueryHash).
Local Abbreviation quiet_since := (quiet_since createQueryHash).
Local Abbreviation asks_for := (asks_for createQueryHash).

(** *** Invariants of the store *)

Record wf (s : Store) : Prop := {
  wf_fresh : forall id v, heap s !! id = Some v -> (id < next s)%nat;
  wf_timer : forall id v,
      heap s !! id = Some v -> is_Some (v_cleanupTimer v) ->
      v_subscribers v = ∅;
  wf_views : forall hash id,
      views s !! hash = Some id ->
      exists v, heap s !! id = Some v /\ v_key v = Some hash
                /\ v_isDestroyed v = false;
  wf_alive : forall id v hash,
      heap s !! id = Some v -> v_isDestroyed v = false ->
      v_key v = Some hash -> views s !! hash = Some id;
  wf_pending : forall id, id ∈ pending s -> is_Some (heap s !! id);
}.

Lemma wf_empty : wf empty_store.
Proof.
  split; simpl; intros *; try (rewrite lookup_empty; discriminate).
Qed.

Ltac heap_cases a b :=
  let Heq := fresh "Heq" in
  destruct (decide (a = b)) as [Heq|?];
  [first [subst b|subst a|rewrite Heq in *]; rewrite ?lookup_insert_eq in *
  |rewrite ?lookup_insert_ne in * by congruence].

Ltac pending_case Hpend :=
  let Hin := fresh "Hin" in
  intros ? Hin; rewrite ?lookup_insert_is_Some';
  first [ apply Hpend; exact Hin
        | right; apply Hpend; exact Hin
        | apply elem_of_union in Hin as [Hin|Hin];
          [left; apply elem_of_singleton in Hin; congruence
          |right; apply Hpend; exact Hin] ].

Lemma wf_getView query enabled ttl s : wf s -> wf (snd (getView query enabled ttl s)).
Proof.
  intros [Hfresh Htimer Hviews Halive Hpend].
  assert (Hnext : heap s !! next s = None).
  { destruct (heap s !! next s) eqn:E; [|reflexivity].
    apply Hfresh in E. lia. }
  unfold ViewStore.getView. destruct enabled; simpl.
  - destruct (views s !! createQueryHash query) as [id0|] eqn:Ev.
    + destruct (Hviews _ _ Ev) as [v0 [Hv0 [Hk0 Hd0]]]. rewrite Hv0. simpl.
      split; simpl.
      * intros id v. heap_cases id0 id; [intros _|]; eauto.
      * intros id v. heap_cases id0 id; [intros [= <-]; simpl|]; eauto.
      * intros hash id Hl. destruct (Hviews _ _ Hl) as [v [Hv [Hk Hd]]].
        heap_cases id0 id; [|eauto].
        exists (updateTTL ttl v0). rewrite Hv0 in Hv. inversion Hv; subst. auto.
      * intros id v hash. heap_cases id0 id; [intros [= <-]; simpl|]; eauto.
      * pending_case Hpend.
    + split; simpl.
      * intros id v. heap_cases (next s) id; [lia|]. intros H.
        apply Hfresh in H. lia.
      * intros id v. heap_cases (next s) id; [|eauto].
        intros [= <-] [x Hx]. discriminate Hx.
      * intros hash id.
        destruct (decide (createQueryHash query = hash)) as [<-|Hne].
        -- rewrite lookup_insert_eq. intros [= <-]. rewrite lookup_insert_eq.
           eexists. split; [reflexivity|]. auto.
        -- rewrite lookup_insert_ne by congruence. intros Hl.
           destruct (Hviews _ _ Hl) as [v [Hv [Hk Hd]]].
           heap_cases (next s) id; [congruence|]. eauto.
      * intros id v hash. heap_cases (next s) id.
        -- intros [= <-]. simpl. intros _ [= <-]. apply lookup_insert_eq.
        -- intros Hv Hd Hk.
           destruct (decide (createQueryHash query = hash)) as [<-|Hne].
           ++ rewrite (Halive _ _ _ Hv Hd Hk) in Ev. discriminate Ev.
           ++ rewrite lookup_insert_ne by congruence. eauto.
      * pending_case Hpend.
  - split; simpl.
    + intros id v. heap_cases (next s) id; [lia|]. intros H.
      apply Hfresh in H. lia.
    + intros id v. heap_cases (next s) id; [|eauto].
      intros [= <-] [x Hx]. discriminate Hx.
    + intros hash id Hl. destruct (Hviews _ _ Hl) as [v [Hv [Hk Hd]]].
      heap_cases (next s) id; [congruence|]. eauto.
    + intros id v hash. heap_cases (next s) id; [|eauto].
      intros [= <-]. simpl. discriminate.
    + pending_case Hpend.
Qed.

Lemma wf_subscribe id callback s : wf s -> wf (subscribe id callback s).
Proof.
  intros [Hfresh Htimer Hviews Halive Hpend]. unfold subscribe.
  destruct (heap s !! id) as [v|] eqn:Hv; [|split; assumption].
  destruct (v_isDestroyed v) eqn:Hd; [split; assumption|].
  split; simpl.
  - intros id1 v1. heap_cases id id1; [intros _|]; eauto.
  - intros id1 v1. heap_cases id id1; [|eauto].
    intros [= <-] [x Hx]. discriminate Hx.
  - intros hash id1 Hl. destruct (Hviews _ _ Hl) as [v1 [Hv1 [Hk1 Hd1]]].
    heap_cases id id1; [|eauto].
    rewrite Hv in Hv1. inversion Hv1; subst. eexists. split; [reflexivity|].
    auto.
  - intros id1 v1 hash. heap_cases id id1; [|eauto].
    intros [= <-]. simpl. eauto.
  - pending_case Hpend.
Qed.

Lemma wf_unsubscribe id callback s : wf s -> wf (unsubscribe id callback s).
Proof.
  intros [Hfresh Htimer Hviews Halive Hpend]. unfold unsubscribe.
  destruct (heap s !! id) as [v|] eqn:Hv; [|split; assumption].
  assert (Hsched :
            let v' :=
              scheduleCleanupIfNeeded (now s)
                {| v_query := v_query v; v_key := v_key v; v_ttl := v_ttl v;
                   v_subscribers := v_subscribers v ∖ {[callback]};
                   v_cleanupTimer := v_cleanupTimer v;
                   v_isDestroyed := v_isDestroyed v;
                   v_serverSubscriptionActive := v_serverSubscriptionActive v |} in
            v_key v' = v_key v /\ v_isDestroyed v' = v_isDestroyed v
            /\ (is_Some (v_cleanupTimer v') -> v_subscribers v' = ∅)).
  { unfold scheduleCleanupIfNeeded. simpl.
    case_bool_decide as Hempty; simpl.
    - case_bool_decide as Hsome; simpl; repeat split; auto.
    - repeat split. intros Hsome. rewrite (Htimer _ _ Hv Hsome). set_solver. }
  cbv zeta in Hsched. destruct Hsched as (Hk & Hd & Ht).
  split; simpl.
  - intros id1 v1. heap_cases id id1; [intros _|]; eauto.
  - intros id1 v1. heap_cases id id1; [|eauto]. intros [= <-]. exact Ht.
  - intros hash id1 Hl. destruct (Hviews _ _ Hl) as [v1 [Hv1 [Hk1 Hd1]]].
    heap_cases id id1; [|eauto].
    rewrite Hv in Hv1. inversion Hv1; subst. eexists. split; [reflexivity|].
    rewrite Hk, Hd. auto.
  - intros id1 v1 hash. heap_cases id id1; [|eauto].
    intros [= <-]. rewrite Hk, Hd. eauto.
  - pending_case Hpend.
Qed.

Lemma wf_destroy id s : wf s -> wf (destroy id s).
Proof.
  intros [Hfresh Htimer Hviews Halive Hpend]. unfold destroy.
  destruct (heap s !! id) as [v|] eqn:Hv; [|split; assumption].
  destruct (v_isDestroyed v) eqn:Hd; [split; assumption|].
  destruct (v_key v) as [hash|] eqn:Hk.
  2:{ split; simpl.
      - intros id1 v1. heap_cases id id1; [intros _|]; eauto.
      - intros id1 v1. heap_cases id id1; [|eauto].
        intros [= <-] [x Hx]. discriminate Hx.
      - intros hash id1 Hl. destruct (Hviews _ _ Hl) as [v1 [Hv1 [Hk1 Hd1]]].
        heap_cases id id1; [congruence|eauto].
      - intros id1 v1 hash. heap_cases id id1; [|eauto].
        intros [= <-]. simpl. discriminate.
      - pending_case Hpend. }
  unfold onViewDematerialized. cbn [views set_view].
  rewrite (Halive _ _ _ Hv Hd Hk).
  split; simpl.
  - intros id1 v1. heap_cases id id1; [intros _|]; eauto.
  - intros id1 v1. heap_cases id id1; [|eauto].
    intros [= <-] [x Hx]. discriminate Hx.
  - intros hash1 id1.
    destruct (decide (hash = hash1)) as [<-|Hne];
      [rewrite lookup_delete_eq; discriminate|].
    rewrite lookup_delete_ne by congruence. intros Hl.
    destruct (Hviews _ _ Hl) as [v1 [Hv1 [Hk1 Hd1]]].
    heap_cases id id1; [congruence|eauto].
  - intros id1 v1 hash1. heap_cases id id1.
    + intros [= <-]. simpl. discriminate.
    + intros Hv1 Hd1 Hk1.
      destruct (decide (hash = hash1)) as [<-|Hne].
      * pose proof (Halive _ _ _ Hv Hd Hk) as H1.
        pose proof (Halive _ _ _ Hv1 Hd1 Hk1) as H2. congruence.
      * rewrite lookup_delete_ne by congruence. eauto.
  - pending_case Hpend.
Qed.

Lemma wf_resumed id r s : wf s -> wf (onViewMaterialized_resumed id r s).
Proof.
  intros [Hfresh Htimer Hviews Halive Hpend]. unfold onViewMaterialized_resumed.
  case_bool_decide as Hin; [|split; assumption].
  split; cbn [heap next views pending]; try assumption.
  intros id1 Hin1. apply Hpend. set_solver.
Qed.

Lemma wf_step s e : wf s -> wf (step s e).
Proof.
  intros Hwf. destruct e; simpl.
  - apply wf_getView. exact Hwf.
  - apply wf_subscribe. exact Hwf.
  - apply wf_unsubscribe. exact Hwf.
  - unfold timerFires. destruct (heap s !! id); [|exact Hwf].
    destruct (v_cleanupTimer v); [|exact Hwf].
    repeat case_bool_decide; try exact Hwf. apply wf_destroy. exact Hwf.
  - apply wf_resumed. exact Hwf.
  - destruct Hwf. split; assumption.
Qed.

Lemma run_snoc s events e : run s (events ++ [e])%list = step (run s events) e.
Proof. unfold ViewStore.run. rewrite fold_left_app. reflexivity. Qed.

Lemma run_app s events1 events2 :
  run s (events1 ++ events2)%list = run (run s events1) events2.
Proof. unfold ViewStore.run. apply fold_left_app. Qed.

Lemma wf_run events : wf (run empty_store events).
Proof.
  induction events as [|e events IH] using rev_ind; [apply wf_empty|].
  rewrite run_snoc. apply wf_step. exact IH.
Qed.

(** *** Where a pending timer and a teardown come from *)

Lemma timer_origin s e id due :
  wf s ->
  timer_of (step s e) id = Some due ->
  timer_of s id = Some due
  \/ (exists callback,
         e = Unsubscribe id callback
         /\ due = (now s + ttl_of (step s e) id)%nat
         /\ now (step s e) = now s
         /\ subscribers (step s e) id = ∅).
Proof.
  intros [Hfresh Htimer Hviews Halive Hpend]. unfold timer_of, ttl_of, subscribers.
  assert (Hnext : heap s !! next s = None).
  { destruct (heap s !! next s) eqn:E; [|reflexivity].
    apply Hfresh in E. lia. }
  destruct e as [query enabled ttl|id1 callback|id1 callback|id1|id1 r|dt]; simpl.
  - unfold ViewStore.getView. destruct enabled; simpl.
    + destruct (views s !! createQueryHash query) as [id0|] eqn:Ev; simpl.
      * destruct (heap s !! id0) as [v0|] eqn:Hv0; simpl; [|auto].
        heap_cases id0 id; [|auto]. simpl. rewrite Hv0. auto.
      * heap_cases (next s) id; [discriminate|auto].
    + heap_cases (next s) id; [discriminate|auto].
  - unfold subscribe. destruct (heap s !! id1) as [v|] eqn:Hv; [|auto].
    destruct (v_isDestroyed v); [auto|]. simpl.
    heap_cases id1 id; [discriminate|auto].
  - unfold unsubscribe. destruct (heap s !! id1) as [v|] eqn:Hv; [|auto].
    simpl. heap_cases id1 id; [|auto].
    unfold scheduleCleanupIfNeeded. simpl.
    case_bool_decide as Hempty; simpl; [|rewrite Hv; auto].
    case_bool_decide as Hsome; simpl; [rewrite Hv; auto|].
    intros [= <-]. right. exists callback. auto.
  - unfold timerFires. destruct (heap s !! id1) as [v|] eqn:Hv; [|auto].
    destruct (v_cleanupTimer v) as [d|] eqn:Ht; [|auto].
    repeat case_bool_decide; auto.
    unfold destroy. rewrite Hv. destruct (v_isDestroyed v); [auto|].
    assert (Hheap : forall s1 hash, heap (onViewDematerialized hash s1) = heap s1).
    { intros s1 hash. unfold onViewDematerialized.
      destruct (views s1 !! hash); reflexivity. }
    destruct (v_key v); rewrite ?Hheap; simpl;
      (heap_cases id1 id; [discriminate|auto]).
  - unfold onViewMaterialized_resumed. case_bool_decide; auto.
  - auto.
Qed.

Lemma destroy_origin s e id :
  wf s -> alive s id -> destroyed (step s e) id ->
  e = TimerFires id
  /\ exists due, timer_of s id = Some due /\ (due ≤ now s)%nat
                 /\ subscribers s id = ∅.
Proof.
  intros [Hfresh Htimer Hviews Halive Hpend] [v [Hv Hd]] [v' [Hv' Hd']].
  unfold timer_of, subscribers. rewrite Hv.
  assert (Hnext : heap s !! next s = None).
  { destruct (heap s !! next s) eqn:E; [|reflexivity].
    apply Hfresh in E. lia. }
  destruct e as [query enabled ttl|id1 callback|id1 callback|id1|id1 r|dt];
    simpl in Hv'.
  - exfalso. revert Hv'. unfold ViewStore.getView. destruct enabled; simpl.
    + destruct (views s !! createQueryHash query) as [id0|] eqn:Ev; simpl.
      * destruct (heap s !! id0) as [v0|] eqn:Hv0; simpl; [|congruence].
        heap_cases id0 id; [|congruence]. intros [= <-]. simpl in Hd'.
        congruence.
      * heap_cases (next s) id; congruence.
    + heap_cases (next s) id; congruence.
  - exfalso. revert Hv'. unfold subscribe.
    destruct (heap s !! id1) as [v1|] eqn:Hv1; [|congruence].
    destruct (v_isDestroyed v1) eqn:Hd1; [congruence|]. simpl.
    heap_cases id1 id; [|congruence]. intros [= <-]. simpl in Hd'. congruence.
  - exfalso. revert Hv'. unfold unsubscribe.
    destruct (heap s !! id1) as [v1|] eqn:Hv1; [|congruence]. simpl.
    heap_cases id1 id; [|congruence]. intros [= <-].
    unfold scheduleCleanupIfNeeded in Hd'. simpl in Hd'.
    destruct (_ && _); simpl in Hd'; congruence.
  - revert Hv'. unfold timerFires.
    destruct (heap s !! id1) as [v1|] eqn:Hv1; [|congruence].
    destruct (v_cleanupTimer v1) as [d|] eqn:Ht; [|congruence].
    case_bool_decide as Hdue; [|congruence].
    case_bool_decide as Hempty; [|congruence].
    unfold destroy. rewrite Hv1. destruct (v_isDestroyed v1); [congruence|].
    assert (Hheap : forall s1 hash, heap (onViewDematerialized hash s1) = heap s1).
    { intros s1 hash. unfold onViewDematerialized.
      destruct (views s1 !! hash); reflexivity. }
    intros Hv'.
    assert (Heq : id1 = id).
    { destruct (decide (id1 = id)) as [|Hne]; [assumption|exfalso].
      destruct (v_key v1); rewrite ?Hheap in Hv'; simpl in Hv';
        rewrite lookup_insert_ne in Hv' by congruence; congruence. }
    subst id1. rewrite Hv in Hv1. inversion Hv1; subst v1.
    split; [reflexivity|]. exists d. auto.
  - exfalso. revert Hv'. unfold onViewMaterialized_resumed.
    case_bool_decide; simpl; congruence.
  - exfalso. simpl in Hv'. congruence.
Qed.

Lemma now_step s e : (now s ≤ now (step s e))%nat.
Proof.
  destruct e as [query enabled ttl|id1 callback|id1 callback|id1|id1 r|dt]; simpl.
  - unfold ViewStore.getView. destruct enabled; simpl; [|lia].
    destruct (views s !! _); simpl; [|lia].
    destruct (heap s !! _); simpl; lia.
  - unfold subscribe. destruct (heap s !! id1) as [v|]; [|lia].
    destruct (v_isDestroyed v); simpl; lia.
  - unfold unsubscribe. destruct (heap s !! id1); simpl; lia.
  - unfold timerFires. destruct (heap s !! id1) as [v|] eqn:Hv; [|lia].
    destruct (v_cleanupTimer v); [|lia].
    repeat case_bool_decide; try lia.
    unfold destroy. rewrite Hv. destruct (v_isDestroyed v); [lia|].
    destruct (v_key v); simpl; [|lia].
    unfold onViewDematerialized. simpl. destruct (views s !! _); simpl; lia.
  - unfold onViewMaterialized_resumed. case_bool_decide; simpl; lia.
  - lia.
Qed.

(** A pending cleanup timer was set at the end of some prefix of the run,
    for the TTL the view had then, and the view has had no subscriber at
    any moment since. *)
Lemma pending_timer_history events id due :
  timer_of (run empty_store events) id = Some due ->
  exists before during,
    quiet_since events before during id
    /\ due = (now (run empty_store before)
              + ttl_of (run empty_store before) id)%nat.
Proof.
  induction events as [|e events IH] using rev_ind.
  - unfold timer_of. simpl. rewrite lookup_empty. discriminate.
  - rewrite run_snoc. intros Ht.
    destruct (timer_origin _ _ _ _ (wf_run events) Ht)
      as [Hold|[callback (-> & Hdue & Hnow & Hsubs)]].
    + destruct (IH Hold) as (before & during & [-> Hquiet] & Hd).
      exists before, (during ++ [e])%list.
      split; [|exact Hd]. split; [symmetry; apply app_assoc|].
      intros k. destruct (decide (k ≤ length during)%nat) as [Hk|Hk].
      * rewrite take_app_le by exact Hk. apply Hquiet.
      * rewrite take_ge by (rewrite length_app; simpl; lia).
        rewrite app_assoc, run_snoc.
        unfold timer_of in Ht. unfold subscribers.
        destruct (heap (step (run empty_store (before ++ during)) e) !! id)
          as [v|] eqn:Hv; [|reflexivity].
        eapply (wf_timer _ (wf_step _ e (wf_run (before ++ during)))); eauto.
    + exists (events ++ [Unsubscribe id callback])%list, [].
      rewrite run_snoc. split; [|rewrite Hnow; exact Hdue].
      split; [symmetry; apply app_nil_r|].
      intros k. rewrite take_nil, app_nil_r, run_snoc. exact Hsubs.
Qed.

Lemma destroy_dematerializes s id hash :
  wf s -> alive s id -> key_of s id = Some hash ->
  views (destroy id s) !! hash = None
  /\ hash ∉ activeSubscriptions (destroy id s).
Proof.
  intros Hwf [v [Hv Hd]]. unfold key_of, destroy. rewrite Hv, Hd.
  intros Hk. rewrite Hk. unfold onViewDematerialized. cbn [views set_view].
  rewrite (wf_alive _ Hwf _ _ _ Hv Hd Hk). simpl.
  split; [apply lookup_delete_eq|set_solver].
Qed.

Lemma getView_again query ttl s id :
  wf s -> views s !! createQueryHash query = Some id ->
  fst (getView query true ttl s) = id
  /\ ttl_of (snd (getView query true ttl s)) id = ttl
  /\ materializations (snd (getView query true ttl s)) = materializations s
  /\ activeSubscriptions (snd (getView query true ttl s))
     = activeSubscriptions s
  /\ views (snd (getView query true ttl s)) = views s.
Proof.
  intros Hwf Hl. destruct (wf_views _ Hwf _ _ Hl) as [v [Hv _]].
  unfold ViewStore.getView, ttl_of. simpl. rewrite Hl. simpl. rewrite Hv.
  simpl. rewrite lookup_insert_eq. auto.
Qed.

Lemma getView_registers query ttl s :
  views (snd (getView query true ttl s)) !! createQueryHash query
  = Some (fst (getView query true ttl s)).
Proof.
  unfold ViewStore.getView. simpl.
  destruct (views s !! createQueryHash query) as [id|] eqn:Hl; simpl.
  - destruct (heap s !! id); simpl; exact Hl.
  - apply lookup_insert_eq.
Qed.

(** While a view is filed under a fingerprint, [getView] for a
    fingerprint-equal query returns that view, sets its TTL, and neither
    materializes nor sends anything; two live views never share a
    fingerprint; and subscribing cancels a pending teardown. *)
Lemma view_sharing :
  (forall events query ttl,
      let s := run empty_store events in
      let r := getView query true ttl s in
      alive (snd r) (fst r)
      /\ key_of (snd r) (fst r) = Some (createQueryHash query)
      /\ forall id,
          alive s id -> key_of s id = Some (createQueryHash query) ->
          fst r = id
          /\ ttl_of (snd r) id = ttl
          /\ materializations (snd r) = materializations s
          /\ activeSubscriptions (snd r) = activeSubscriptions s)
  /\ (forall events id1 id2 hash,
         let s := run empty_store events in
         alive s id1 -> alive s id2 ->
         key_of s id1 = Some hash -> key_of s id2 = Some hash -> id1 = id2)
  /\ (forall events id callback,
         let s := run empty_store events in
         alive s id ->
         timer_of (subscribe id callback s) id = None
         /\ timerFires id (subscribe id callback s) = subscribe id callback s
         /\ alive (subscribe id callback s) id).
Proof.
  split; [|split].
  - intros events query ttl. cbv zeta.
    pose proof (wf_getView query true ttl _ (wf_run events)) as Hwf.
    pose proof (getView_registers query ttl (run empty_store events)) as Hreg.
    destruct (wf_views _ Hwf _ _ Hreg) as [v [Hv [Hk Hd]]].
    split; [exists v; auto|]. split; [unfold key_of; rewrite Hv; exact Hk|].
    intros id [v0 [Hv0 Hd0]]. unfold key_of at 1. rewrite Hv0. intros Hk0.
    pose proof (wf_alive _ (wf_run events) _ _ _ Hv0 Hd0 Hk0) as Hl.
    destruct (getView_again query ttl _ _ (wf_run events) Hl)
      as (H1 & H2 & H3 & H4 & _).
    auto.
  - intros events id1 id2 hash s [v1 [Hv1 Hd1]] [v2 [Hv2 Hd2]]. unfold key_of.
    rewrite Hv1, Hv2. intros Hk1 Hk2.
    pose proof (wf_alive _ (wf_run events) _ _ _ Hv1 Hd1 Hk1) as H1.
    pose proof (wf_alive _ (wf_run events) _ _ _ Hv2 Hd2 Hk2) as H2.
    congruence.
  - intros events id callback s [v [Hv Hd]].
    unfold timer_of, timerFires, alive, subscribe. rewrite Hv, Hd. simpl.
    rewrite lookup_insert_eq. simpl. repeat split.
    eexists. split; reflexivity.
Qed.

(** *** A result that arrives after the teardown *)




End Fingerprint.

(** *** Concrete runs *)

Definition tasks_query : list (string * value) :=
  [("type", VStr "find"); ("collection", VStr "tasks")].

Definition tasks_query_reordered : list (string * value) :=
  [("collection", VStr "tasks"); ("type", VStr "find")].

Definition fingerprint : list (string * value) -> string :=
  QueryHash.createQueryHash QueryHash.render_pack QueryHash.render_base64
    (fun _ _ => "") (fun s => s).



(** A consumer attaches to the tasks view and detaches at time 0; a
    second [getView] then raises the TTL from 30 ms to 600 ms; 30 ms
    later the cleanup timer is due. *)
Definition refreshed_then_due : list Event :=
  [GetView tasks_query true 30; Subscribe 0 7; Unsubscribe 0 7;
   GetView tasks_query_reordered true 600; Advance 30].

(** [updateTTL] does not touch a countdown that is already running: in
    this run the second [getView] has raised the TTL to 600 ms while the
    countdown of 30 ms was pending, and the view is torn down when the
    30 ms are over. *)
Remark ttl_refresh_does_not_extend_countdown :
  alive (run fingerprint empty_store refreshed_then_due) 0
  /\ ttl_of (run fingerprint empty_store refreshed_then_due) 0 = 600%nat
  /\ now (run fingerprint empty_store refreshed_then_due) = 30%nat
  /\ destroyed
       (step fingerprint (run fingerprint empty_store refreshed_then_due)
          (TimerFires 0)) 0.
Proof.
  split; [eexists; split; [vm_compute; reflexivity|reflexivity]|].
  split; [vm_compute; reflexivity|]. split; [vm_compute; reflexivity|].
  eexists. split; [vm_compute; reflexivity|reflexivity].
Qed.

End ViewStoreProofs.

(** ** Document matcher: paths, relationships and bare conditions *)
Module QueryMatcherEdges.
Import JS QueryMatcher QueryMatcherProofs.

Lemma split_go_app sep cur p q :
  split_go sep cur (p ++ String sep q)
  = (split_go sep cur p ++ split_go sep EmptyString q)%list.
Proof.
  revert cur. induction p as [|c p IH]; intros cur.
  - change ("" ++ String sep q) with (String sep q). cbn [split_go].
    rewrite Ascii.eqb_refl. reflexivity.
  - change (String c p ++ String sep q) with (String c (p ++ String sep q)).
    cbn [split_go]. destruct (Ascii.eqb c sep).
    + rewrite IH. reflexivity.
    + apply IH.
Qed.

(** X1: a dotted path is walked segment by segment: resolving
    [p.q] in a document is resolving [q] in what [p] resolves to
    (an [undefined] intermediate stays [undefined]). *)
Theorem nested_path_composes doc p q :
  getNestedValue doc (p ++ String "." q)
  = getNestedValue (getNestedValue doc p) q.
Proof.
  unfold getNestedValue, split. rewrite split_go_app.
  apply fold_left_app.
Qed.

(** X2: a populated relationship (an object) is compared with a
    string through its [id], in either direction, and only when that
    [id] is truthy; it is never equal to a number, whatever its
    [id]. *)
Theorem relationship_compares_by_id props e n :
  compareValues (VObj props) (VStr e)
  = truthy (assoc "id" props) && strict_eq (assoc "id" props) (VStr e)
  /\ compareValues (VStr e) (VObj props)
     = truthy (assoc "id" props) && strict_eq (VStr e) (assoc "id" props)
  /\ compareValues (VObj props) (VNum n) = false
  /\ compareValues (VNum n) (VObj props) = false.
Proof.
  unfold compareValues. cbn [strict_eq typeof_object typeof_string is_null
    negb andb get].
  destruct (truthy (assoc "id" props)) eqn:Hid;
    repeat split; rewrite ?andb_false_r; reflexivity.
Qed.

Lemma index_key_unknown i : index_key i ∉ known_operators.
Proof.
  unfold index_key, known_operators. intros H.
  destruct (Nat.to_uint i); simpl in H;
    repeat (apply elem_of_cons in H as [H|H]; [discriminate H|]);
    apply elem_of_nil in H; exact H.
Qed.

(** X3: a condition that is not an object stands for [equals]; an
    empty object or empty array as condition holds of every document, and
    a non-empty array as condition holds of none (its indices are read as
    operators). *)
Theorem bare_conditions doc fieldPath v x items :
  (typeof_object v && negb (is_null v) = false ->
   evaluateFieldCondition doc fieldPath v
   = evaluateFieldCondition doc fieldPath (VObj [("equals", v)]))
  /\ evaluateFieldCondition doc fieldPath (VObj []) = true
  /\ evaluateFieldCondition doc fieldPath (VArr []) = true
  /\ evaluateFieldCondition doc fieldPath (VArr (x :: items)) = false.
Proof.
  split; [|split; [reflexivity|split; [reflexivity|]]].
  - intros Hv. rewrite evaluateFieldCondition_single.
    unfold evaluateFieldCondition, evaluateOperator. simpl.
    destruct v; simpl in *; try reflexivity; discriminate Hv.
  - unfold evaluateFieldCondition. cbn [typeof_object negb is_null orb entries
      indexed indexed_from forallb].
    rewrite unknown_operator_rejects by apply index_key_unknown.
    reflexivity.
Qed.

(** A subscription whose [where] is absent, [null], not an object,
    or has no keys matches every document. *)
Theorem no_filter_matches_everything doc subscription :
  typeof_object (get subscription "where") = false
  \/ get subscription "where" = VNull
  \/ keys (get subscription "where") = [] ->
  documentMatchesQuery doc subscription = true.
Proof.
  unfold documentMatchesQuery. intros [H|[H|H]].
  - destruct (negb _ || _); [reflexivity|].
    destruct (get subscription "where"); try discriminate H;
      cbn [evaluateWhereClause typeof_object negb]; rewrite orb_true_r;
      reflexivity.
  - rewrite H. reflexivity.
  - rewrite H. cbn [List.length Nat.eqb]. rewrite orb_true_r. reflexivity.
Qed.

Lemma no_filter_matches_everything_witness :
  documentMatchesQuery sample_doc (VObj [("sort", VStr "-createdAt")]) = true
  /\ documentMatchesQuery sample_doc (VObj [("where", VObj [])]) = true.
Proof.
  split.
  - apply no_filter_matches_everything. left. reflexivity.
  - apply no_filter_matches_everything. right. right. reflexivity.
Defined.

Lemma bare_conditions_witness :
  evaluateFieldCondition sample_doc "status" (VStr "open")
  = evaluateFieldCondition sample_doc "status"
      (VObj [("equals", VStr "open")]).
Proof.
  exact (proj1 (bare_conditions sample_doc "status" (VStr "open") VUndef [])
           eq_refl).
Defined.

(** X4: an [in] condition on a field is the disjunction of the [equals]
    conditions on its values: the filter [{f: {in: vals}}] accepts the
    documents that [{or: [{f: {equals: v}}, ...]}] accepts. *)
Theorem in_is_or_of_equals doc f vals :
  evaluateWhereClause doc (VObj [(f, VObj [("in", VArr vals)])])
  = evaluateWhereClause doc
      (VObj [("or",
              VArr (map (fun v => VObj [(f, VObj [("equals", v)])]) vals))]).
Proof.
  assert (Hone : forall op e,
             evaluateWhereClause doc (VObj [(f, VObj [(op, e)])])
             = evaluateOperator (getNestedValue doc f) op e).
  { intros op e. rewrite evaluateWhereClause_object. cbn [assoc].
    destruct (String.eqb f "and"), (String.eqb f "or"); cbn [forallb];
      rewrite evaluateFieldCondition_single; apply andb_true_r. }
  rewrite Hone. rewrite evaluateWhereClause_object. cbn [assoc String.eqb].
  simpl (String.eqb "or" "and"). cbn iota. simpl (String.eqb "or" "or").
  cbn iota.
  unfold evaluateOperator at 1. simpl. unfold some_equal.
  induction vals as [|v vals IH]; [reflexivity|].
  cbn [existsb map]. rewrite Hone, <- IH. reflexivity.
Qed.

End QueryMatcherEdges.

(** ** Session registry *)
Module RegistryProofs.
Import JS SchemaDeps Subscriptions DependencyTracker SubscriptionManager.
Import Registry SchemaDepsProofs SubscriptionsProofs.

Lemma replace_session_find id session l :
  replace_session id session l = None
  <-> List.find (fun s => String.eqb (fst s) id) l = None.
Proof.
  induction l as [|[cid s] rest IH]; simpl; [tauto|].
  destruct (String.eqb cid id); [split; discriminate|].
  destruct (replace_session id session rest); simpl;
    split; intros H; try discriminate; try reflexivity.
  - apply IH in H. discriminate H.
  - apply IH. reflexivity.
Qed.

Lemma find_replace_session id session l l' id' :
  replace_session id session l = Some l' ->
  snd <$> List.find (fun s => String.eqb (fst s) id') l'
  = if String.eqb id' id then Some session
    else snd <$> List.find (fun s => String.eqb (fst s) id') l.
Proof.
  revert l'. induction l as [|[cid s] rest IH]; intros l'; simpl;
    [discriminate|].
  destruct (String.eqb_spec cid id) as [->|Hne].
  - intros [= <-]. simpl. rewrite (String.eqb_sym id' id).
    destruct (String.eqb id id'); reflexivity.
  - destruct (replace_session id session rest) as [r|]; simpl;
      [|discriminate].
    intros [= <-]. simpl. destruct (String.eqb_spec cid id') as [->|Hne'].
    + destruct (String.eqb_spec id' id); [congruence|reflexivity].
    + apply IH. reflexivity.
Qed.

Lemma find_app_fresh id (l : list (string * SessionSubscription)) x :
  List.find (fun s => String.eqb (fst s) id) l = None ->
  List.find (fun s => String.eqb (fst s) id) (l ++ [x])%list
  = if String.eqb (fst x) id then Some x else None.
Proof.
  induction l as [|y rest IH]; simpl; [reflexivity|].
  destruct (String.eqb (fst y) id); [discriminate|exact IH].
Qed.

Lemma find_app_other id id' (l : list (string * SessionSubscription)) s :
  id' <> id ->
  List.find (fun x => String.eqb (fst x) id') (l ++ [(id, s)])%list
  = List.find (fun x => String.eqb (fst x) id') l.
Proof.
  intros Hne. induction l as [|y rest IH]; simpl.
  - destruct (String.eqb_spec id id'); [congruence|reflexivity].
  - destruct (String.eqb (fst y) id'); [reflexivity|exact IH].
Qed.

Lemma getSession_addSession c id session id' :
  getSession (addSession c id session) id'
  = if String.eqb id' id then Some session else getSession c id'.
Proof.
  unfold getSession, addSession. cbn [sessions].
  destruct (replace_session id session (sessions c)) as [l'|] eqn:E.
  - apply (find_replace_session _ _ _ _ _ E).
  - apply replace_session_find in E.
    destruct (String.eqb_spec id' id) as [->|Hne].
    + rewrite find_app_fresh by exact E. simpl. rewrite String.eqb_refl.
      reflexivity.
    + rewrite find_app_other by exact Hne. reflexivity.
Qed.

Lemma getSession_deleteSession c id id' :
  getSession (deleteSession c id) id'
  = if String.eqb id' id then None else getSession c id'.
Proof.
  unfold getSession, deleteSession. cbn [sessions].
  induction (sessions c) as [|[cid s] rest IH]; simpl.
  - destruct (String.eqb id' id); reflexivity.
  - destruct (String.eqb_spec cid id) as [->|Hne]; simpl.
    + rewrite IH. rewrite (String.eqb_sym id' id).
      destruct (String.eqb id id'); reflexivity.
    + destruct (String.eqb_spec cid id') as [->|Hne']; simpl.
      * destruct (String.eqb_spec id' id); [congruence|reflexivity].
      * exact IH.
Qed.

(** X5: the session table behaves as a map from client ids: after
    [addSession] the id reads the new session, after [deleteSession] it
    reads nothing, and every other id reads what it read before, whether
    or not the id was present. *)
Theorem session_table_is_a_map c id session id' :
  getSession (addSession c id session) id'
  = (if String.eqb id' id then Some session else getSession c id')
  /\ getSession (deleteSession c id) id'
     = (if String.eqb id' id then None else getSession c id')
  /\ getSession (deleteSession (addSession c id session) id) id' 
     = getSession (deleteSession c id) id'.
Proof.
  split; [apply getSession_addSession|].
  split; [apply getSession_deleteSession|].
  rewrite !getSession_deleteSession, getSession_addSession.
  destruct (String.eqb id' id); reflexivity.
Qed.


(** *** Queries of a session *)

Lemma find_upsert_query query l key :
  List.find (fun q => String.eqb (queryKey q) key) (upsert_query query l)
  = if String.eqb (queryKey query) key then Some query
    else List.find (fun q => String.eqb (queryKey q) key) l.
Proof.
  induction l as [|q rest IH]; simpl.
  - destruct (String.eqb (queryKey query) key); reflexivity.
  - destruct (String.eqb_spec (queryKey q) (queryKey query)) as [Heq|Hne];
      simpl.
    + rewrite Heq. destruct (String.eqb (queryKey query) key); reflexivity.
    + destruct (String.eqb_spec (queryKey q) key) as [Hk|Hk].
      * destruct (String.eqb_spec (queryKey query) key); [congruence|].
        reflexivity.
      * exact IH.
Qed.

Lemma keys_upsert_query query l :
  map queryKey (upsert_query query l)
  = if bool_decide (queryKey query ∈ map queryKey l) then map queryKey l
    else (map queryKey l ++ [queryKey query])%list.
Proof.
  induction l as [|q rest IH]; cbn [map upsert_query].
  - rewrite bool_decide_eq_false_2 by apply not_elem_of_nil. reflexivity.
  - destruct (String.eqb_spec (queryKey q) (queryKey query)) as [Heq|Hne];
      cbn [map].
    + rewrite Heq. rewrite bool_decide_eq_true_2 by left. reflexivity.
    + rewrite IH.
      destruct (decide (queryKey query ∈ map queryKey rest)) as [Hin|Hnin].
      * rewrite (bool_decide_eq_true_2 _ Hin).
        rewrite bool_decide_eq_true_2 by (right; exact Hin). reflexivity.
      * rewrite (bool_decide_eq_false_2 _ Hnin).
        rewrite bool_decide_eq_false_2; [reflexivity|].
        intros H. apply elem_of_cons in H as [H|H];
          [congruence|contradiction].
Qed.

Lemma getSession_addQueryToSession now c id query id' :
  getSession (Subscriptions.addQueryToSession now c id query) id'
  = if String.eqb id' id then
      (fun s => {| clientId := clientId s;
                   queries := upsert_query query (queries s);
                   lastActivity := now |}) <$> getSession c id
    else getSession c id'.
Proof.
  unfold getSession, Subscriptions.addQueryToSession. cbn [sessions].
  induction (sessions c) as [|[cid s] rest IH]; simpl.
  - destruct (String.eqb id' id); reflexivity.
  - destruct (String.eqb_spec cid id) as [->|Hne]; simpl.
    + rewrite (String.eqb_sym id' id).
      destruct (String.eqb id id'); reflexivity.
    + destruct (String.eqb_spec cid id') as [->|Hne']; simpl.
      * destruct (String.eqb_spec id' id); [congruence|reflexivity].
      * exact IH.
Qed.

Lemma getSession_registerQueryDependencies payloadConfig c key collection
    populate_ where_ id :
  getSession
    (registerQueryDependencies payloadConfig c key collection populate_ where_)
    id
  = getSession c id.
Proof. reflexivity. Qed.

(** What a client id reads after [registerSession]. *)
Lemma getSession_registerSession payloadConfig now c id key collection type
    params id' :
  getSession (registerSession payloadConfig now c id key collection type params)
    id'
  = if String.eqb id' id then
      Some {| clientId := match getSession c id with
                          | Some s => clientId s
                          | None => id
                          end;
              queries :=
                upsert_query
                  {| queryKey := key; collection := collection;
                     queryType := type; params := params;
                     lastSyncTime := now |}
                  match getSession c id with
                  | Some s => queries s
                  | None => []
                  end;
              lastActivity := now |}
    else getSession c id'.
Proof.
  unfold registerSession. rewrite getSession_registerQueryDependencies.
  rewrite getSession_addQueryToSession.
  destruct (getSession c id) as [s|] eqn:E.
  - rewrite E. reflexivity.
  - rewrite !getSession_addSession, String.eqb_refl. simpl.
    destruct (String.eqb id' id); reflexivity.
Qed.

Lemma registerSession_found payloadConfig now c id key collection type params :
  exists session,
    getSession (registerSession payloadConfig now c id key collection type
                  params) id = Some session
    /\ List.find (fun q => String.eqb (queryKey q) key) (queries session)
       = Some {| queryKey := key; collection := collection; queryType := type;
                 params := params; lastSyncTime := now |}.
Proof.
  rewrite getSession_registerSession, String.eqb_refl. eexists.
  split; [reflexivity|]. cbn [queries]. rewrite find_upsert_query.
  cbn [queryKey]. rewrite String.eqb_refl. reflexivity.
Qed.

(** X6: after [registerSession] the client has a session, touched at the
    time of the call, in which the query key reads the query just
    registered (an earlier query under the same key is replaced); every
    other key of the session and every other session read as before. *)
Theorem registerSession_records payloadConfig now c id key collection type
    params other :
  let c' := registerSession payloadConfig now c id key collection type params in
  let find_in k (s : option SessionSubscription) :=
    s ≫= (fun s => List.find (fun q => String.eqb (queryKey q) k) (queries s)) in
  (exists session,
      getSession c' id = Some session
      /\ lastActivity session = now
      /\ find_in key (Some session)
         = Some {| queryKey := key; collection := collection;
                   queryType := type; params := params; lastSyncTime := now |})
  /\ (other <> key -> find_in other (getSession c' id)
                      = find_in other (getSession c id))
  /\ (other <> id -> getSession c' other = getSession c other).
Proof.
  cbv zeta. rewrite !getSession_registerSession, String.eqb_refl.
  split; [|split].
  - eexists. split; [reflexivity|]. split; [reflexivity|]. simpl.
    rewrite find_upsert_query. simpl. rewrite String.eqb_refl. reflexivity.
  - intros Hne. simpl. rewrite find_upsert_query. simpl.
    destruct (String.eqb_spec key other); [congruence|].
    destruct (getSession c id); reflexivity.
  - intros Hne. destruct (String.eqb_spec other id); [congruence|reflexivity].
Qed.

Lemma registerSession_records_witness :
  getSession
    (registerSession mockPayloadConfig 5 one_session "client-2" "count.tasks.k"
       "tasks" Count VUndef) "client-1"
  = getSession one_session "client-1".
Proof.
  pose proof (registerSession_records mockPayloadConfig 5 one_session
                "client-2" "count.tasks.k" "tasks" Count VUndef "client-1")
    as H.
  cbv zeta in H. destruct H as (_ & _ & H). apply H. discriminate.
Defined.

(** Every session lists a query key at most once. *)
Definition unique_keys (c : State) : Prop :=
  forall id s, getSession c id = Some s -> NoDup (map queryKey (queries s)).

(** X7: registering never makes a session list a query key twice. *)
Theorem query_keys_stay_unique payloadConfig now c id key collection type
    params :
  unique_keys c ->
  unique_keys (registerSession payloadConfig now c id key collection type params).
Proof.
  intros Hc id' s. rewrite getSession_registerSession.
  destruct (String.eqb id' id); [|apply Hc].
  intros [= <-]. cbn [queries]. rewrite keys_upsert_query. cbn [queryKey].
  assert (Hold : NoDup (map queryKey match getSession c id with
                                     | Some s => queries s
                                     | None => []
                                     end)).
  { destruct (getSession c id) as [s|] eqn:E; [apply (Hc _ _ E)|constructor]. }
  case_bool_decide as Hin; [exact Hold|].
  apply NoDup_app. split; [exact Hold|]. split.
  - intros x Hx Hx'. apply list_elem_of_singleton in Hx'. subst x.
    contradiction.
  - apply NoDup_singleton.
Qed.

(** A session with two queries, one of which is then registered again
    with other parameters. *)
Definition two_queries : State :=
  registerSession mockPayloadConfig 1 one_session "client-1" "count.tasks.k"
    "tasks" Count (VObj [("where", VUndef); ("locale", VUndef)]).

Lemma query_keys_stay_unique_witness :
  exists session,
    getSession
      (registerSession mockPayloadConfig 2 two_queries "client-1"
         "find.tasks.k" "tasks" Find (VObj [("sort", VStr "name")]))
      "client-1"
    = Some session
    /\ map queryKey (queries session) = ["find.tasks.k"; "count.tasks.k"]
    /\ NoDup (map queryKey (queries session)).
Proof.
  eexists. split; [vm_compute; reflexivity|]. split; [reflexivity|].
  refine (query_keys_stay_unique mockPayloadConfig 2 two_queries "client-1"
            "find.tasks.k" "tasks" Find (VObj [("sort", VStr "name")]) _
            "client-1" _ _).
  - intros id session. unfold two_queries, one_session.
    rewrite !getSession_registerSession.
    destruct (String.eqb id "client-1"); [|discriminate].
    intros [= <-]. vm_compute.
    repeat constructor; set_solver.
  - vm_compute. reflexivity.
Defined.

Lemma getSession_In c id s :
  getSession c id = Some s -> exists x, In x (sessions c) /\ snd x = s.
Proof.
  unfold getSession. intros H.
  destruct (List.find _ (sessions c)) as [x|] eqn:E; [|discriminate H].
  injection H as <-. apply find_some in E as [Hin _]. eauto.
Qed.

Lemma registered_is_found payloadConfig now c id key collection type params :
  let c' := registerSession payloadConfig now c id key collection type params in
  exists session,
    getSession c' id = Some session
    /\ In session (getSessionsForCollection c' collection)
    /\ In session (getSessionsForQuery c' key).
Proof.
  cbv zeta.
  destruct (registerSession_found payloadConfig now c id key collection type
              params) as (session & Hs & Hfind).
  exists session. split; [exact Hs|].
  destruct (getSession_In _ _ _ Hs) as (x & Hin & <-).
  simpl in Hfind. apply find_some in Hfind as [Hq _].
  unfold getSessionsForCollection, getSessionsForQuery, getSessions.
  split; apply in_map, filter_In; (split; [exact Hin|]);
    apply existsb_exists; eexists; (split; [exact Hq|]);
    apply String.eqb_refl.
Qed.

Lemma subscribeToQuery_registerSession payloadConfig now c id key collection
    params :
  subscribeToQuery payloadConfig now c id key collection params
  = registerSession payloadConfig now c id key collection Find params.
Proof.
  unfold subscribeToQuery, addQueryToSession, registerSession.
  destruct (getSession c id); reflexivity.
Qed.

(** X8: the two entry points of the endpoint.  [subscribeToQuery] is
    [registerSession] with query type [find] whether or not the client
    already has a session, and after [subscribeToQuery] or
    [subscribeToCount] the client's session is among those returned for the
    collection and for the query key. *)
Theorem subscribed_session_is_found payloadConfig now c id key collection
    params :
  let c1 := subscribeToQuery payloadConfig now c id key collection params in
  let c2 := subscribeToCount payloadConfig now c id key collection params in
  c1 = registerSession payloadConfig now c id key collection Find params
  /\ (exists session,
         getSession c1 id = Some session
         /\ In session (getSessionsForCollection c1 collection)
         /\ In session (getSessionsForQuery c1 key))
  /\ (exists session,
         getSession c2 id = Some session
         /\ In session (getSessionsForCollection c2 collection)
         /\ In session (getSessionsForQuery c2 key)).
Proof.
  cbv zeta.
  pose proof (subscribeToQuery_registerSession payloadConfig now c id key
                collection params) as Heq.
  split; [exact Heq|]. rewrite Heq. split; apply registered_is_found.
Qed.

(** X9: [cleanupOldSessions] keeps a session whose last activity is not
    older than the cut-off and drops the others; so a client that
    registered a query at time [t] still has its session after a clean-up
    run at any time up to [t] plus the maximum age. *)
Theorem cleanup_keeps_recent_sessions payloadConfig t c id key collection type
    params now maxAgeMinutes :
  now - maxAgeMinutes * 60 * 1000 <= t ->
  let c' := registerSession payloadConfig t c id key collection type params in
  getSession (cleanupOldSessions now c' maxAgeMinutes) id = getSession c' id
  /\ forall id' s,
       getSession (cleanupOldSessions now c' maxAgeMinutes) id' = Some s ->
       now - maxAgeMinutes * 60 * 1000 <= lastActivity s.
Proof.
  intros Hrecent. cbv zeta. split.
  - assert (Hrec : exists session,
               getSession (registerSession payloadConfig t c id key collection
                             type params) id = Some session
               /\ lastActivity session = t).
    { rewrite getSession_registerSession, String.eqb_refl. eexists.
      split; reflexivity. }
    destruct Hrec as (session & Hs & Hact).
    rewrite Hs. revert Hs. unfold getSession, cleanupOldSessions.
    cbn [sessions].
    induction (sessions (registerSession _ _ _ _ _ _ _ _)) as [|[cid s] rest IH];
      simpl; [discriminate|].
    destruct (String.eqb_spec cid id) as [->|Hne]; simpl.
    + intros [= ->]. rewrite Hact.
      destruct (Z.leb_spec (now - maxAgeMinutes * 60 * 1000) t); [|lia].
      simpl. rewrite String.eqb_refl. reflexivity.
    + intros H. destruct (_ <=? _); simpl; [|auto].
      destruct (String.eqb_spec cid id); [congruence|auto].
  - intros id' s. unfold getSession, cleanupOldSessions. cbn [sessions].
    intros H. destruct (List.find _ _) as [x|] eqn:E; [|discriminate H].
    injection H as <-. apply find_some in E as [Hin _].
    apply filter_In in Hin as [_ Hle]. apply Z.leb_le in Hle. exact Hle.
Qed.

Lemma cleanup_keeps_recent_sessions_witness :
  getSession (cleanupOldSessions 3600000 one_session 60) "client-1"
  = getSession one_session "client-1".
Proof.
  pose proof (cleanup_keeps_recent_sessions mockPayloadConfig 0 initial
                "client-1" "find.tasks.k" "tasks" Find assignee_params
                3600000 60) as H.
  cbv zeta in H. apply H. lia.
Defined.


(** *** The dependency index *)

Lemma addReverse_default key (rev : gmap string (list string)) dep coll :
  default [] (addReverse key rev dep !! coll)
  = if bool_decide (coll = dep) then
      if bool_decide (key ∈ default [] (rev !! coll))
      then default [] (rev !! coll)
      else (default [] (rev !! coll) ++ [key])%list
    else default [] (rev !! coll).
Proof.
  unfold addReverse. case_bool_decide as Hc.
  - subst coll. destruct (rev !! dep) as [arr|] eqn:E.
    + change (default [] (Some arr)) with arr.
      case_bool_decide as Hin; [rewrite E; reflexivity|].
      rewrite lookup_insert_eq. reflexivity.
    + change (default [] (@None (list string))) with (@nil string).
      rewrite bool_decide_eq_false_2 by apply not_elem_of_nil.
      rewrite lookup_insert_eq. reflexivity.
  - destruct (rev !! dep) as [arr|] eqn:E.
    + case_bool_decide; [reflexivity|].
      rewrite lookup_insert_ne by congruence. reflexivity.
    + rewrite lookup_insert_ne by congruence. reflexivity.
Qed.

Lemma addReverse_fold_default key ds (rev : gmap string (list string)) coll :
  default [] (fold_left (addReverse key) ds rev !! coll)
  = if bool_decide (coll ∈ ds) then
      if bool_decide (key ∈ default [] (rev !! coll))
      then default [] (rev !! coll)
      else (default [] (rev !! coll) ++ [key])%list
    else default [] (rev !! coll).
Proof.
  revert rev. induction ds as [|dep rest IH]; intros rev; cbn [fold_left].
  - rewrite bool_decide_eq_false_2 by apply not_elem_of_nil. reflexivity.
  - rewrite IH, addReverse_default.
    destruct (decide (coll = dep)) as [->|Hne].
    + rewrite (bool_decide_eq_true_2 (dep = dep)) by reflexivity.
      rewrite (bool_decide_eq_true_2 (dep ∈ dep :: rest)) by left.
      destruct (decide (key ∈ default [] (rev !! dep))) as [Hin|Hnin].
      * rewrite !(bool_decide_eq_true_2 _ Hin).
        destruct (bool_decide (dep ∈ rest)); reflexivity.
      * rewrite !(bool_decide_eq_false_2 _ Hnin).
        rewrite (bool_decide_eq_true_2
                   (key ∈ (default [] (rev !! dep) ++ [key])%list))
          by (apply elem_of_app; right; apply list_elem_of_singleton;
              reflexivity).
        destruct (bool_decide (dep ∈ rest)); reflexivity.
    + rewrite (bool_decide_eq_false_2 (coll = dep)) by exact Hne.
      destruct (decide (coll ∈ rest)) as [Hin|Hnin].
      * rewrite (bool_decide_eq_true_2 _ Hin).
        rewrite (bool_decide_eq_true_2 (coll ∈ dep :: rest))
          by (right; exact Hin).
        reflexivity.
      * rewrite (bool_decide_eq_false_2 _ Hnin).
        rewrite (bool_decide_eq_false_2 (coll ∈ dep :: rest));
          [reflexivity|].
        intros H. apply elem_of_cons in H as [H|H]; contradiction.
Qed.

Lemma removeReverse_default key (rev : gmap string (list string)) dep coll :
  default [] (removeReverse key rev dep !! coll)
  = if bool_decide (coll = dep)
    then List.filter (fun qk => negb (String.eqb qk key))
           (default [] (rev !! coll))
    else default [] (rev !! coll).
Proof.
  unfold removeReverse. case_bool_decide as Hc.
  - subst coll. destruct (rev !! dep) as [arr|] eqn:E.
    + change (default [] (Some arr)) with arr.
      destruct (List.filter _ arr) eqn:Ef.
      * rewrite lookup_delete_eq. reflexivity.
      * rewrite lookup_insert_eq. reflexivity.
    + rewrite E. reflexivity.
  - destruct (rev !! dep) as [arr|] eqn:E; [|reflexivity].
    destruct (List.filter _ arr).
    + rewrite lookup_delete_ne by congruence. reflexivity.
    + rewrite lookup_insert_ne by congruence. reflexivity.
Qed.

Lemma filter_twice {A} (f : A -> bool) l :
  List.filter f (List.filter f l) = List.filter f l.
Proof.
  induction l as [|x l IH]; simpl; [reflexivity|].
  destruct (f x) eqn:E; simpl; rewrite ?E, IH; reflexivity.
Qed.

Lemma removeReverse_fold_default key ds (rev : gmap string (list string)) coll :
  default [] (fold_left (removeReverse key) ds rev !! coll)
  = if bool_decide (coll ∈ ds)
    then List.filter (fun qk => negb (String.eqb qk key))
           (default [] (rev !! coll))
    else default [] (rev !! coll).
Proof.
  revert rev. induction ds as [|dep rest IH]; intros rev; cbn [fold_left].
  - rewrite bool_decide_eq_false_2 by apply not_elem_of_nil. reflexivity.
  - rewrite IH, removeReverse_default.
    destruct (decide (coll = dep)) as [->|Hne].
    + rewrite (bool_decide_eq_true_2 (dep = dep)) by reflexivity.
      rewrite (bool_decide_eq_true_2 (dep ∈ dep :: rest)) by left.
      destruct (bool_decide (dep ∈ rest)); [apply filter_twice|reflexivity].
    + rewrite (bool_decide_eq_false_2 (coll = dep)) by exact Hne.
      destruct (decide (coll ∈ rest)) as [Hin|Hnin].
      * rewrite (bool_decide_eq_true_2 _ Hin).
        rewrite (bool_decide_eq_true_2 (coll ∈ dep :: rest))
          by (right; exact Hin).
        reflexivity.
      * rewrite (bool_decide_eq_false_2 _ Hnin).
        rewrite (bool_decide_eq_false_2 (coll ∈ dep :: rest));
          [reflexivity|].
        intros H. apply elem_of_cons in H as [H|H]; contradiction.
Qed.

Lemma filter_absent key (arr : list string) :
  key ∉ arr -> List.filter (fun qk => negb (String.eqb qk key)) arr = arr.
Proof.
  induction arr as [|x arr IH]; intros Hnot; simpl; [reflexivity|].
  destruct (String.eqb_spec x key) as [->|Hne]; simpl.
  - exfalso. apply Hnot. left.
  - rewrite IH; [reflexivity|]. intros H. apply Hnot. right. exact H.
Qed.

(** X10: registering the dependencies of a key that is not in the index
    and unregistering it again restores the index: the forward map is the
    one before, and every collection lists the same query keys in the same
    order as before. *)
Theorem register_then_unregister payloadConfig c key collection populate_
    where_ coll :
  deps c !! key = None ->
  key ∉ getQueriesDependingOn c coll ->
  let c' :=
    unregisterQueryDependencies
      (registerQueryDependencies payloadConfig c key collection populate_
         where_) key in
  deps c' = deps c
  /\ getQueriesDependingOn c' coll = getQueriesDependingOn c coll.
Proof.
  intros Hfresh Hnot. cbv zeta.
  unfold unregisterQueryDependencies, removeDependencies,
    registerQueryDependencies, getQueriesDependingOn in *.
  cbn [deps addReverseDependencies addDependencies reverseDependencies].
  rewrite lookup_insert_eq.
  cbn [deps reverseDependencies dependencies].
  split; [apply delete_insert_id; exact Hfresh|].
  rewrite removeReverse_fold_default, addReverse_fold_default.
  rewrite (bool_decide_eq_false_2 _ Hnot).
  destruct (bool_decide (coll ∈ _)); [|reflexivity].
  rewrite List.filter_app. simpl. rewrite String.eqb_refl. simpl.
  rewrite filter_absent by exact Hnot. apply app_nil_r.
Qed.

Lemma register_then_unregister_witness :
  getQueriesDependingOn
    (unregisterQueryDependencies registered_once "find.tasks.k") "users"
  = getQueriesDependingOn initial "users".
Proof.
  refine (proj2 (register_then_unregister mockPayloadConfig initial
                   "find.tasks.k" "tasks" assignee_populate VUndef "users"
                   _ _)).
  - reflexivity.
  - vm_compute. apply not_elem_of_nil.
Defined.

(** The invariant of a trace: the index is consistent, and the forward
    entry of a key holds the dependencies of a query the trace registers
    under that key. *)
Definition index_inv (payloadConfig : SanitizedConfig) (ops : list IndexOp)
    (c : State) : Prop :=
  consistent c
  /\ forall key d,
       deps c !! key = Some d ->
       exists collection populate_ where_,
         In (Register key collection populate_ where_) ops
         /\ dependencies d
            = elements
                (extractQueryDependencies
                   {| q_type := Find; q_collection := collection;
                      q_populate := populate_; q_where := where_ |}
                   payloadConfig).

Lemma index_inv_step payloadConfig ops c op :
  keys_name_one_query ops -> In op ops ->
  index_inv payloadConfig ops c ->
  index_inv payloadConfig ops (index_step payloadConfig c op).
Proof.
  intros Hone Hin [Hc Hd]. destruct op as [key collection populate_ where_|key].
  - cbn [index_step]. split.
    + pose (d := {| dep_collection := collection;
                    dependencies :=
                      elements
                        (extractQueryDependencies
                           {| q_type := Find; q_collection := collection;
                              q_populate := populate_; q_where := where_ |}
                           payloadConfig);
                    dep_query :=
                      {| q_type := Find; q_collection := collection;
                         q_populate := populate_; q_where := where_ |} |}).
      change (consistent
                (addReverseDependencies (addDependencies c key d) key
                   (dependencies d))).
      apply register_consistent; [exact Hc|].
      intros old coll Hold Hcoll.
      destruct (Hd _ _ Hold) as (c0 & p0 & w0 & Hin0 & Heq).
      destruct (Hone _ _ _ _ _ _ _ Hin0 Hin) as (-> & -> & ->).
      subst d. cbn [dependencies]. rewrite <- Heq. exact Hcoll.
    + intros k d. unfold registerQueryDependencies.
      cbn [deps addReverseDependencies addDependencies].
      destruct (decide (k = key)) as [->|Hne].
      * rewrite lookup_insert_eq. intros [= <-].
        exists collection, populate_, where_. split; [exact Hin|reflexivity].
      * rewrite lookup_insert_ne by congruence. apply Hd.
  - cbn [index_step]. unfold unregisterQueryDependencies. split.
    + apply removeDependencies_consistent. exact Hc.
    + intros k d. unfold removeDependencies.
      destruct (deps c !! key) eqn:E; [|apply Hd].
      cbn [deps]. intros H. apply lookup_delete_Some in H as [_ H].
      apply (Hd _ _ H).
Qed.

(** X11: with a fixed schema, the dependency index stays consistent under
    every sequence of registrations and unregistrations in which a key
    always names the same query (as a fingerprint does): the reverse map
    lists a key under a collection exactly when the key's forward entry
    has the collection. *)
Theorem index_stays_consistent payloadConfig ops :
  keys_name_one_query ops ->
  consistent (index_run payloadConfig initial ops).
Proof.
  intros Hone.
  assert (H : forall rest c,
             (forall op, In op rest -> In op ops) ->
             index_inv payloadConfig ops c ->
             index_inv payloadConfig ops (fold_left (index_step payloadConfig)
                                            rest c)).
  { induction rest as [|op rest IH]; intros c Hsub Hinv; [exact Hinv|].
    cbn [fold_left]. apply IH.
    - intros op' Hop'. apply Hsub. right. exact Hop'.
    - apply index_inv_step; [exact Hone|apply Hsub; left; reflexivity|exact Hinv]. }
  apply (H ops initial); [auto|]. split; [apply consistent_initial|].
  intros key d Hd. cbn [deps initial] in Hd. rewrite lookup_empty in Hd.
  discriminate Hd.
Qed.

Lemma index_stays_consistent_witness :
  consistent
    (index_run mockPayloadConfig initial
       [Register "find.tasks.k" "tasks" assignee_populate VUndef;
        Unregister "find.tasks.k"]).
Proof.
  apply index_stays_consistent.
  intros key c1 p1 w1 c2 p2 w2 H1 H2. simpl in H1, H2.
  destruct H1 as [H1|[H1|[]]]; [|discriminate H1].
  destruct H2 as [H2|[H2|[]]]; [|discriminate H2].
  injection H1 as _ <- <- <-. injection H2 as _ <- <- <-. auto.
Defined.

End RegistryProofs.

(** ** The three publishers *)
Module PublishersProofs.
Import JS QueryMatcher IncrementalPublisher SchemaDeps Subscriptions.
Import DependencyTracker SubscriptionManager Registry Publishers.
Import SchemaDepsProofs SubscriptionsProofs RegistryProofs.

(** X12: [populateDocument] writes nothing; it rejects only for a
    document that is [null] or [undefined]; it fulfils with the document
    it was given or with the one [findByID] returned; and it queries at
    most once, and only when [needsPopulation] says so (a document whose
    populate fields all hold objects with an id is not fetched again). *)
Theorem populate_only_when_needed findByID doc collection populateConfig w :
  let r := populateDocument findByID doc collection populateConfig w in
  written (snd r) = written w
  /\ (fst r = None -> is_undefined doc || is_null doc = true)
  /\ (forall d, fst r = Some d ->
        d = doc \/ findByID collection (get doc "id") populateConfig = Some d)
  /\ (fetched (snd r) = fetched w
      \/ needsPopulation doc populateConfig = Some true
         /\ fetched (snd r)
            = (fetched w ++ [(collection, get doc "id", populateConfig)])%list).
Proof.
  cbv zeta. unfold populateDocument.
  destruct (negb (truthy populateConfig) || _).
  { cbn [fst snd]. repeat split; try discriminate; auto.
    intros d [= <-]. auto. }
  destruct (is_undefined doc || is_null doc) eqn:Hnull.
  { cbn [fst snd]. repeat split; try discriminate; auto. }
  destruct (needsPopulation doc populateConfig) as [[|]|].
  - destruct (findByID collection (get doc "id") populateConfig) as [p|] eqn:Hf;
      cbn [fst snd written fetched];
      (split; [reflexivity|]); (split; [discriminate|]); split; auto;
      intros d [= <-]; auto.
  - cbn [fst snd]. repeat split; try discriminate; auto.
    intros d [= <-]. auto.
  - cbn [fst snd]. repeat split; try discriminate; auto.
    intros d [= <-]. auto.
Qed.

Section Payload.
Variable findByID : string -> value -> value -> option value.
Variable now : Z.

Lemma populateDocument_fst doc collection populateConfig w :
  fst (populateDocument findByID doc collection populateConfig w)
  = fst (populateDocument findByID doc collection populateConfig silent).
Proof.
  unfold populateDocument.
  destruct (negb (truthy populateConfig) || _); [reflexivity|].
  destruct (is_undefined doc || is_null doc); [reflexivity|].
  destruct (needsPopulation doc populateConfig) as [[|]|]; try reflexivity.
  destruct (findByID _ _ _); reflexivity.
Qed.

Lemma populateDocument_rejects doc collection populateConfig w :
  fst (populateDocument findByID doc collection populateConfig w) = None ->
  is_undefined doc || is_null doc = true.
Proof.
  unfold populateDocument.
  destruct (negb (truthy populateConfig) || _); [discriminate|].
  destruct (is_undefined doc || is_null doc); [reflexivity|].
  destruct (needsPopulation doc populateConfig) as [[|]|]; try discriminate.
  destruct (findByID _ _ _); discriminate.
Qed.

Lemma populateDocument_written doc collection populateConfig w :
  written (snd (populateDocument findByID doc collection populateConfig w))
  = written w.
Proof.
  unfold populateDocument.
  destruct (negb (truthy populateConfig) || _); [reflexivity|].
  destruct (is_undefined doc || is_null doc); [reflexivity|].
  destruct (needsPopulation doc populateConfig) as [[|]|]; try reflexivity.
  destruct (findByID _ _ _); reflexivity.
Qed.

(** The update one query contributes does not depend on what has been
    written or fetched so far. *)
Definition update_of (collection : string) (operation : Operation)
    (doc originalDoc : value) (query : Query) : option value :=
  fst (incrementalUpdate findByID collection operation doc originalDoc query
         silent).

Lemma incrementalUpdate_fst collection operation doc originalDoc query w :
  fst (incrementalUpdate findByID collection operation doc originalDoc query w)
  = update_of collection operation doc originalDoc query.
Proof.
  unfold update_of, incrementalUpdate.
  destruct (negb _); [reflexivity|].
  destruct (queryType query); try reflexivity;
    (destruct (is_undefined _ || is_null _); [reflexivity|]);
    (destruct (classify _ _ _ _) as [[changeType|] relevantDoc];
     [|reflexivity]);
    (destruct changeType; try reflexivity);
    (destruct (truthy (get (params query) "populate")); [|reflexivity]);
    pose proof (populateDocument_fst relevantDoc collection
                  (get (params query) "populate") w) as Hp;
    destruct (populateDocument _ _ _ _ w) as [f1 w1];
    destruct (populateDocument _ _ _ _ silent) as [f2 w2];
    cbn [fst] in Hp; subst f2; destruct f1; reflexivity.
Qed.

Lemma incrementalUpdate_written collection operation doc originalDoc query w :
  written
    (snd (incrementalUpdate findByID collection operation doc originalDoc
            query w))
  = written w.
Proof.
  unfold incrementalUpdate.
  destruct (negb _); [reflexivity|].
  destruct (queryType query); try reflexivity;
    (destruct (is_undefined _ || is_null _); [reflexivity|]);
    (destruct (classify _ _ _ _) as [[changeType|] relevantDoc];
     [|reflexivity]);
    (destruct changeType; try reflexivity);
    (destruct (truthy (get (params query) "populate")); [|reflexivity]);
    pose proof (populateDocument_written relevantDoc collection
                  (get (params query) "populate") w) as Hp;
    destruct (populateDocument _ _ _ _ w) as [f1 w1];
    cbn [snd] in Hp; destruct f1; exact Hp.
Qed.

(** The updates of one session, as a list comprehension. *)
Definition updates_of (collection : string) (operation : Operation)
    (doc originalDoc : value) (qs : list Query) : list value :=
  flat_map
    (fun query =>
       match update_of collection operation doc originalDoc query with
       | Some u => [u]
       | None => []
       end)
    qs.

Lemma incrementalUpdates_spec collection operation doc originalDoc qs w :
  fst (incrementalUpdates findByID collection operation doc originalDoc qs w)
  = updates_of collection operation doc originalDoc qs
  /\ written
       (snd (incrementalUpdates findByID collection operation doc originalDoc
               qs w))
     = written w.
Proof.
  revert w. induction qs as [|query rest IH]; intros w; [split; reflexivity|].
  cbn [incrementalUpdates updates_of flat_map].
  pose proof (incrementalUpdate_fst collection operation doc originalDoc query w)
    as Hf.
  pose proof (incrementalUpdate_written collection operation doc originalDoc
                query w) as Hw.
  destruct (incrementalUpdate _ _ _ _ _ query w) as [u w1].
  cbn [fst snd] in Hf, Hw. rewrite <- Hf.
  destruct (IH w1) as [IHf IHw].
  destruct (incrementalUpdates _ _ _ _ _ rest w1) as [us w2].
  cbn [fst snd] in *. rewrite IHw, Hw. split; [|reflexivity].
  unfold updates_of in IHf. rewrite <- IHf. destruct u; reflexivity.
Qed.

(** What [send] puts on the wire. *)
Definition outgoing (clients : gset string) (session : SessionSubscription)
    (type : string) (updates : list value) : list (string * value) :=
  match updates with
  | [] => []
  | _ =>
      if bool_decide (clientId session ∈ clients)
      then [(clientId session,
             VObj [("type", VStr type); ("updates", VArr updates);
                   ("timestamp", VNum now)])]
      else []
  end.

Lemma send_spec clients session type updates w :
  written (send now clients session type updates w)
  = (written w ++ outgoing clients session type updates)%list
  /\ fetched (send now clients session type updates w) = fetched w.
Proof.
  unfold send, outgoing. destruct updates as [|u us].
  - rewrite app_nil_r. split; reflexivity.
  - destruct (bool_decide _); cbn [write written fetched];
      rewrite ?app_nil_r; split; reflexivity.
Qed.

(** The messages of [publishIncrementalUpdates], session by session. *)
Lemma incremental_written c clients collection operation doc originalDoc w :
  written
    (publishIncrementalUpdates findByID now c clients collection operation doc
       originalDoc w)
  = (written w
     ++ flat_map
          (fun session =>
             outgoing clients session "incremental_updates"
               (updates_of collection operation doc originalDoc
                  (queries session)))
          (getSessionsForCollection c collection))%list.
Proof.
  unfold publishIncrementalUpdates.
  generalize (getSessionsForCollection c collection). intros ss. revert w.
  induction ss as [|session rest IH]; intros w; cbn [fold_left flat_map].
  - rewrite app_nil_r. reflexivity.
  - rewrite IH.
    destruct (incrementalUpdates_spec collection operation doc originalDoc
                (queries session) w) as [Hf Hw].
    destruct (incrementalUpdates _ _ _ _ _ (queries session) w) as [us w1].
    cbn [fst snd] in Hf, Hw.
    destruct (send_spec clients session "incremental_updates" us w1) as [-> _].
    rewrite Hw, Hf, app_assoc. reflexivity.
Qed.


Lemma update_of_sound collection operation doc originalDoc query u :
  update_of collection operation doc originalDoc query = Some u ->
  exists changeType relevantDoc data,
    Subscriptions.collection query = collection
    /\ queryType query <> Count
    /\ is_undefined (params query) || is_null (params query) = false
    /\ classify operation doc originalDoc (params query)
       = (Some changeType, relevantDoc)
    /\ u = VObj [("queryKey", VStr (queryKey query));
                 ("changeType", VStr (changeType_name changeType));
                 ("data", data)]
    /\ (changeType = DeleteChange
        \/ truthy (get (params query) "populate") = false ->
        data = relevantDoc).
Proof.
  unfold update_of, incrementalUpdate.
  destruct (String.eqb_spec (Subscriptions.collection query) collection)
    as [Hc|Hc]; cbn [negb fst]; [|discriminate].
  destruct (queryType query) eqn:Ht; cbn [fst]; try discriminate;
    (destruct (is_undefined _ || is_null _) eqn:Hn; cbn [fst];
     [discriminate|]);
    (destruct (classify _ _ _ _) as [[changeType|] relevantDoc] eqn:Hcl;
     cbn [fst]; [|discriminate]);
    intros H; exists changeType, relevantDoc;
    (destruct (truthy (get (params query) "populate")) eqn:Hpop;
     [destruct changeType;
      try (destruct (populateDocument _ _ _ _ _) as [[data|] w1];
           cbn [fst] in H; [|discriminate H]; injection H as <-;
           exists data; repeat split; try congruence;
           intros [?|?]; discriminate);
      cbn [fst] in H; injection H as <-; exists relevantDoc;
      repeat split; congruence
     |destruct changeType; cbn [fst] in H; injection H as <-;
      exists relevantDoc; repeat split; congruence]).
Qed.

Lemma in_updates_of collection operation doc originalDoc qs u :
  In u (updates_of collection operation doc originalDoc qs)
  <-> exists query,
        In query qs
        /\ update_of collection operation doc originalDoc query = Some u.
Proof.
  unfold updates_of. rewrite in_flat_map. split.
  - intros (query & Hin & Hu). exists query. split; [exact Hin|].
    destruct (update_of _ _ _ _ query); [|destruct Hu].
    destruct Hu as [<-|[]]. reflexivity.
  - intros (query & Hin & Hu). exists query. split; [exact Hin|].
    rewrite Hu. left. reflexivity.
Qed.

(** A message of the incremental publisher for one mutation: it goes to
    a connected client, on behalf of a session that has a query on the
    collection, is not empty, and each of its updates is the
    classification of the change against a [find] or [findByID] query of
    that session on the collection. *)
Definition targeted (c : State) (clients : gset string) (collection : string)
    (operation : Operation) (doc originalDoc : value)
    (entry : string * value) : Prop :=
  fst entry ∈ clients
  /\ exists session updates,
       In session (getSessionsForCollection c collection)
       /\ clientId session = fst entry
       /\ snd entry
          = VObj [("type", VStr "incremental_updates");
                  ("updates", VArr updates); ("timestamp", VNum now)]
       /\ updates <> []
       /\ Forall
            (fun u =>
               exists query changeType relevantDoc,
                 In query (queries session)
                 /\ Subscriptions.collection query = collection
                 /\ queryType query <> Count
                 /\ classify operation doc originalDoc (params query)
                    = (Some changeType, relevantDoc)
                 /\ get u "queryKey" = VStr (queryKey query)
                 /\ get u "changeType" = VStr (changeType_name changeType))
            updates.

(** X13: whatever [publishIncrementalUpdates] writes is targeted: count
    queries, queries on other collections and sessions that are not
    connected never get an incremental update, and no empty message is
    sent. *)
Theorem incremental_updates_are_targeted c clients collection operation doc
    originalDoc w :
  exists added,
    written
      (publishIncrementalUpdates findByID now c clients collection operation
         doc originalDoc w)
    = (written w ++ added)%list
    /\ Forall (targeted c clients collection operation doc originalDoc) added.
Proof.
  rewrite incremental_written. eexists. split; [reflexivity|].
  apply List.Forall_forall. intros [id message] Hin.
  apply in_flat_map in Hin as (session & Hsession & Hout).
  unfold outgoing in Hout.
  destruct (updates_of _ _ _ _ (queries session)) as [|u us] eqn:Hus;
    [destruct Hout|].
  case_bool_decide as Hconn; [|destruct Hout].
  destruct Hout as [[= <- <-]|[]].
  split; [exact Hconn|]. exists session, (u :: us).
  repeat split; try assumption; try discriminate.
  rewrite <- Hus. apply List.Forall_forall. intros u' Hu'.
  apply in_updates_of in Hu' as (query & Hq & Hu').
  apply update_of_sound in Hu'
    as (changeType & relevantDoc & data & Hc & Ht & _ & Hcl & -> & _).
  exists query, changeType, relevantDoc. repeat split; assumption.
Qed.

Lemma update_of_delete collection doc originalDoc query w :
  snd (incrementalUpdate findByID collection Delete doc originalDoc query w) = w
  /\ (truthy originalDoc = false
      -> update_of collection Delete doc originalDoc query = None)
  /\ forall u,
       update_of collection Delete doc originalDoc query = Some u ->
       get u "changeType" = VStr "delete" /\ get u "data" = originalDoc.
Proof.
  unfold update_of, incrementalUpdate, classify.
  destruct (negb _); [repeat split; try reflexivity; discriminate|].
  destruct (queryType query);
    try (repeat split; try reflexivity; discriminate);
    (destruct (is_undefined _ || is_null _);
     [repeat split; try reflexivity; discriminate|]);
    (destruct (truthy originalDoc);
     [|repeat split; try reflexivity; discriminate]);
    cbn [andb];
    (destruct (documentMatchesQuery originalDoc (params query));
     [|repeat split; try reflexivity; discriminate]);
    cbn [fst snd]; (split; [reflexivity|]); (split; [discriminate|]);
    intros u [= <-]; split; reflexivity.
Qed.

(** X14: publishing a delete never queries the database; each of its
    updates is a [delete] carrying the stored original document; and when
    no original document was stored for the request, nothing is written
    at all, whichever queries the deleted document matched. *)
Theorem deletes_carry_the_original c clients collection doc originalDoc w :
  let w' :=
    publishIncrementalUpdates findByID now c clients collection Delete doc
      originalDoc w in
  fetched w' = fetched w
  /\ (truthy originalDoc = false -> w' = w)
  /\ exists added,
       written w' = (written w ++ added)%list
       /\ Forall
            (fun entry =>
               exists updates,
                 get (snd entry) "updates" = VArr updates
                 /\ Forall
                      (fun u => get u "changeType" = VStr "delete"
                                /\ get u "data" = originalDoc)
                      updates)
            added.
Proof.
  cbv zeta.
  assert (Hsnd : forall qs w0,
             snd (incrementalUpdates findByID collection Delete doc originalDoc
                    qs w0) = w0).
  { induction qs as [|query rest IH]; intros w0; [reflexivity|].
    cbn [incrementalUpdates].
    destruct (update_of_delete collection doc originalDoc query w0) as [Hq _].
    destruct (incrementalUpdate _ _ _ _ _ query w0) as [u w1].
    cbn [snd] in Hq. subst w1. specialize (IH w0).
    destruct (incrementalUpdates _ _ _ _ _ rest w0) as [us w2].
    exact IH. }
  split; [|split].
  - unfold publishIncrementalUpdates.
    generalize (getSessionsForCollection c collection). intros ss. revert w.
    induction ss as [|session rest IH]; intros w; [reflexivity|].
    cbn [fold_left]. rewrite IH. specialize (Hsnd (queries session) w).
    destruct (incrementalUpdates _ _ _ _ _ (queries session) w) as [us w1].
    cbn [snd] in Hsnd. subst w1. apply send_spec.
  - intros Hmissing. unfold publishIncrementalUpdates.
    generalize (getSessionsForCollection c collection). intros ss. revert w.
    induction ss as [|session rest IH]; intros w; [reflexivity|].
    cbn [fold_left].
    destruct (incrementalUpdates_spec collection Delete doc originalDoc
                (queries session) w) as [Hf _].
    specialize (Hsnd (queries session) w).
    destruct (incrementalUpdates _ _ _ _ _ (queries session) w) as [us w1].
    cbn [fst snd] in Hf, Hsnd. subst w1.
    assert (Hnone : us = []).
    { rewrite Hf. unfold updates_of. clear Hf.
      induction (queries session) as [|query qs IHq]; [reflexivity|].
      cbn [flat_map].
      destruct (update_of_delete collection doc originalDoc query w)
        as (_ & Hq & _).
      rewrite (Hq Hmissing). exact IHq. }
    rewrite Hnone. apply IH.
  - rewrite incremental_written. eexists. split; [reflexivity|].
    apply List.Forall_forall. intros [id message] Hin.
    apply in_flat_map in Hin as (session & _ & Hout). unfold outgoing in Hout.
    destruct (updates_of _ _ _ _ (queries session)) as [|u us] eqn:Hus;
      [destruct Hout|].
    case_bool_decide; [|destruct Hout]. destruct Hout as [[= <- <-]|[]].
    exists (u :: us). split; [reflexivity|]. rewrite <- Hus.
    apply List.Forall_forall. intros u' Hu'.
    apply in_updates_of in Hu' as (query & _ & Hu').
    apply (update_of_delete collection doc originalDoc query w). exact Hu'.
Qed.

(** X15: a created document reaches every interested client: when a
    connected session has a [find] or [findByID] query on the collection
    whose filter the new document matches, the session's message carries
    an [insert] for that query, with the document itself when the query
    populates nothing. *)
Theorem matching_create_is_delivered c clients collection doc originalDoc
    session query w :
  In session (getAllSessions c) ->
  clientId session ∈ clients ->
  In query (queries session) ->
  Subscriptions.collection query = collection ->
  queryType query <> Count ->
  is_undefined (params query) || is_null (params query) = false ->
  is_undefined doc || is_null doc = false ->
  documentMatchesQuery doc (params query) = true ->
  exists updates data,
    In (clientId session,
        VObj [("type", VStr "incremental_updates"); ("updates", VArr updates);
              ("timestamp", VNum now)])
      (written
         (publishIncrementalUpdates findByID now c clients collection Create
            doc originalDoc w))
    /\ In (VObj [("queryKey", VStr (queryKey query));
                 ("changeType", VStr "insert"); ("data", data)])
         updates
    /\ (truthy (get (params query) "populate") = false -> data = doc).
Proof.
  intros Hsession Hconn Hquery Hcoll Htype Hparams Hdoc Hmatch.
  assert (Hupd : exists data,
             update_of collection Create doc originalDoc query
             = Some (VObj [("queryKey", VStr (queryKey query));
                           ("changeType", VStr "insert"); ("data", data)])
             /\ (truthy (get (params query) "populate") = false -> data = doc)).
  { unfold update_of, incrementalUpdate. rewrite Hcoll, String.eqb_refl.
    cbn [negb]. unfold classify. rewrite Hmatch, Hparams.
    assert (Hpop : exists data,
               fst (let '(finalDoc, w1) :=
                      if truthy (get (params query) "populate")
                      then populateDocument findByID doc collection
                             (get (params query) "populate") silent
                      else (Some doc, silent) in
                    match finalDoc with
                    | Some data =>
                        (Some (VObj [("queryKey", VStr (queryKey query));
                                     ("changeType",
                                      VStr (changeType_name Insert));
                                     ("data", data)]), w1)
                    | None => (None, w1)
                    end)
               = Some (VObj [("queryKey", VStr (queryKey query));
                             ("changeType", VStr "insert"); ("data", data)])
               /\ (truthy (get (params query) "populate") = false
                   -> data = doc)).
    { destruct (truthy (get (params query) "populate")).
      - pose proof (populateDocument_rejects doc collection
                      (get (params query) "populate") silent) as Hnone.
        destruct (populateDocument _ _ _ _ _) as [[data|] w1].
        + exists data. split; [reflexivity|discriminate].
        + rewrite Hnone in Hdoc by reflexivity. discriminate Hdoc.
      - exists doc. split; [reflexivity|auto]. }
    destruct (queryType query); [exact Hpop|exact Hpop|congruence]. }
  destruct Hupd as (data & Hupd & Hdata).
  exists (updates_of collection Create doc originalDoc (queries session)), data.
  split; [|split; [|exact Hdata]].
  - rewrite incremental_written. apply in_or_app. right.
    apply in_flat_map. exists session. split.
    + unfold getSessionsForCollection. unfold getAllSessions in Hsession.
      apply in_map_iff in Hsession as (x & <- & Hx).
      apply in_map, filter_In. split; [exact Hx|].
      apply existsb_exists. exists query. split; [exact Hquery|].
      rewrite Hcoll. apply String.eqb_refl.
    + unfold outgoing.
      assert (Hin : In (VObj [("queryKey", VStr (queryKey query));
                              ("changeType", VStr "insert"); ("data", data)])
                      (updates_of collection Create doc originalDoc
                         (queries session))).
      { apply in_updates_of. exists query. split; assumption. }
      destruct (updates_of _ _ _ _ (queries session)); [destruct Hin|].
      rewrite bool_decide_eq_true_2 by exact Hconn. left. reflexivity.
  - apply in_updates_of. exists query. split; assumption.
Qed.

(** X16: the count publisher, session by session: every session that is
    connected and has a count query on the collection gets one
    [count_updates] message naming each of its count queries on that
    collection, whatever the operation and the document were; nobody else
    gets anything. *)
Theorem count_invalidation_per_session c clients collection w :
  written (publishCountUpdates now c clients collection w)
  = (written w
     ++ flat_map
          (fun session =>
             outgoing clients session "count_updates"
               (countUpdates collection (queries session)))
          (getAllSessions c))%list
  /\ fetched (publishCountUpdates now c clients collection w) = fetched w.
Proof.
  unfold publishCountUpdates, getSessionsForCollection, getAllSessions,
    getSessions.
  revert w. induction (sessions c) as [|[id session] rest IH]; intros w.
  - cbn. rewrite app_nil_r. split; reflexivity.
  - cbn [List.filter map flat_map snd].
    destruct (existsb _ (queries session)) eqn:Hany.
    + cbn [map fold_left snd]. destruct (IH (send now clients session
                                              "count_updates"
                                              (countUpdates collection
                                                 (queries session)) w))
        as [-> ->].
      destruct (send_spec clients session "count_updates"
                  (countUpdates collection (queries session)) w) as [-> ->].
      rewrite app_assoc. split; reflexivity.
    + assert (Hnone : countUpdates collection (queries session) = []).
      { unfold countUpdates. clear IH.
        induction (queries session) as [|query qs IHq]; [reflexivity|].
        cbn [existsb] in Hany. apply orb_false_iff in Hany as [Hq Hqs].
        cbn [flat_map]. rewrite Hq. cbn [negb orb]. apply IHq. exact Hqs. }
      rewrite Hnone. cbn [outgoing app]. apply IH.
Qed.

End Payload.


Definition new_task : value :=
  VObj [("id", VStr "t1"); ("name", VStr "Write report");
        ("assignee", VObj [("id", VStr "u1"); ("name", VStr "Ann")])].

Lemma matching_create_is_delivered_witness :
  exists updates data,
    In ("client-1",
        VObj [("type", VStr "incremental_updates"); ("updates", VArr updates);
              ("timestamp", VNum 7)])
      (written
         (publishIncrementalUpdates (fun _ _ _ => None) 7 one_session
            {["client-1"]} "tasks" Create new_task VUndef silent))
    /\ In (VObj [("queryKey", VStr "find.tasks.k");
                 ("changeType", VStr "insert"); ("data", data)])
         updates
    /\ (truthy (get assignee_params "populate") = false -> data = new_task).
Proof.
  refine (matching_create_is_delivered (fun _ _ _ => None) 7 one_session
            {["client-1"]} "tasks" new_task VUndef
            {| clientId := "client-1";
               queries :=
                 [{| queryKey := "find.tasks.k"; collection := "tasks";
                     queryType := Find; params := assignee_params;
                     lastSyncTime := 0 |}];
               lastActivity := 0 |}
            {| queryKey := "find.tasks.k"; collection := "tasks";
               queryType := Find; params := assignee_params;
               lastSyncTime := 0 |}
            silent _ _ _ _ _ _ _ _).
  - vm_compute. left. reflexivity.
  - simpl. apply elem_of_singleton. reflexivity.
  - left. reflexivity.
  - reflexivity.
  - discriminate.
  - reflexivity.
  - reflexivity.
  - reflexivity.
Defined.

(** The created task as the mutation returns it, with the assignee as an
    id, and a [findByID] that answers with the populated task. *)
Definition unpopulated_task : value :=
  VObj [("id", VStr "t1"); ("name", VStr "Write report");
        ("assignee", VStr "u1")].

Definition populated_lookup (collection : string) (id populate_ : value)
  : option value :=
  Some new_task.

Lemma populate_only_when_needed_witness :
  new_task = unpopulated_task
  \/ populated_lookup "tasks" (get unpopulated_task "id") assignee_populate
     = Some new_task.
Proof.
  pose proof (populate_only_when_needed populated_lookup unpopulated_task
                "tasks" assignee_populate silent) as H.
  cbv zeta in H. destruct H as (_ & _ & H & _). apply H. reflexivity.
Defined.

Lemma deletes_carry_the_original_witness :
  publishIncrementalUpdates (fun _ _ _ => None) 7 one_session {["client-1"]}
    "tasks" Delete new_task VUndef silent
  = silent.
Proof.
  pose proof (deletes_carry_the_original (fun _ _ _ => None) 7 one_session
                {["client-1"]} "tasks" new_task VUndef silent) as H.
  cbv zeta in H. destruct H as (_ & H & _). apply H. reflexivity.
Defined.

(** *** The cross-collection publisher *)

(** The query is on another collection and its populate keys or its
    where paths name the changed collection in the publisher's tables. *)
Definition named_dependency (changedCollection : string) (query : Query)
  : Prop :=
  Subscriptions.collection query <> changedCollection
  /\ checkPopulateAffected query changedCollection
     || checkWhereClauseAffected (get (params query) "where") changedCollection
     = true.

Lemma determine_invalidate query changedCollection :
  determineQueryChangeType query changedCollection = Returned true ->
  named_dependency changedCollection query.
Proof.
  unfold determineQueryChangeType, named_dependency.
  destruct (String.eqb_spec (Subscriptions.collection query) changedCollection)
    as [|Hne]; [discriminate|].
  destruct (is_undefined _ || is_null _); [discriminate|].
  destruct (truthy (get (params query) "populate")); cbn [andb].
  - destruct (checkPopulateAffected query changedCollection);
      [intros _; split; [exact Hne|reflexivity]|].
    destruct (truthy (get (params query) "where")); cbn [andb];
      [|discriminate].
    destruct (checkWhereClauseAffected _ _); [|discriminate].
    intros _. split; [exact Hne|reflexivity].
  - destruct (truthy (get (params query) "where")); cbn [andb];
      [|discriminate].
    destruct (checkWhereClauseAffected _ _); [|discriminate].
    intros _. split; [exact Hne|apply orb_true_r].
Qed.

Lemma determine_throws query changedCollection e :
  determineQueryChangeType query changedCollection = Thrown e ->
  Subscriptions.collection query <> changedCollection
  /\ is_undefined (params query) || is_null (params query) = true.
Proof.
  unfold determineQueryChangeType.
  destruct (String.eqb_spec (Subscriptions.collection query) changedCollection)
    as [|Hne]; [discriminate|].
  destruct (is_undefined _ || is_null _); [auto|].
  destruct (_ && _); [discriminate|]. destruct (_ && _); discriminate.
Qed.

(** An element of [affectedUpdates] that the loops can produce. *)
Definition justified (c : State) (changedCollection : string)
    (keys_ : list string) (u : Affected) : Prop :=
  a_changeType u = "invalidate"
  /\ In (a_queryKey u) keys_
  /\ exists session query,
       In session (getAllSessions c)
       /\ In query (queries session)
       /\ queryKey query = a_queryKey u
       /\ named_dependency changedCollection query.

(** The stored query that makes the publisher throw. *)
Definition unreadable (c : State) (changedCollection : string) : Prop :=
  exists session query,
    In session (getAllSessions c)
    /\ In query (queries session)
    /\ Subscriptions.collection query <> changedCollection
    /\ is_undefined (params query) || is_null (params query) = true.

Lemma find_query_In key qs query :
  List.find (fun q => String.eqb (queryKey q) key) qs = Some query ->
  In query qs /\ queryKey query = key.
Proof.
  intros H. apply find_some in H as [Hin Heq]. split; [exact Hin|].
  apply String.eqb_eq. exact Heq.
Qed.

Lemma affectedSessions_sound c changedCollection key ss :
  (forall session, In session ss -> In session (getAllSessions c)) ->
  match affectedSessions changedCollection key ss with
  | Returned us => Forall (justified c changedCollection [key]) us
  | Thrown _ => unreadable c changedCollection
  end.
Proof.
  induction ss as [|session rest IH]; intros Hsub; cbn [affectedSessions];
    [constructor|].
  assert (Hrest : forall s, In s rest -> In s (getAllSessions c))
    by (intros s Hs; apply Hsub; right; exact Hs).
  specialize (IH Hrest).
  destruct (List.find _ (queries session)) as [query|] eqn:Hfind;
    [|exact IH].
  apply find_query_In in Hfind as [Hq Hkey].
  destruct (determineQueryChangeType query changedCollection)
    as [invalidate|e] eqn:Hdet.
  - destruct (affectedSessions changedCollection key rest) as [more|e];
      [|exact IH].
    destruct invalidate; [|exact IH]. constructor; [|exact IH].
    split; [reflexivity|]. split; [left; reflexivity|].
    exists session, query. repeat split; try assumption.
    + apply Hsub. left. reflexivity.
    + apply (determine_invalidate _ _ Hdet).
    + apply (determine_invalidate _ _ Hdet).
  - apply determine_throws in Hdet as [Hne Hnull].
    exists session, query. repeat split; try assumption.
    apply Hsub. left. reflexivity.
Qed.

Lemma justified_mono c changedCollection keys1 keys2 u :
  (forall k, In k keys1 -> In k keys2) ->
  justified c changedCollection keys1 u -> justified c changedCollection keys2 u.
Proof.
  intros Hsub (H1 & H2 & H3). split; [exact H1|]. split; [auto|exact H3].
Qed.

Lemma affectedUpdates_sound c changedCollection keys_ :
  match affectedUpdates c changedCollection keys_ with
  | Returned us => Forall (justified c changedCollection keys_) us
  | Thrown _ => unreadable c changedCollection
  end.
Proof.
  induction keys_ as [|key rest IH]; cbn [affectedUpdates]; [constructor|].
  pose proof (affectedSessions_sound c changedCollection key
                (getSessionsForQuery c key)) as Hhere.
  destruct (affectedSessions changedCollection key _) as [here|e].
  - destruct (affectedUpdates c changedCollection rest) as [more|e];
      [|exact IH].
    apply List.Forall_app. split.
    + eapply List.Forall_impl; [|apply Hhere].
      * intros u. apply justified_mono. intros k [<-|[]]. left. reflexivity.
      * intros session Hs. unfold getSessionsForQuery, getAllSessions in *.
        apply in_map_iff in Hs as (x & <- & Hx). apply in_map.
        apply filter_In in Hx as [Hx _]. exact Hx.
    + eapply List.Forall_impl; [|exact IH].
      intros u. apply justified_mono. intros k Hk. right. exact Hk.
  - apply Hhere. intros session Hs.
    unfold getSessionsForQuery, getAllSessions in *.
    apply in_map_iff in Hs as (x & <- & Hx). apply in_map.
    apply filter_In in Hx as [Hx _]. exact Hx.
Qed.

Section Clock.
Variable now : Z.

(** A message of the cross-collection publisher: it goes to a connected
    client, has type [cross_collection_updates], and each of its updates
    is an [invalidate] for a dependent query on another collection whose
    populate keys or where paths name the changed collection. *)
Definition invalidation (c : State) (clients : gset string)
    (changedCollection : string) (entry : string * value) : Prop :=
  fst entry ∈ clients
  /\ get (snd entry) "type" = VStr "cross_collection_updates"
  /\ exists updates,
       get (snd entry) "updates" = VArr updates
       /\ Forall
            (fun u =>
               get u "changeType" = VStr "invalidate"
               /\ exists session query,
                    In session (getAllSessions c)
                    /\ In query (queries session)
                    /\ get u "queryKey" = VStr (queryKey query)
                    /\ In (queryKey query)
                         (getQueriesDependingOn c changedCollection)
                    /\ named_dependency changedCollection query)
            updates.

Lemma filter_all {A} (f : A -> bool) l :
  Forall (fun x => f x = true) l -> List.filter f l = l.
Proof.
  induction 1 as [|x l Hx _ IH]; simpl; [reflexivity|].
  rewrite Hx, IH. reflexivity.
Qed.

Lemma filter_none {A} (f : A -> bool) l :
  Forall (fun x => f x = true) l -> List.filter (fun x => negb (f x)) l = [].
Proof.
  induction 1 as [|x l Hx _ IH]; simpl; [reflexivity|].
  rewrite Hx, IH. reflexivity.
Qed.

Lemma sendToSession_spec c clients changedCollection operation id sus w :
  Forall (justified c changedCollection
            (getQueriesDependingOn c changedCollection)) sus ->
  fetched (sendToSession now c clients changedCollection operation id sus w)
  = fetched w
  /\ exists added,
       written
         (sendToSession now c clients changedCollection operation id sus w)
       = (written w ++ added)%list
       /\ Forall (invalidation c clients changedCollection) added.
Proof.
  intros Hsus. unfold sendToSession.
  assert (Hinv : Forall (fun u => String.eqb (a_changeType u) "invalidate"
                                  = true) sus).
  { eapply List.Forall_impl; [|exact Hsus]. intros u (-> & _). reflexivity. }
  rewrite (filter_all _ _ Hinv), (filter_none _ _ Hinv).
  destruct sus as [|u sus'].
  { cbn [List.filter]. split; [reflexivity|]. exists []. rewrite app_nil_r.
    split; [reflexivity|constructor]. }
  destruct (getSession c id) as [session|];
    [|split; [reflexivity|]; exists []; rewrite app_nil_r;
      split; [reflexivity|constructor]].
  case_bool_decide as Hconn;
    [|split; [reflexivity|]; exists []; rewrite app_nil_r;
      split; [reflexivity|constructor]].
  cbn [write written fetched]. split; [reflexivity|].
  eexists. split; [reflexivity|]. constructor; [|constructor].
  split; [exact Hconn|]. split; [reflexivity|].
  exists (map wire_update (u :: sus')). split; [reflexivity|].
  apply List.Forall_map. eapply List.Forall_impl; [|exact Hsus].
  intros u' (Hct & Hkey & session' & query & Hs & Hq & Hk & Hnamed).
  split; [cbn; rewrite Hct; reflexivity|].
  exists session', query. repeat split; try assumption.
  - cbn. rewrite Hk. reflexivity.
  - rewrite Hk. exact Hkey.
  - apply Hnamed.
  - apply Hnamed.
Qed.

(** X17: whatever [publishCrossCollectionUpdates] writes is an
    invalidation for a connected client, about queries on other
    collections that the reverse index lists under the changed collection
    and whose populate keys or where paths name it in the publisher's
    tables; it never fetches.  It rejects only when some stored query on
    another collection has no [params]. *)
Theorem cross_collection_only_invalidates c clients changedCollection
    operation w :
  match
    publishCrossCollectionUpdates now c clients changedCollection operation w
  with
  | Returned w' =>
      fetched w' = fetched w
      /\ exists added,
           written w' = (written w ++ added)%list
           /\ Forall (invalidation c clients changedCollection) added
  | Thrown _ => unreadable c changedCollection
  end.
Proof.
  unfold publishCrossCollectionUpdates.
  pose proof (affectedUpdates_sound c changedCollection
                (getQueriesDependingOn c changedCollection)) as Hsound.
  destruct (affectedUpdates c changedCollection _) as [us|e]; [|exact Hsound].
  destruct us as [|u us'].
  { split; [reflexivity|]. exists []. rewrite app_nil_r.
    split; [reflexivity|constructor]. }
  unfold sendCrossCollectionUpdates.
  generalize (first_occurrences (map a_clientId (u :: us')) []).
  intros ids. revert w. induction ids as [|id rest IH]; intros w.
  { split; [reflexivity|]. exists []. rewrite app_nil_r.
    split; [reflexivity|constructor]. }
  cbn [fold_left].
  assert (Hgroup : Forall (justified c changedCollection
                             (getQueriesDependingOn c changedCollection))
                     (List.filter (fun u0 => String.eqb (a_clientId u0) id)
                        (u :: us'))).
  { apply List.Forall_forall. intros x Hx. apply filter_In in Hx as [Hx _].
    revert x Hx. apply List.Forall_forall. exact Hsound. }
  destruct (sendToSession_spec c clients changedCollection operation id _ w
              Hgroup) as (Hf1 & added1 & Hw1 & Ha1).
  destruct (IH (sendToSession now c clients changedCollection operation id
                  (List.filter (fun u0 => String.eqb (a_clientId u0) id)
                     (u :: us')) w)) as (Hf2 & added2 & Hw2 & Ha2).
  split; [rewrite Hf2; exact Hf1|].
  exists (added1 ++ added2)%list. split.
  - rewrite Hw2, Hw1, app_assoc. reflexivity.
  - apply List.Forall_app. split; assumption.
Qed.

(** X18: dependencies are registered from the schema but invalidations
    are decided by field name.  When a query populates a relationship
    field that the schema relates to another collection and the field's
    name is not listed for that collection in the publisher's table, the
    query is registered as depending on that collection, yet a change in
    that collection sends nothing. *)
Theorem unlisted_field_name_is_never_invalidated payloadConfig t id key
    collection f cc field target clients operation w :
  findCollection payloadConfig collection = Some cc ->
  findFieldInCollection f (fields cc) = Some field ->
  In target (getRelationshipTargets field) ->
  target <> collection ->
  maps_to populateFieldMapping f target = false ->
  let c :=
    registerSession payloadConfig t initial id key collection Find
      (VObj [("populate", VObj [(f, VBool true)])]) in
  getQueriesDependingOn c target = [key]
  /\ publishCrossCollectionUpdates now c clients target operation w
     = Returned w.
Proof.
  intros Hcc Hfield Htarget Hne Hname. cbv zeta.
  assert (Hdep : target
                 ∈ elements
                     (extractQueryDependencies
                        {| q_type := Find; q_collection := collection;
                           q_populate := VObj [(f, VBool true)];
                           q_where := VUndef |} payloadConfig)).
  { apply elem_of_elements. unfold extractQueryDependencies.
    cbn [q_collection q_type q_populate q_where truthy]. rewrite Hcc.
    apply populates_collected.
    eapply populates_field;
      [reflexivity|left; reflexivity|reflexivity|exact Hfield|exact Htarget]. }
  assert (Hkeys : getQueriesDependingOn
                    (registerSession payloadConfig t initial id key collection
                       Find (VObj [("populate", VObj [(f, VBool true)])]))
                    target = [key]).
  { unfold getQueriesDependingOn, registerSession, registerQueryDependencies.
    cbn [reverseDependencies addReverseDependencies addDependencies
         Subscriptions.addQueryToSession addSession getSession initial
         sessions get assoc String.eqb].
    change (get (VObj [("populate", VObj [(f, VBool true)])]) "populate")
      with (VObj [(f, VBool true)]).
    change (get (VObj [("populate", VObj [(f, VBool true)])]) "where")
      with VUndef.
    rewrite addReverse_fold_default.
    rewrite (bool_decide_eq_true_2 _ Hdep).
    change (getSession initial id) with (@None SessionSubscription).
    cbn [addSession reverseDependencies initial].
    rewrite lookup_empty. cbn [default].
    rewrite bool_decide_eq_false_2 by apply not_elem_of_nil. reflexivity. }
  split; [exact Hkeys|].
  unfold publishCrossCollectionUpdates. rewrite Hkeys.
  cbn [affectedUpdates].
  assert (Hsessions :
            getSessionsForQuery
              (registerSession payloadConfig t initial id key collection Find
                 (VObj [("populate", VObj [(f, VBool true)])])) key
            = [{| clientId := id;
                  queries :=
                    [{| queryKey := key; collection := collection;
                        queryType := Find;
                        params := VObj [("populate", VObj [(f, VBool true)])];
                        lastSyncTime := t |}];
                  lastActivity := t |}]).
  { unfold getSessionsForQuery, getSessions, registerSession,
      registerQueryDependencies.
    change (getSession initial id) with (@None SessionSubscription).
    cbn [sessions addReverseDependencies addDependencies
         Subscriptions.addQueryToSession addSession getSession initial
         List.find fmap option_fmap option_map replace_session app].
    cbn [fst]. rewrite String.eqb_refl. cbn [List.filter snd queries
      upsert_query existsb queryKey]. rewrite String.eqb_refl. reflexivity. }
  rewrite Hsessions. cbn [affectedSessions queries List.find queryKey].
  rewrite String.eqb_refl.
  unfold determineQueryChangeType, checkPopulateAffected.
  cbn [Subscriptions.collection params is_undefined is_null orb].
  destruct (String.eqb_spec collection target) as [Heq|_]; [congruence|].
  change (get (VObj [("populate", VObj [(f, VBool true)])]) "populate")
    with (VObj [(f, VBool true)]).
  change (get (VObj [("populate", VObj [(f, VBool true)])]) "where")
    with VUndef.
  cbn [truthy negb keys entries map fst existsb andb orb]. rewrite Hname.
  reflexivity.
Qed.

End Clock.

Lemma unlisted_field_name_is_never_invalidated_witness :
  getQueriesDependingOn
    (registerSession mockPayloadConfig 0 initial "client-1" "find.projects.k"
       "projects" Find (VObj [("populate", VObj [("owner", VBool true)])]))
    "users"
  = ["find.projects.k"]
  /\ publishCrossCollectionUpdates 7
       (registerSession mockPayloadConfig 0 initial "client-1"
          "find.projects.k" "projects" Find
          (VObj [("populate", VObj [("owner", VBool true)])]))
       {["client-1"]} "users" Update silent
     = Returned silent.
Proof.
  refine (unlisted_field_name_is_never_invalidated 7 mockPayloadConfig 0
            "client-1" "find.projects.k" "projects" "owner"
            {| slug := "projects";
               fields := [text_field "name";
                          relationship_field "owner" "users"] |}
            (relationship_field "owner" "users") "users" {["client-1"]}
            Update silent _ _ _ _ _).
  - reflexivity.
  - reflexivity.
  - left. reflexivity.
  - discriminate.
  - reflexivity.
Defined.

End PublishersProofs.

(** ** Reading a fingerprint back *)
Module QueryHashDecodingProofs.
Import JS QueryHash QueryHashDecoding QueryHashProofs QueryMatcherEdges.

Lemma append_assoc' (a b c : string) : (a ++ b) ++ c = a ++ (b ++ c).
Proof.
  induction a as [|x a IH]; rewrite ?append_nil, ?append_cons;
    [reflexivity|]. rewrite IH. reflexivity.
Qed.

Lemma rev_app_append a b s : String.rev_app a b ++ s = String.rev_app a (b ++ s).
Proof.
  revert b. induction a as [|x a IH]; intros b; cbn [String.rev_app];
    [reflexivity|]. rewrite IH, append_cons. reflexivity.
Qed.

Lemma split_go_dot_free cur s :
  dot_free s = true -> split_go "." cur s = [String.rev cur ++ s].
Proof.
  revert cur. induction s as [|c s IH]; intros cur Hd; cbn [split_go].
  - unfold String.rev. rewrite rev_app_append, append_nil. reflexivity.
  - cbn [dot_free] in Hd. apply andb_true_iff in Hd as [Hc Hs].
    apply negb_true_iff in Hc. rewrite Hc, (IH _ Hs). unfold String.rev.
    cbn [String.rev_app]. rewrite !rev_app_append, append_cons, !append_nil.
    reflexivity.
Qed.

Lemma split_dot_free s : dot_free s = true -> split "." s = [s].
Proof. intros H. unfold split. rewrite (split_go_dot_free _ _ H). reflexivity. Qed.

(** A fingerprint with dot-free parts splits into exactly its three
    parts. *)
Lemma split_three a b e :
  dot_free a = true -> dot_free b = true -> dot_free e = true ->
  split "." (a ++ "." ++ b ++ "." ++ e) = [a; b; e].
Proof.
  intros Ha Hb He. unfold split.
  change ("." ++ b ++ "." ++ e) with (String "." (b ++ "." ++ e)).
  rewrite split_go_app.
  change ("." ++ e) with (String "." e). rewrite split_go_app.
  rewrite !split_go_dot_free by assumption. reflexivity.
Qed.

Fixpoint count_dots (s : string) : nat :=
  match s with
  | EmptyString => 0
  | String c s' => (if Ascii.eqb c "." then 1 else 0) + count_dots s'
  end.

Lemma length_split_go cur s :
  List.length (split_go "." cur s) = S (count_dots s).
Proof.
  revert cur. induction s as [|c s IH]; intros cur; cbn [split_go count_dots];
    [reflexivity|].
  destruct (Ascii.eqb c "."); cbn [List.length]; rewrite IH; reflexivity.
Qed.

Lemma count_dots_app a b :
  count_dots (a ++ b) = (count_dots a + count_dots b)%nat.
Proof.
  induction a as [|c a IH]; rewrite ?append_nil, ?append_cons;
    [reflexivity|]. cbn [count_dots]. rewrite IH. lia.
Qed.

Lemma dot_free_count s : dot_free s = false -> (1 <= count_dots s)%nat.
Proof.
  induction s as [|c s IH]; cbn [dot_free count_dots]; [discriminate|].
  destruct (Ascii.eqb c "."); cbn [negb andb]; [lia|].
  intros H. specialize (IH H). lia.
Qed.

Lemma replace_char_cons a b c s :
  replace_char a b (String c s)
  = String (if Ascii.eqb c a then b else c) (replace_char a b s).
Proof. reflexivity. Qed.

Lemma remove_char_cons x c s :
  remove_char x (String c s)
  = if Ascii.eqb c x then remove_char x s else String c (remove_char x s).
Proof. unfold remove_char. cbn. destruct (Ascii.eqb c x); reflexivity. Qed.

(** [s.replace(/\+/g, '-').replace(/\//g, '_')] and its inverse. *)
Definition url_safe (s : string) : string :=
  replace_char "/" "_" (replace_char "+" "-" s).

Definition url_unsafe (s : string) : string :=
  replace_char "_" "/" (replace_char "-" "+" s).

Lemma base64_char_cases c :
  base64_char c = true ->
  Ascii.eqb c "-" = false /\ Ascii.eqb c "_" = false
  /\ Ascii.eqb c "=" = false /\ Ascii.eqb c "." = false.
Proof.
  unfold base64_char. rewrite negb_true_iff, !orb_false_iff. tauto.
Qed.

Lemma url_safe_padded body n :
  base64_body body = true ->
  remove_char "=" (url_safe (body ++ string_of_list_ascii (repeat "="%char n)))
  = url_safe body.
Proof.
  unfold url_safe. induction body as [|c body IH]; intros Hb.
  - rewrite append_nil. induction n as [|n IHn]; [reflexivity|].
    cbn [repeat string_of_list_ascii].
    rewrite !replace_char_cons, remove_char_cons. exact IHn.
  - cbn [base64_body] in Hb. apply andb_true_iff in Hb as [Hc Hb].
    apply base64_char_cases in Hc as (_ & _ & Heq & _).
    rewrite append_cons, !replace_char_cons, remove_char_cons, (IH Hb).
    destruct (Ascii.eqb_spec c "+") as [->|_]; [reflexivity|].
    destruct (Ascii.eqb_spec c "/") as [->|_]; [reflexivity|].
    rewrite Heq. reflexivity.
Qed.

Lemma url_unsafe_safe body :
  base64_body body = true -> url_unsafe (url_safe body) = body.
Proof.
  unfold url_unsafe, url_safe. induction body as [|c body IH]; intros Hb;
    [reflexivity|].
  cbn [base64_body] in Hb. apply andb_true_iff in Hb as [Hc Hb].
  apply base64_char_cases in Hc as (Hm & Hu & _ & _).
  rewrite !replace_char_cons, (IH Hb).
  destruct (Ascii.eqb_spec c "+") as [->|_]; [reflexivity|].
  destruct (Ascii.eqb_spec c "/") as [->|_]; [reflexivity|].
  rewrite Hm, Hu. reflexivity.
Qed.

Lemma url_safe_dot_free body :
  base64_body body = true -> dot_free (url_safe body) = true.
Proof.
  unfold url_safe. induction body as [|c body IH]; intros Hb; [reflexivity|].
  cbn [base64_body] in Hb. apply andb_true_iff in Hb as [Hc Hb].
  apply base64_char_cases in Hc as (_ & _ & _ & Hd).
  rewrite !replace_char_cons. cbn [dot_free]. rewrite (IH Hb).
  destruct (Ascii.eqb_spec c "+") as [->|_]; [reflexivity|].
  destruct (Ascii.eqb_spec c "/") as [->|_]; [reflexivity|].
  rewrite Hd. reflexivity.
Qed.

Lemma length_replace_char a b s :
  String.length (replace_char a b s) = String.length s.
Proof.
  induction s as [|c s IH]; [reflexivity|].
  rewrite replace_char_cons. cbn [String.length]. rewrite IH. reflexivity.
Qed.

Section Coders.
Variable pack : value -> option (list Byte.byte).
Variable base64 : list Byte.byte -> string.
Variable JSON_stringify : value -> list string -> string.
Variable btoa : string -> string.
Variable unpack : list Byte.byte -> option value.
Variable from_base64 : string -> list Byte.byte.
Variable atob : string -> option string.
Variable JSON_parse : string -> option value.

(** X20: a fingerprint whose type or collection contains a dot cannot be
    read back: [decodeQueryHash] finds more than three parts and returns
    [null], whatever the encoders and decoders are. *)
Theorem dotted_name_cannot_be_decoded query :
  dot_free (toString (assoc "type" query))
  && dot_free (toString (assoc "collection" query)) = false ->
  decodeQueryHash unpack from_base64 atob JSON_parse
    (createQueryHash pack base64 JSON_stringify btoa query)
  = None.
Proof.
  intros Hdot. unfold decodeQueryHash, createQueryHash.
  set (t := toString (assoc "type" query)) in *.
  set (coll := toString (assoc "collection" query)) in *.
  set (e := encodedParams _ _ _ _ _).
  assert (Hlen : (4 <= List.length (split "." (t ++ "." ++ coll ++ "." ++ e)))%nat).
  { unfold split. rewrite length_split_go, !count_dots_app.
    change (count_dots ".") with 1%nat.
    apply andb_false_iff in Hdot as [H|H]; apply dot_free_count in H; lia. }
  destruct (split "." _) as [|x1 [|x2 [|x3 [|x4 l]]]]; cbn in Hlen;
    try reflexivity; lia.
Qed.

(** X19: reading back a fingerprint.  When type and collection are
    dot-free strings, [pack] succeeds, the base64 text is a body free of
    [-], [_], [=] and dots followed by its padding, and the decoders
    invert the encoders on this buffer, [decodeQueryHash] of
    [createQueryHash] returns the type, the collection and the stable
    parameters (what the fingerprint keeps of the query, not the query
    itself). *)
Theorem decode_of_fingerprint query t coll buffer body :
  assoc "type" query = VStr t ->
  assoc "collection" query = VStr coll ->
  dot_free t = true ->
  dot_free coll = true ->
  pack (VObj (stableParams (rest_params query))) = Some buffer ->
  base64 buffer = body ++ padding body ->
  base64_body body = true ->
  from_base64 (body ++ padding body) = buffer ->
  unpack buffer = Some (VObj (stableParams (rest_params query))) ->
  decodeQueryHash unpack from_base64 atob JSON_parse
    (createQueryHash pack base64 JSON_stringify btoa query)
  = Some {| d_type := t; d_collection := coll;
            d_params := VObj (stableParams (rest_params query)) |}.
Proof.
  intros Ht Hc Hdt Hdc Hpack Hb64 Hbody Hfrom Hunpack.
  unfold createQueryHash, encodedParams. rewrite Ht, Hc, Hpack, Hb64.
  cbn [toString].
  change (remove_char "=" (replace_char "/" "_" (replace_char "+" "-"
            (body ++ padding body))))
    with (remove_char "=" (url_safe (body ++ padding body))).
  unfold padding at 1. rewrite (url_safe_padded _ _ Hbody).
  unfold decodeQueryHash.
  rewrite (split_three _ _ _ Hdt Hdc (url_safe_dot_free _ Hbody)).
  change (replace_char "_" "/" (replace_char "-" "+" (url_safe body)))
    with (url_unsafe (url_safe body)).
  rewrite (url_unsafe_safe _ Hbody).
  assert (Hpad : padding (url_safe body) = padding body).
  { unfold padding, url_safe. rewrite !length_replace_char. reflexivity. }
  rewrite Hpad, Hfrom, Hunpack. reflexivity.
Qed.

End Coders.

(** The ten open tasks, by name: the fingerprint keeps the filter, the
    sort and the limit, and drops the page. *)
Definition open_tasks_page_2 : list (string * value) :=
  [("type", VStr "find"); ("collection", VStr "tasks");
   ("where", VObj [("status", VObj [("equals", VStr "open")])]);
   ("sort", VStr "name"); ("limit", VNum 10); ("page", VNum 2)].

Definition open_tasks_encoding : string :=
  "{where:{status:{equals:'open',},},sort:'name',limit:#10,}".

Lemma decode_of_fingerprint_witness :
  decodeQueryHash unrender unpadded_bytes (fun _ => None) (fun _ => None)
    (createQueryHash render_pack padded_base64 (fun _ _ => "") (fun s => s)
       open_tasks_page_2)
  = Some {| d_type := "find"; d_collection := "tasks";
            d_params :=
              VObj [("where",
                     VObj [("status", VObj [("equals", VStr "open")])]);
                    ("sort", VStr "name"); ("limit", VNum 10)] |}.
Proof.
  apply (decode_of_fingerprint render_pack padded_base64 (fun _ _ => "")
           (fun s => s) unrender unpadded_bytes (fun _ => None)
           (fun _ => None) open_tasks_page_2 "find" "tasks"
           (list_byte_of_string open_tasks_encoding) open_tasks_encoding);
    vm_compute; reflexivity.
Defined.

Lemma dotted_name_cannot_be_decoded_witness :
  decodeQueryHash (fun _ => Some (VObj [])) unpadded_bytes (fun _ => None)
    (fun _ => None)
    (createQueryHash render_pack padded_base64 (fun _ _ => "") (fun s => s)
       [("type", VStr "find"); ("collection", VStr "acme.tasks")])
  = None.
Proof.
  apply (dotted_name_cannot_be_decoded render_pack padded_base64
           (fun _ _ => "") (fun s => s)).
  reflexivity.
Defined.

End QueryHashDecodingProofs.

(** ** Schema dependency extractor: where-clauses *)
Module SchemaWhereProofs.
Import JS QueryMatcher SchemaDeps QueryMatcherProofs QueryHashProofs.
Import SchemaDepsProofs QueryHashDecodingProofs.

(** A where-clause filters on collection [C] when one of its field paths
    starts with a field of the collection that has [C] among its
    relationship targets, at the top or inside an [and] or [or] array. *)
Inductive filters_on (cc : CollectionConfig) : value -> string -> Prop :=
| filters_field props fieldPath condition field C :
    In (fieldPath, condition) props ->
    fieldPath <> "and" -> fieldPath <> "or" ->
    findFieldInCollection (hd "" (split "." fieldPath)) (fields cc)
    = Some field ->
    In C (getRelationshipTargets field) ->
    filters_on cc (VObj props) C
| filters_and props conditions condition C :
    assoc "and" props = VArr conditions ->
    In condition conditions ->
    filters_on cc condition C ->
    filters_on cc (VObj props) C
| filters_or props conditions condition C :
    assoc "or" props = VArr conditions ->
    In condition conditions ->
    filters_on cc condition C ->
    filters_on cc (VObj props) C.

Lemma includes_dot s : includes s "." = negb (dot_free s).
Proof.
  induction s as [|c s IH]; [reflexivity|].
  cbn [includes dot_free String.prefix]. rewrite IH.
  assert (Hp : String.prefix "" s = true) by (destruct s; reflexivity).
  destruct (ascii_dec "." c) as [<-|Hne]; [rewrite Hp; reflexivity|].
  destruct (Ascii.eqb_spec c "."); [congruence|]. reflexivity.
Qed.

Lemma first_segment fieldPath :
  (if includes fieldPath "." then hd "" (split "." fieldPath) else fieldPath)
  = hd "" (split "." fieldPath).
Proof.
  rewrite includes_dot. destruct (dot_free fieldPath) eqn:E; [|reflexivity].
  rewrite (split_dot_free _ E). reflexivity.
Qed.

Lemma whereEntry_adds cc deps fieldPath field C :
  fieldPath <> "and" -> fieldPath <> "or" ->
  findFieldInCollection (hd "" (split "." fieldPath)) (fields cc) = Some field ->
  In C (getRelationshipTargets field) ->
  C ∈ whereEntry cc deps fieldPath.
Proof.
  intros Hand Hor Hfield HC. unfold whereEntry.
  destruct (String.eqb_spec fieldPath "and"); [contradiction|].
  destruct (String.eqb_spec fieldPath "or"); [contradiction|].
  cbn [orb]. rewrite <- first_segment in Hfield.
  destruct (includes fieldPath "."); rewrite Hfield;
    apply add_all_adds; exact HC.
Qed.

Lemma has_key_array key props conditions :
  assoc key props = VArr conditions -> has_key key props = true.
Proof.
  intros H. destruct (has_key key props) eqn:E; [reflexivity|].
  rewrite (assoc_absent _ _ E) in H. discriminate H.
Qed.

Lemma filters_collected cc where_ C :
  filters_on cc where_ C ->
  forall deps, C ∈ extractWhereDependencies where_ cc deps.
Proof.
  induction 1 as [props fieldPath condition field C Hin Hand Hor Hfield HC
                 |props conditions condition C Hassoc Hin _ IH
                 |props conditions condition C Hassoc Hin _ IH];
    intros deps; cbn [extractWhereDependencies]; rewrite !on_prop_assoc.
  - apply (fold_left_reaches _ _ (fieldPath, condition) C Hin).
    + intros d. apply (whereEntry_adds _ _ _ _ _ Hand Hor Hfield HC).
    + intros d [p c] _. apply whereEntry_grows.
  - rewrite (has_key_array _ _ _ Hassoc), Hassoc.
    assert (Hand : C ∈ fold_left
                         (fun d c => extractWhereDependencies c cc d)
                         conditions deps).
    { apply (fold_left_reaches _ _ condition C Hin IH).
      intros d y _. apply where_grows. }
    eapply fold_left_grows; [intros d [p c] _; apply whereEntry_grows|].
    destruct (has_key "or" props); [|exact Hand].
    destruct (assoc "or" props); try exact Hand.
    eapply fold_left_grows; [|exact Hand]. intros d y _. apply where_grows.
  - rewrite (has_key_array _ _ _ Hassoc), Hassoc.
    eapply fold_left_grows; [intros d [p c] _; apply whereEntry_grows|].
    apply (fold_left_reaches _ _ condition C Hin IH).
    intros d y _. apply where_grows.
Qed.

(** X24: a [find] or [count] query whose where-clause filters on a
    relationship of its collection depends on the relationship's target
    collections; only the first segment of a field path is looked up.  A
    [findByID] query's where-clause and a [count] query's populate
    description are not looked at. *)
Theorem where_dependencies_complete payloadConfig type collection populate_
    where_ cc C :
  findCollection payloadConfig collection = Some cc ->
  (type <> FindByID ->
   filters_on cc where_ C ->
   C ∈ extractQueryDependencies
         {| q_type := type; q_collection := collection;
            q_populate := populate_; q_where := where_ |} payloadConfig)
  /\ extractQueryDependencies
       {| q_type := FindByID; q_collection := collection;
          q_populate := populate_; q_where := where_ |} payloadConfig
     = extractQueryDependencies
         {| q_type := FindByID; q_collection := collection;
            q_populate := populate_; q_where := VUndef |} payloadConfig
  /\ extractQueryDependencies
       {| q_type := Count; q_collection := collection;
          q_populate := populate_; q_where := where_ |} payloadConfig
     = extractQueryDependencies
         {| q_type := Count; q_collection := collection;
            q_populate := VUndef; q_where := where_ |} payloadConfig.
Proof.
  intros Hcc. split; [|split; reflexivity].
  intros Htype Hfilters. unfold extractQueryDependencies.
  cbn [q_type q_collection q_populate q_where]. rewrite Hcc.
  assert (Htruthy : truthy where_ = true)
    by (destruct Hfilters; reflexivity).
  rewrite Htruthy.
  destruct type; try congruence; apply filters_collected; exact Hfilters.
Qed.

Lemma where_dependencies_complete_witness :
  "projects"
  ∈ extractQueryDependencies
      {| q_type := Count; q_collection := "tasks"; q_populate := VUndef;
         q_where :=
           VObj [("or",
                  VArr [VObj [("name", VObj [("like", VStr "report")])];
                        VObj [("project.owner.name",
                               VObj [("equals", VStr "Ann")])]])] |}
      mockPayloadConfig.
Proof.
  refine (proj1 (where_dependencies_complete mockPayloadConfig Count "tasks"
                   VUndef _
                   {| slug := "tasks";
                      fields := [text_field "name";
                                 relationship_field "assignee" "users";
                                 relationship_field "project" "projects";
                                 relationship_field "author" "users"] |}
                   "projects" _) _ _).
  - reflexivity.
  - discriminate.
  - eapply filters_or; [reflexivity|right; left; reflexivity|].
    eapply (filters_field _ _ "project.owner.name");
      [left; reflexivity|discriminate|discriminate|reflexivity
      |left; reflexivity].
Defined.

End SchemaWhereProofs.

(** ** The query endpoint *)
Module EndpointsProofs.
Import JS QueryHash SchemaDeps Subscriptions SubscriptionManager Registry.
Import Endpoints SchemaDepsProofs SubscriptionsProofs RegistryProofs.

Section Handler.
Variable pack : value -> option (list Byte.byte).
Variable base64 : list Byte.byte -> string.
Variable JSON_stringify : value -> list string -> string.
Variable btoa : string -> string.
Variable payloadConfig : SanitizedConfig.
Variable now : Z.
Variable execute : string -> value -> option value.

Local Abbreviation endpoint :=
  (payloadQueryEndpoint pack base64 JSON_stringify btoa payloadConfig now
     execute).
Local Abbreviation fingerprint_of :=
  (fun body => createQueryHash pack base64 JSON_stringify btoa
                 (hashed_query body)).

Lemma is_string_eq v s : is_string v s = true <-> v = VStr s.
Proof.
  unfold is_string. destruct v; simpl; split; try discriminate.
  - intros H. apply String.eqb_eq in H. congruence.
  - intros [= ->]. apply String.eqb_refl.
Qed.

Lemma rejects_connected clients body id :
  rejects clients body = false -> get body "clientId" = VStr id ->
  id ∈ clients.
Proof.
  unfold rejects. intros H Hid. rewrite Hid in H.
  rewrite !orb_false_iff in H. destruct H as ((((_ & H) & _) & _) & _).
  apply negb_false_iff in H. apply (bool_decide_unpack _). rewrite H. exact I.
Qed.

(** What [subscribe_for] does, by the type of the request. *)
Lemma subscribe_for_cases c body id key c1 :
  subscribe_for payloadConfig now c body id key = Some c1 ->
  c1 = c
  \/ exists collection,
       get body "collection" = VStr collection
       /\ ((get body "type" = VStr "count"
            /\ c1 = registerSession payloadConfig now c id key collection Count
                      (VObj [("where", get body "where");
                             ("locale", get body "locale")]))
           \/ ((get body "type" = VStr "find"
                \/ get body "type" = VStr "findByID")
               /\ c1 = registerSession payloadConfig now c id key collection
                         Find
                         (VObj [("where", get body "where");
                                ("sort", get body "sort");
                                ("limit", get body "limit");
                                ("populate", get body "populate")]))).
Proof.
  unfold subscribe_for.
  destruct (is_string (get body "type") "count") eqn:Hcount.
  - apply is_string_eq in Hcount.
    destruct (get body "collection") as [| | | |collection| |];
      try discriminate.
    intros [= <-]. right. exists collection. split; [reflexivity|].
    left. split; [exact Hcount|reflexivity].
  - destruct (is_string (get body "type") "find"
              || is_string (get body "type") "findByID") eqn:Hfind;
      [|intros [= <-]; left; reflexivity].
    destruct (get body "collection") as [| | | |collection| |];
      try discriminate.
    intros [= <-]. right. exists collection. split; [reflexivity|].
    right. split.
    + apply orb_true_iff in Hfind as [H|H]; apply is_string_eq in H; auto.
    + apply subscribeToQuery_registerSession.
Qed.

(** X25: the endpoint changes the registry only for a read that passed
    validation.  A request without a body, with a missing type, collection
    or client id, from a client that is not connected, a mutation, or an
    unknown type leaves the registry as it was; otherwise the change is
    the registration of the query's fingerprint for the client, as
    [count] for a count and as [find] for [find] and [findByID]. *)
Theorem endpoint_registers_only_accepted_reads clients c request response c' :
  endpoint clients c request = Some (response, c') ->
  c' = c
  \/ exists body id collection,
       request = Body body
       /\ id ∈ clients
       /\ get body "clientId" = VStr id
       /\ get body "collection" = VStr collection
       /\ ((get body "type" = VStr "count"
            /\ c' = registerSession payloadConfig now c id
                      (fingerprint_of body) collection Count
                      (VObj [("where", get body "where");
                             ("locale", get body "locale")]))
           \/ ((get body "type" = VStr "find"
                \/ get body "type" = VStr "findByID")
               /\ c' = registerSession payloadConfig now c id
                         (fingerprint_of body) collection Find
                         (VObj [("where", get body "where");
                                ("sort", get body "sort");
                                ("limit", get body "limit");
                                ("populate", get body "populate")]))).
Proof.
  unfold payloadQueryEndpoint.
  destruct request as [| |body]; try (intros [= _ <-]; left; reflexivity).
  destruct (is_undefined body || is_null body);
    [intros [= _ <-]; left; reflexivity|].
  destruct (rejects clients body) eqn:Hrej;
    [intros [= _ <-]; left; reflexivity|].
  destruct (get body "clientId") as [| | | |id| |] eqn:Hid;
    try (intros [= _ <-]; left; reflexivity).
  cbv zeta.
  destruct (subscribe_for _ _ _ _ _ _) as [c1|] eqn:Hsub; [|discriminate].
  intros Hresult.
  assert (Hc : c' = c1).
  { destruct (get body "type") as [| | | |type| |];
      try (injection Hresult as _ <-; reflexivity).
    destruct (bool_decide _); [|injection Hresult as _ <-; reflexivity].
    destruct (execute type body); injection Hresult as _ <-; reflexivity. }
  subst c1.
  apply subscribe_for_cases in Hsub as [->|(collection & Hcoll & Hsub)];
    [left; reflexivity|].
  right. exists body, id, collection.
  split; [reflexivity|]. split; [exact (rejects_connected _ _ _ Hrej Hid)|].
  split; [exact Hid|]. split; [exact Hcoll|exact Hsub].
Qed.

(** X26: a read is registered before it runs.  For a [find], [findByID]
    or [count] request that passes validation, the handler answers 200,
    or 500 when the Payload operation rejects, and in both cases the
    client's session then holds the query under its fingerprint, with
    query type [count] for a count and [find] otherwise ([findByID]
    included). *)
Theorem read_is_registered_before_it_runs clients c body id collection type :
  rejects clients body = false ->
  get body "clientId" = VStr id ->
  get body "collection" = VStr collection ->
  get body "type" = VStr type ->
  type ∈ ["find"; "findByID"; "count"] ->
  exists response c' session query,
    endpoint clients c (Body body) = Some (response, c')
    /\ (status_of response = 200
        \/ status_of response = 500 /\ execute type body = None)
    /\ getSession c' id = Some session
    /\ List.find (fun q => String.eqb (queryKey q) (fingerprint_of body))
         (queries session) = Some query
    /\ Subscriptions.collection query = collection
    /\ queryType query = (if String.eqb type "count" then Count else Find).
Proof.
  intros Hrej Hid Hcoll Htype Hread.
  assert (Hbody : is_undefined body || is_null body = false)
    by (destruct body; try reflexivity; discriminate Hid).
  assert (Hop : bool_decide (type ∈ operations) = true).
  { apply bool_decide_eq_true_2. unfold operations.
    repeat (apply elem_of_cons in Hread as [->|Hread]); try set_solver. }
  assert (Hsub : exists params,
             subscribe_for payloadConfig now c body id (fingerprint_of body)
             = Some (registerSession payloadConfig now c id
                       (fingerprint_of body) collection
                       (if String.eqb type "count" then Count else Find)
                       params)).
  { unfold subscribe_for. rewrite Htype, Hcoll. unfold is_string. simpl.
    repeat (apply elem_of_cons in Hread as [->|Hread]);
      [| | |apply elem_of_nil in Hread; destruct Hread]; simpl;
      rewrite ?subscribeToQuery_registerSession; eexists; reflexivity. }
  destruct Hsub as (params & Hsub).
  destruct (registerSession_found payloadConfig now c id (fingerprint_of body)
              collection (if String.eqb type "count" then Count else Find)
              params) as (session & Hs & Hfind).
  unfold payloadQueryEndpoint. rewrite Hbody, Hrej, Hid. cbv zeta.
  rewrite Hsub, Htype, Hop.
  destruct (execute type body) as [result|] eqn:Hexec;
    eexists; eexists; exists session; eexists;
    (split; [reflexivity|]); (split; [simpl; auto|]);
    (split; [exact Hs|]); (split; [exact Hfind|]); split; reflexivity.
Qed.

End Handler.

Definition find_by_id_request : value :=
  VObj [("type", VStr "findByID"); ("clientId", VStr "client-1");
        ("collection", VStr "tasks"); ("id", VStr "t1")].

(** A connected client asks for its open tasks, and Payload answers. *)
Definition open_tasks_request : value :=
  VObj [("type", VStr "find"); ("clientId", VStr "client-1");
        ("collection", VStr "tasks");
        ("where", VObj [("status", VObj [("equals", VStr "open")])]);
        ("sort", VStr "name")].

Definition no_tasks (type : string) (body : value) : option value :=
  Some (VObj [("docs", VArr [])]).

Definition open_tasks_registered : State :=
  registerSession mockPayloadConfig 0 initial "client-1"
    (createQueryHash render_pack render_base64 (fun _ _ => "") (fun s => s)
       (hashed_query open_tasks_request))
    "tasks" Find
    (VObj [("where", VObj [("status", VObj [("equals", VStr "open")])]);
           ("sort", VStr "name"); ("limit", VUndef); ("populate", VUndef)]).

Lemma endpoint_registers_only_accepted_reads_witness :
  payloadQueryEndpoint render_pack render_base64 (fun _ _ => "") (fun s => s)
    mockPayloadConfig 0 no_tasks {["client-1"]} initial
    (Body open_tasks_request)
  = Some (Json 200
            (VObj [("data", VObj [("docs", VArr [])]);
                   ("queryKey",
                    VStr (createQueryHash render_pack render_base64
                            (fun _ _ => "") (fun s => s)
                            (hashed_query open_tasks_request)));
                   ("timestamp", VNum 0)]),
          open_tasks_registered)
  /\ exists body id collection,
       Body open_tasks_request = Body body
       /\ id ∈ ({["client-1"]} : gset string)
       /\ get body "clientId" = VStr id
       /\ get body "collection" = VStr collection
       /\ ((get body "type" = VStr "count"
            /\ open_tasks_registered
               = registerSession mockPayloadConfig 0 initial id
                   (createQueryHash render_pack render_base64 (fun _ _ => "")
                      (fun s => s) (hashed_query body))
                   collection Count
                   (VObj [("where", get body "where");
                          ("locale", get body "locale")]))
           \/ ((get body "type" = VStr "find"
                \/ get body "type" = VStr "findByID")
               /\ open_tasks_registered
                  = registerSession mockPayloadConfig 0 initial id
                      (createQueryHash render_pack render_base64
                         (fun _ _ => "") (fun s => s) (hashed_query body))
                      collection Find
                      (VObj [("where", get body "where");
                             ("sort", get body "sort");
                             ("limit", get body "limit");
                             ("populate", get body "populate")]))).
Proof.
  assert (Hanswer :
            payloadQueryEndpoint render_pack render_base64 (fun _ _ => "")
              (fun s => s) mockPayloadConfig 0 no_tasks {["client-1"]} initial
              (Body open_tasks_request)
            = Some (Json 200
                      (VObj [("data", VObj [("docs", VArr [])]);
                             ("queryKey",
                              VStr (createQueryHash render_pack render_base64
                                      (fun _ _ => "") (fun s => s)
                                      (hashed_query open_tasks_request)));
                             ("timestamp", VNum 0)]),
                    open_tasks_registered)).
  { vm_compute. reflexivity. }
  split; [exact Hanswer|].
  destruct (endpoint_registers_only_accepted_reads render_pack render_base64
              (fun _ _ => "") (fun s => s) mockPayloadConfig 0 no_tasks
              {["client-1"]} initial (Body open_tasks_request) _ _ Hanswer)
    as [Hsame|Hregistered]; [exfalso|exact Hregistered].
  apply (f_equal (fun c => getSession c "client-1")) in Hsame.
  vm_compute in Hsame. discriminate Hsame.
Defined.

Lemma read_is_registered_before_it_runs_witness :
  exists response c' session query,
    payloadQueryEndpoint render_pack render_base64 (fun _ _ => "")
      (fun s => s) mockPayloadConfig 0 (fun _ _ => None) {["client-1"]}
      initial (Body find_by_id_request)
    = Some (response, c')
    /\ (status_of response = 200
        \/ status_of response = 500 /\ @None value = None)
    /\ getSession c' "client-1" = Some session
    /\ List.find
         (fun q =>
            String.eqb (queryKey q)
              (createQueryHash render_pack render_base64 (fun _ _ => "")
                 (fun s => s) (hashed_query find_by_id_request)))
         (queries session) = Some query
    /\ Subscriptions.collection query = "tasks"
    /\ queryType query = Find.
Proof.
  apply (read_is_registered_before_it_runs render_pack render_base64
           (fun _ _ => "") (fun s => s) mockPayloadConfig 0 (fun _ _ => None)
           {["client-1"]} initial find_by_id_request "client-1" "tasks"
           "findByID").
  - vm_compute. reflexivity.
  - reflexivity.
  - reflexivity.
  - reflexivity.
  - set_solver.
Defined.

End EndpointsProofs.

(** ** Client-side reconciliation *)
Module ClientCacheProofs.
Import JS QueryMatcher ClientCache.

(** *** Deleting *)

Lemma deleteById_again docs data docs' :
  deleteById docs data = Some docs' ->
  deleteById docs' data = Some docs'
  /\ findIndex docs' data = Some None
  /\ (forall doc, In doc docs' -> In doc docs)
  /\ (List.length docs' <= List.length docs)%nat.
Proof.
  revert docs'. induction docs as [|doc rest IH]; intros docs'; cbn [deleteById].
  - intros [= <-]. repeat split; auto.
  - destruct (same_id doc data) as [same|] eqn:Hsame; [|discriminate].
    destruct (deleteById rest data) as [kept|]; [|discriminate].
    destruct (IH kept eq_refl) as (Hagain & Hnone & Hin & Hlen).
    intros [= <-]. destruct same.
    + repeat split; try assumption.
      * intros d Hd. right. apply Hin. exact Hd.
      * cbn [List.length]. lia.
    + cbn [deleteById findIndex]. rewrite Hsame, Hagain, Hnone.
      repeat split; try reflexivity.
      * intros d [<-|Hd]; [left; reflexivity|right; apply Hin; exact Hd].
      * cbn [List.length]. lia.
Qed.

(** *** The insert position *)

Lemma search_partitions (before : value -> bool) docs :
  (forall i j, (i <= j < List.length docs)%nat ->
               before (nth j docs VUndef) = true ->
               before (nth i docs VUndef) = true) ->
  forall fuel left right,
    (right - left <= fuel)%nat ->
    (left <= right <= List.length docs)%nat ->
    (forall i, (i < left)%nat -> before (nth i docs VUndef) = true) ->
    (forall i, (right <= i < List.length docs)%nat ->
               before (nth i docs VUndef) = false) ->
    (left <= search before docs fuel left right <= right)%nat
    /\ (forall i, (i < search before docs fuel left right)%nat ->
                  before (nth i docs VUndef) = true)
    /\ (forall i,
          (search before docs fuel left right <= i < List.length docs)%nat ->
          before (nth i docs VUndef) = false).
Proof.
  intros Hmono. induction fuel as [|fuel IH]; intros left right Hfuel Hlr Hl Hr;
    cbn [search].
  - assert (left = right) by lia. subst right.
    split; [lia|]. split; assumption.
  - destruct (Nat.ltb_spec left right) as [Hlt|Hge].
    + assert (Hmid : (left <= (left + right) / 2 < right)%nat).
      { split.
        - apply Nat.div_le_lower_bound; lia.
        - apply Nat.Div0.div_lt_upper_bound; lia. }
      destruct (before (nth ((left + right) / 2) docs VUndef)) eqn:Hb.
      * destruct (IH (S ((left + right) / 2)) right) as (H1 & H2 & H3);
          try lia; try assumption.
        -- intros i Hi. apply (Hmono i ((left + right) / 2)%nat); [lia|exact Hb].
        -- split; [lia|]. split; assumption.
      * destruct (IH left ((left + right) / 2)%nat) as (H1 & H2 & H3);
          try lia; try assumption.
        -- intros i Hi. destruct (before (nth i docs VUndef)) eqn:Hbi;
             [|reflexivity].
           rewrite (Hmono ((left + right) / 2)%nat i) in Hb; [discriminate Hb
           |lia|exact Hbi].
        -- split; [lia|]. split; assumption.
    + assert (left = right) by lia. subst right.
      split; [lia|]. split; assumption.
Qed.

Section Sort.
Variable array_sort : (value -> value -> Z) -> list value -> list value.

Local Abbreviation applyChange := (applyChange array_sort).

(** X27: a replayed delete is harmless.  When a [delete] update has been
    folded into the cached array, no document with the deleted id is left,
    every document kept was there before, and folding the same update in
    again returns the same array. *)
Theorem replayed_delete_is_harmless docs data query docs' :
  applyChange "delete" docs data query = Some docs' ->
  applyChange "delete" docs' data query = Some docs'
  /\ findIndex docs' data = Some None
  /\ (forall doc, In doc docs' -> In doc docs)
  /\ (List.length docs' <= List.length docs)%nat.
Proof.
  unfold ClientCache.applyChange. simpl (String.eqb "delete" _).
  cbn iota. apply deleteById_again.
Qed.

(** *** Inserting *)

Lemma splice_in_spec index newDoc docs :
  List.length (splice_in index newDoc docs) = S (List.length docs)
  /\ In newDoc (splice_in index newDoc docs)
  /\ forall doc, In doc docs -> In doc (splice_in index newDoc docs).
Proof.
  unfold splice_in. split; [|split].
  - rewrite length_app. cbn [List.length].
    rewrite <- (firstn_skipn index docs) at 3. rewrite length_app. lia.
  - apply in_or_app. right. left. reflexivity.
  - intros doc Hdoc. rewrite <- (firstn_skipn index docs) in Hdoc.
    apply in_app_or in Hdoc as [H|H]; apply in_or_app;
      [left; exact H|right; right; exact H].
Qed.

(** X28: an insert never looks for the document.  Whenever an [insert]
    update is folded in, the array grows by one and keeps every document
    it had, also one with the same id; without a sort the new document is
    appended.  So a replayed insert leaves the document in the array
    twice. *)
Theorem insert_never_deduplicates docs data query docs' :
  applyChange "insert" docs data query = Some docs' ->
  List.length docs' = S (List.length docs)
  /\ In data docs'
  /\ (forall doc, In doc docs -> In doc docs')
  /\ (truthy (get query "sort") = false -> docs' = (docs ++ [data])%list)
  /\ forall docs'',
       applyChange "insert" docs' data query = Some docs'' ->
       List.length docs'' = S (S (List.length docs)).
Proof.
  unfold ClientCache.applyChange. simpl (String.eqb "insert" _). cbn iota.
  assert (Hone : forall l l',
             insertDocumentSorted l data query = Some l' ->
             List.length l' = S (List.length l)
             /\ In data l'
             /\ (forall doc, In doc l -> In doc l')
             /\ (truthy (get query "sort") = false -> l' = (l ++ [data])%list)).
  { intros l l'. unfold insertDocumentSorted.
    destruct (nullish query); [discriminate|].
    destruct (truthy (get query "sort")) eqn:Hsort; cbn [negb orb].
    - destruct (Nat.eqb (List.length l) 0).
      + intros [= <-]. rewrite length_app. cbn [List.length].
        repeat split; try lia; try discriminate.
        * apply in_or_app. right. left. reflexivity.
        * intros doc Hdoc. apply in_or_app. left. exact Hdoc.
      + destruct (get query "sort"); try discriminate. intros [= <-].
        destruct (splice_in_spec (findSortedInsertPosition l data s) data l)
          as (H1 & H2 & H3).
        repeat split; try assumption. discriminate.
    - intros [= <-]. rewrite length_app. cbn [List.length].
      repeat split; try lia; try reflexivity.
      + apply in_or_app. right. left. reflexivity.
      + intros doc Hdoc. apply in_or_app. left. exact Hdoc. }
  intros Hfirst. destruct (Hone _ _ Hfirst) as (Hlen & Hin & Hkeep & Happend).
  repeat split; try assumption.
  intros docs'' Hsecond. destruct (Hone _ _ Hsecond) as (Hlen2 & _).
  rewrite Hlen2, Hlen. reflexivity.
Qed.


(** *** Merging *)

Definition merge_props (b p : list (string * value)) : list (string * value) :=
  fold_left (fun props '(k, v) => set_prop k v props) b p.

Lemma assoc_set_prop key v props k :
  assoc k (set_prop key v props)
  = if String.eqb key k then v else assoc k props.
Proof.
  induction props as [|[k0 x] rest IH]; cbn [set_prop assoc].
  - destruct (String.eqb key k); reflexivity.
  - destruct (String.eqb_spec k0 key) as [->|Hne]; cbn [assoc].
    + destruct (String.eqb key k); reflexivity.
    + rewrite IH. destruct (String.eqb_spec k0 k) as [->|Hk]; [|reflexivity].
      destruct (String.eqb_spec key k); [congruence|reflexivity].
Qed.

Lemma has_key_set_prop key v props k :
  has_key k (set_prop key v props) = String.eqb key k || has_key k props.
Proof.
  induction props as [|[k0 x] rest IH]; cbn [set_prop has_key].
  - rewrite orb_false_r. reflexivity.
  - destruct (String.eqb_spec k0 key) as [->|Hne]; cbn [has_key].
    + destruct (String.eqb key k); reflexivity.
    + rewrite IH. destruct (String.eqb k0 k), (String.eqb key k); reflexivity.
Qed.

Lemma set_prop_same key v props :
  has_key key props = true -> assoc key props = v ->
  set_prop key v props = props.
Proof.
  induction props as [|[k0 x] rest IH]; cbn [set_prop has_key assoc];
    [discriminate|].
  destruct (String.eqb k0 key); cbn [orb].
  - intros _ ->. reflexivity.
  - intros Hk Hv. rewrite (IH Hk Hv). reflexivity.
Qed.

Lemma merge_props_other b p k :
  k ∉ map fst b ->
  assoc k (merge_props b p) = assoc k p
  /\ has_key k (merge_props b p) = has_key k p.
Proof.
  unfold merge_props. revert p. induction b as [|[k0 v0] b IH]; intros p Hk;
    [split; reflexivity|].
  cbn [fold_left]. cbn [map fst] in Hk.
  apply not_elem_of_cons in Hk as [Hne Hk].
  destruct (IH (set_prop k0 v0 p) Hk) as [-> ->].
  rewrite assoc_set_prop, has_key_set_prop.
  destruct (String.eqb_spec k0 k); [congruence|]. split; reflexivity.
Qed.

Lemma merge_props_reads b p k v :
  NoDup (map fst b) -> In (k, v) b ->
  assoc k (merge_props b p) = v /\ has_key k (merge_props b p) = true.
Proof.
  revert p. induction b as [|[k0 v0] b IH]; intros p Hnd Hin; [destruct Hin|].
  cbn [map fst] in Hnd. apply NoDup_cons in Hnd as [Hfresh Hnd].
  destruct Hin as [[= -> ->]|Hin].
  - change (merge_props ((k, v) :: b) p)
      with (merge_props b (set_prop k v p)).
    destruct (merge_props_other b (set_prop k v p) k Hfresh) as [-> ->].
    rewrite assoc_set_prop, has_key_set_prop, String.eqb_refl.
    split; reflexivity.
  - apply (IH (set_prop k0 v0 p) Hnd Hin).
Qed.

Lemma merge_props_fixed b q :
  (forall k v, In (k, v) b -> assoc k q = v /\ has_key k q = true) ->
  merge_props b q = q.
Proof.
  unfold merge_props. induction b as [|[k v] b IH]; intros H; [reflexivity|].
  cbn [fold_left]. destruct (H k v (or_introl eq_refl)) as [Hv Hk].
  rewrite (set_prop_same _ _ _ Hk Hv). apply IH.
  intros k' v' Hin. apply H. right. exact Hin.
Qed.

(** Spreading the same object over a value twice is spreading it once. *)
Lemma spread_twice d props :
  NoDup (map fst props) ->
  spread (spread d (VObj props)) (VObj props) = spread d (VObj props).
Proof.
  intros Hnd. unfold spread. cbn [entries]. f_equal.
  apply merge_props_fixed. intros k v Hin.
  apply merge_props_reads; assumption.
Qed.

Lemma get_id_entries d : get d "id" = assoc "id" (entries d).
Proof. destruct d; reflexivity. Qed.

Lemma has_key_elem_of key (props : list (string * value)) :
  has_key key props = false -> key ∉ map fst props.
Proof.
  induction props as [|[k v] rest IH]; cbn [has_key map fst].
  - intros _. apply not_elem_of_nil.
  - intros H. apply orb_false_iff in H as [Hk Hrest].
    apply not_elem_of_cons. split; [|apply IH; exact Hrest].
    intros ->. rewrite String.eqb_refl in Hk. discriminate Hk.
Qed.

Lemma assoc_In key (props : list (string * value)) :
  has_key key props = true -> In (key, assoc key props) props.
Proof.
  induction props as [|[k v] rest IH]; cbn [has_key assoc]; [discriminate|].
  destruct (String.eqb_spec k key) as [->|Hne]; cbn [orb].
  - intros _. left. reflexivity.
  - intros H. right. apply IH. exact H.
Qed.

(** The merged document still has the id of the update. *)
Lemma same_id_spread d props :
  NoDup (map fst props) ->
  strict_eq (assoc "id" props) (assoc "id" props) = true ->
  same_id d (VObj props) = Some true ->
  same_id (spread d (VObj props)) (VObj props) = Some true.
Proof.
  intros Hnd Hprim. unfold same_id, spread. cbn [nullish is_undefined is_null
    orb entries get].
  destruct (nullish d); [discriminate|]. cbn [orb]. intros [= Hsame].
  f_equal. fold (merge_props props (entries d)).
  destruct (has_key "id" props) eqn:Hk.
  - destruct (merge_props_reads props (entries d) "id" (assoc "id" props) Hnd
                (assoc_In _ _ Hk)) as [-> _]. exact Hprim.
  - destruct (merge_props_other props (entries d) "id" (has_key_elem_of _ _ Hk))
      as [-> _].
    rewrite <- get_id_entries. exact Hsame.
Qed.

Lemma findIndex_spec docs data index :
  findIndex docs data = Some (Some index) ->
  (index < List.length docs)%nat
  /\ same_id (nth index docs VUndef) data = Some true
  /\ forall d',
       same_id d' data = Some true ->
       findIndex (<[index := d']> docs) data = Some (Some index).
Proof.
  revert index. induction docs as [|doc rest IH]; intros index;
    cbn [findIndex]; [discriminate|].
  destruct (same_id doc data) as [[|]|] eqn:Hsame; try discriminate.
  - intros [= <-]. cbn [nth List.length]. split; [lia|]. split; [exact Hsame|].
    intros d' Hd'. change (<[0%nat := d']> (doc :: rest)) with (d' :: rest).
    cbn [findIndex]. rewrite Hd'. reflexivity.
  - destruct (findIndex rest data) as [[i|]|] eqn:Hrest; try discriminate.
    intros [= <-]. destruct (IH i eq_refl) as (Hlt & Hnth & Hins).
    cbn [nth List.length]. split; [lia|]. split; [exact Hnth|].
    intros d' Hd'.
    change (<[S i := d']> (doc :: rest)) with (doc :: <[i := d']> rest).
    cbn [findIndex]. rewrite Hsame, (Hins d' Hd'). reflexivity.
Qed.


(** X29: a replayed update is harmless.  When an [update] whose data is
    an object with a primitive id is folded in and no re-sort is due (the
    query has no sort, or the update does not carry the sort field),
    folding the same update in again leaves the array as it is. *)
Theorem replayed_update_is_harmless docs props query docs' :
  NoDup (map fst props) ->
  strict_eq (assoc "id" props) (assoc "id" props) = true ->
  mightAffectSorting (VObj props) query = Some false ->
  applyChange "update" docs (VObj props) query = Some docs' ->
  applyChange "update" docs' (VObj props) query = Some docs'.
Proof.
  intros Hnd Hprim Hsort. unfold ClientCache.applyChange.
  simpl (String.eqb "update" _). cbn iota.
  destruct (findIndex docs (VObj props)) as [[index|]|] eqn:Hfind;
    [|intros [= <-]; rewrite Hfind; reflexivity|discriminate].
  unfold mergeAt. rewrite Hsort. intros [= <-].
  destruct (findIndex_spec _ _ _ Hfind) as (Hlt & Hsame & Hins).
  rewrite (Hins _ (same_id_spread _ _ Hnd Hprim Hsame)).
  rewrite nth_lookup, list_lookup_insert_eq by exact Hlt.
  cbn [default from_option]. unfold id.
  rewrite (spread_twice _ _ Hnd), list_insert_insert_eq. reflexivity.
Qed.

End Sort.

(** X30: the binary search finds the place.  When the cached documents
    are ordered with respect to the new document (every document before
    one that sorts below the new document sorts below it too),
    [findSortedInsertPosition] returns a position within the array such
    that exactly the documents before it sort below the new document. *)
Theorem insert_position_partitions docs newDoc sort :
  let before doc :=
    compareDocuments doc newDoc (sortField sort) (isDescending sort) <? 0 in
  (forall i j, (i <= j < List.length docs)%nat ->
               before (nth j docs VUndef) = true ->
               before (nth i docs VUndef) = true) ->
  let pos := findSortedInsertPosition docs newDoc sort in
  (pos <= List.length docs)%nat
  /\ Forall (fun doc => before doc = true) (firstn pos docs)
  /\ Forall (fun doc => before doc = false) (skipn pos docs).
Proof.
  intros before Hmono pos.
  assert (Hpos : (pos <= List.length docs)%nat
                 /\ (forall i, (i < pos)%nat ->
                               before (nth i docs VUndef) = true)
                 /\ (forall i, (pos <= i < List.length docs)%nat ->
                               before (nth i docs VUndef) = false)).
  { subst pos. unfold findSortedInsertPosition.
    destruct docs as [|doc rest] eqn:Hdocs.
    - split; [reflexivity|]. split; intros i Hi; cbn in Hi; lia.
    - rewrite <- Hdocs in *. fold before.
      destruct (search_partitions before docs Hmono (List.length docs) 0
                  (List.length docs)) as (H1 & H2 & H3); try lia.
      split; [lia|]. split; assumption. }
  destruct Hpos as (Hle & Hlow & Hhigh). split; [exact Hle|]. split.
  - apply List.Forall_forall. intros doc Hin.
    apply (In_nth _ _ VUndef) in Hin as (i & Hi & <-).
    rewrite length_firstn in Hi. rewrite nth_firstn.
    destruct (Nat.ltb_spec i pos); [|lia]. apply Hlow. lia.
  - apply List.Forall_forall. intros doc Hin.
    apply (In_nth _ _ VUndef) in Hin as (i & Hi & <-).
    rewrite length_skipn in Hi. rewrite nth_skipn. apply Hhigh. lia.
Qed.

Definition by_priority (n : Z) : value :=
  VObj [("id", VStr "t"); ("priority", VNum n)].

Lemma insert_position_partitions_witness :
  let docs := [by_priority 1; by_priority 3] in
  let before doc :=
    compareDocuments doc (by_priority 2) (sortField "priority")
      (isDescending "priority") <? 0 in
  let pos := findSortedInsertPosition docs (by_priority 2) "priority" in
  (pos <= List.length docs)%nat
  /\ Forall (fun doc => before doc = true) (firstn pos docs)
  /\ Forall (fun doc => before doc = false) (skipn pos docs).
Proof.
  apply (insert_position_partitions [by_priority 1; by_priority 3]
           (by_priority 2) "priority").
  intros i j Hij. destruct i as [|[|i]], j as [|[|j]]; try (simpl in Hij; lia);
    vm_compute; congruence.
Defined.

Definition cached_tasks : list value :=
  [VObj [("id", VStr "t1"); ("title", VStr "Write report")];
   VObj [("id", VStr "t2"); ("title", VStr "Review")]].

Lemma replayed_delete_is_harmless_witness :
  applyChange (fun _ docs => docs) "delete"
    [VObj [("id", VStr "t2"); ("title", VStr "Review")]]
    (VObj [("id", VStr "t1")]) (VObj [])
  = Some [VObj [("id", VStr "t2"); ("title", VStr "Review")]].
Proof.
  apply (replayed_delete_is_harmless (fun _ docs => docs) cached_tasks
           (VObj [("id", VStr "t1")]) (VObj [])).
  reflexivity.
Defined.

Lemma insert_never_deduplicates_witness :
  List.length
    (cached_tasks ++ [VObj [("id", VStr "t1"); ("title", VStr "Write report")]])
  = 3%nat.
Proof.
  apply (insert_never_deduplicates (fun _ docs => docs) cached_tasks
           (VObj [("id", VStr "t1"); ("title", VStr "Write report")])
           (VObj [])).
  reflexivity.
Defined.

Lemma replayed_update_is_harmless_witness :
  applyChange (fun _ docs => docs) "update"
    [VObj [("id", VStr "t1"); ("title", VStr "Write the report")];
     VObj [("id", VStr "t2"); ("title", VStr "Review")]]
    (VObj [("id", VStr "t1"); ("title", VStr "Write the report")])
    (VObj [("type", VStr "find"); ("collection", VStr "tasks")])
  = Some [VObj [("id", VStr "t1"); ("title", VStr "Write the report")];
          VObj [("id", VStr "t2"); ("title", VStr "Review")]].
Proof.
  apply (replayed_update_is_harmless (fun _ docs => docs) cached_tasks
           [("id", VStr "t1"); ("title", VStr "Write the report")]
           (VObj [("type", VStr "find"); ("collection", VStr "tasks")])).
  - apply (bool_decide_unpack _). vm_compute. exact I.
  - reflexivity.
  - reflexivity.
  - reflexivity.
Defined.

End ClientCacheProofs.

(** ** Client view store: teardown and disabled views *)
Module ViewStoreLifecycle.
Import JS ViewStore ViewStoreProofs.

Ltac view_cases a b :=
  let Heq := fresh "Heq" in
  destruct (decide (a = b)) as [Heq|?];
  [first [subst b|subst a|rewrite Heq in *]; rewrite ?lookup_insert_eq in *
  |rewrite ?lookup_insert_ne in * by congruence].

Section Fingerprint.
Variable createQueryHash : list (string * value) -> string.

Local Abbreviation getView := (getView createQueryHash).
Local Abbreviation step := (step createQueryHash).
Local Abbreviation run := (run createQueryHash).
Local Abbreviation asks_for := (asks_for createQueryHash).

Lemma heap_dematerialized hash s : heap (onViewDematerialized hash s) = heap s.
Proof. unfold onViewDematerialized. destruct (views s !! hash); reflexivity. Qed.

(** Nothing is filed or subscribed under [hash], and no initial query
    for [hash] is in flight. *)
Definition settled_and_gone (hash : string) (s : Store) : Prop :=
  views s !! hash = None
  /\ (hash ∉ activeSubscriptions s)
  /\ forall id, id ∈ pending s -> key_of s id <> Some hash.

Lemma settled_and_gone_step hash s e :
  wf s -> asks_for hash e = false -> settled_and_gone hash s ->
  settled_and_gone hash (step s e).
Proof.
  intros Hwf Hask (Hview & Hsub & Hpend). unfold settled_and_gone.
  assert (Hold : forall id, id ∈ pending s -> id <> next s).
  { intros id Hin. destruct (wf_pending _ Hwf _ Hin) as [v Hv].
    pose proof (wf_fresh _ Hwf _ _ Hv). lia. }
  destruct e as [query enabled ttl|id1 callback|id1 callback|id1|id1 r|dt];
    cbn [ViewStore.step].
  - unfold ViewStore.getView. destruct enabled; cbn [negb].
    + cbn [ViewStore.asks_for] in Hask. apply String.eqb_neq in Hask.
      destruct (views s !! createQueryHash query) as [id0|] eqn:Ev; cbn [snd].
      * destruct (heap s !! id0) as [v0|] eqn:Hv0;
          [|split; [|split]; assumption].
        unfold set_view. cbn [views activeSubscriptions pending].
        split; [exact Hview|]. split; [exact Hsub|].
        intros id Hin. specialize (Hpend id Hin). revert Hpend.
        unfold key_of. cbn [heap].
        view_cases id0 id; [|auto]. rewrite Hv0. auto.
      * unfold new_view, onViewMaterialized. simpl.
        rewrite lookup_insert_ne by exact Hask.
        split; [exact Hview|]. split; [exact Hsub|].
        intros id Hin. unfold key_of. simpl.
        apply elem_of_union in Hin as [Hin|Hin].
        -- apply elem_of_singleton in Hin. subst id.
           rewrite lookup_insert_eq. simpl. congruence.
        -- rewrite lookup_insert_ne by (apply not_eq_sym, Hold, Hin).
           apply (Hpend id Hin).
    + unfold new_view. simpl.
      split; [exact Hview|]. split; [exact Hsub|].
      intros id Hin. unfold key_of. simpl.
      rewrite lookup_insert_ne by (apply not_eq_sym, Hold, Hin).
      apply (Hpend id Hin).
  - unfold subscribe. destruct (heap s !! id1) as [v|] eqn:Hv;
      [|split; [|split]; assumption].
    destruct (v_isDestroyed v); [split; [|split]; assumption|].
    unfold set_view. cbn [views activeSubscriptions pending].
    split; [exact Hview|]. split; [exact Hsub|].
    intros id Hin. specialize (Hpend id Hin). revert Hpend.
    unfold key_of. cbn [heap]. view_cases id1 id; [|auto]. rewrite Hv. auto.
  - unfold unsubscribe. destruct (heap s !! id1) as [v|] eqn:Hv;
      [|split; [|split]; assumption].
    unfold set_view. cbn [views activeSubscriptions pending].
    split; [exact Hview|]. split; [exact Hsub|].
    intros id Hin. specialize (Hpend id Hin). revert Hpend.
    unfold key_of. cbn [heap]. view_cases id1 id; [|auto]. rewrite Hv.
    unfold scheduleCleanupIfNeeded. cbn [v_subscribers v_cleanupTimer].
    destruct (andb _ _); auto.
  - unfold timerFires. destruct (heap s !! id1) as [v|] eqn:Hv;
      [|split; [|split]; assumption].
    destruct (v_cleanupTimer v); [|split; [|split]; assumption].
    repeat case_bool_decide; try (split; [|split]; assumption).
    unfold destroy. rewrite Hv.
    destruct (v_isDestroyed v) eqn:Hd; [split; [|split]; assumption|].
    assert (Hkeys : forall id,
               id ∈ pending s ->
               match <[id1 := {| v_query := v_query v; v_key := v_key v;
                                 v_ttl := v_ttl v; v_subscribers := ∅;
                                 v_cleanupTimer := None; v_isDestroyed := true;
                                 v_serverSubscriptionActive := false |}]>
                       (heap s) !! id with
               | Some v' => v_key v'
               | None => None
               end <> Some hash).
    { intros id Hin. specialize (Hpend id Hin). revert Hpend.
      unfold key_of. view_cases id1 id; [|auto]. rewrite Hv. auto. }
    destruct (v_key v) as [hash1|] eqn:Hk.
    + unfold onViewDematerialized, set_view. cbn [views].
      destruct (views s !! hash1) eqn:Ev1;
        cbn [views activeSubscriptions pending]; unfold key_of; cbn [heap].
      * split; [|split; [set_solver|exact Hkeys]].
        destruct (decide (hash1 = hash)) as [->|Hne];
          [apply lookup_delete_eq|].
        rewrite lookup_delete_ne by exact Hne. exact Hview.
      * split; [exact Hview|]. split; [exact Hsub|exact Hkeys].
    + unfold set_view. cbn [views activeSubscriptions pending].
      unfold key_of. cbn [heap].
      split; [exact Hview|]. split; [exact Hsub|exact Hkeys].
  - unfold onViewMaterialized_resumed.
    case_bool_decide as Hin; [|split; [|split]; assumption].
    cbn [views activeSubscriptions pending]. unfold key_of. cbn [heap].
    split; [exact Hview|]. split.
    + specialize (Hpend id1 Hin). unfold key_of in Hpend.
      destruct r; try exact Hsub.
      destruct (heap s !! id1) as [v|]; [|exact Hsub].
      destruct (v_key v) as [hash1|]; [|exact Hsub].
      assert (hash1 <> hash) by congruence. set_solver.
    + intros id Hin'. apply (Hpend id). set_solver.
  - split; [|split]; assumption.
Qed.

(** X21: the countdown does end the view.  In a reachable store, when the
    only subscriber of a live view unsubscribes, the clock advances by at
    least the view's TTL and the cleanup timer fires, the view is
    destroyed, its fingerprint is no longer in the store and the entry of
    its server subscription is deleted.  When no initial query for that
    fingerprint was in flight as the subscriber left, the subscription
    stays closed over every further run of events until [getView] is
    asked for the fingerprint again. *)
Theorem last_unsubscribe_tears_down events id v hash callback dt :
  let s := run empty_store events in
  heap s !! id = Some v ->
  v_isDestroyed v = false ->
  v_key v = Some hash ->
  v_subscribers v = {[callback]} ->
  (v_ttl v <= dt)%nat ->
  let s' := run s [Unsubscribe id callback; Advance dt; TimerFires id] in
  destroyed s' id
  /\ views s' !! hash = None
  /\ (hash ∉ activeSubscriptions s')
  /\ ((forall id', id' ∈ pending s -> key_of s id' <> Some hash) ->
      forall later,
        forallb (fun e => negb (asks_for hash e)) later = true ->
        views (run s' later) !! hash = None
        /\ hash ∉ activeSubscriptions (run s' later)).
Proof.
  intros s Hv Hd Hk Hsubs Httl.
  pose proof (wf_run createQueryHash events) as Hwf. fold s in Hwf.
  assert (Htimer : v_cleanupTimer v = None).
  { destruct (v_cleanupTimer v) as [due|] eqn:E; [|reflexivity].
    pose proof (wf_timer _ Hwf _ _ Hv (ex_intro _ due E)) as Hempty.
    rewrite Hsubs in Hempty. set_solver. }
  pose proof (wf_alive _ Hwf _ _ _ Hv Hd Hk) as Hview.
  intros s'.
  assert (Hs' : s' = run empty_store
                       (events ++ [Unsubscribe id callback; Advance dt;
                                   TimerFires id])).
  { unfold s', s. symmetry. apply run_app. }
  assert (Hnow : destroyed s' id /\ views s' !! hash = None
                 /\ (hash ∉ activeSubscriptions s')
                 /\ pending s' = pending s
                 /\ forall id', key_of s' id' = key_of s id').
  { unfold s'. unfold ViewStore.run. cbn [fold_left ViewStore.step].
    unfold unsubscribe. rewrite Hv.
    unfold scheduleCleanupIfNeeded. cbn [v_subscribers v_cleanupTimer].
    rewrite Hsubs, Htimer.
    rewrite (bool_decide_eq_true_2
               ({[callback]} ∖ {[callback]} = (∅ : gset nat))) by set_solver.
    rewrite (bool_decide_eq_false_2 (is_Some (@None nat)))
      by (intros [x Hx]; discriminate Hx).
    cbn [andb negb v_ttl].
    unfold timerFires, advance, set_view. cbn [heap now].
    rewrite lookup_insert_eq. cbn [v_cleanupTimer v_subscribers].
    rewrite bool_decide_eq_true_2 by lia.
    rewrite (bool_decide_eq_true_2
               ({[callback]} ∖ {[callback]} = (∅ : gset nat))) by set_solver.
    unfold destroy. cbn [heap]. rewrite lookup_insert_eq.
    cbn [v_isDestroyed v_key]. rewrite Hd, Hk.
    unfold onViewDematerialized, set_view. cbn [views]. rewrite Hview.
    cbn [heap views activeSubscriptions pending].
    split; [|split; [|split; [|split]]].
    - unfold destroyed. cbn [heap]. rewrite lookup_insert_eq.
      eexists. split; reflexivity.
    - apply lookup_delete_eq.
    - set_solver.
    - reflexivity.
    - intros id'. unfold key_of. cbn [heap].
      rewrite insert_insert_eq.
      view_cases id id'; [rewrite Hv; cbn [v_key]; symmetry; exact Hk|reflexivity]. }
  destruct Hnow as (Hdestroyed & Hgone & Hclosed & Hsame & Hkeys).
  split; [exact Hdestroyed|]. split; [exact Hgone|]. split; [exact Hclosed|].
  intros Hquiet later Hlater.
  assert (Hstart : settled_and_gone hash s').
  { split; [exact Hgone|]. split; [exact Hclosed|].
    intros id' Hin. rewrite Hkeys. apply Hquiet. rewrite <- Hsame. exact Hin. }
  rewrite Hs' in *. clear Hs' Hsame Hkeys Hdestroyed Hgone Hclosed.
  revert Hstart.
  generalize (events ++ [Unsubscribe id callback; Advance dt; TimerFires id])%list
    as before.
  intros before Hstart.
  assert (Hall : settled_and_gone hash (run (run empty_store before) later)).
  { revert Hlater. induction later as [|e later IH] using rev_ind;
      intros Hlater; [exact Hstart|].
    rewrite forallb_app in Hlater. apply andb_true_iff in Hlater as [Hl He].
    cbn [forallb] in He. rewrite andb_true_r in He.
    apply negb_true_iff in He.
    rewrite <- run_app, app_assoc, run_snoc.
    apply settled_and_gone_step; [apply wf_run|exact He|].
    rewrite run_app. apply IH. exact Hl. }
  destruct Hall as (H1 & H2 & _). split; assumption.
Qed.

Lemma destroyed_step s e id :
  wf s -> destroyed s id -> destroyed (step s e) id.
Proof.
  intros Hwf [v [Hv Hd]].
  pose proof (wf_fresh _ Hwf _ _ Hv) as Hlt.
  destruct e as [query enabled ttl|id1 callback|id1 callback|id1|id1 r|dt];
    cbn [ViewStore.step].
  - unfold ViewStore.getView. destruct enabled; cbn [negb].
    + destruct (views s !! createQueryHash query) as [id0|] eqn:Ev; cbn [snd].
      * destruct (heap s !! id0) as [v0|] eqn:Hv0; [|exact (ex_intro _ v (conj Hv Hd))].
        unfold destroyed, set_view. cbn [heap].
        view_cases id0 id; [|exact (ex_intro _ v (conj Hv Hd))].
        rewrite Hv in Hv0. injection Hv0 as <-.
        eexists. split; [reflexivity|exact Hd].
      * unfold new_view, onViewMaterialized, destroyed. cbn [snd heap].
        exists v. rewrite lookup_insert_ne by lia. split; assumption.
    + unfold new_view, destroyed. cbn [snd heap].
      exists v. rewrite lookup_insert_ne by lia. split; assumption.
  - unfold subscribe. destruct (heap s !! id1) as [v1|] eqn:Hv1;
      [|exact (ex_intro _ v (conj Hv Hd))].
    destruct (v_isDestroyed v1) eqn:Hd1; [exact (ex_intro _ v (conj Hv Hd))|].
    unfold destroyed, set_view. cbn [heap].
    view_cases id1 id; [congruence|exact (ex_intro _ v (conj Hv Hd))].
  - unfold unsubscribe. destruct (heap s !! id1) as [v1|] eqn:Hv1;
      [|exact (ex_intro _ v (conj Hv Hd))].
    unfold destroyed, set_view. cbn [heap].
    view_cases id1 id; [|exact (ex_intro _ v (conj Hv Hd))].
    rewrite Hv in Hv1. injection Hv1 as <-.
    eexists. split; [reflexivity|].
    unfold scheduleCleanupIfNeeded. cbn [v_subscribers v_cleanupTimer].
    destruct (andb _ _); exact Hd.
  - unfold timerFires. destruct (heap s !! id1) as [v1|] eqn:Hv1;
      [|exact (ex_intro _ v (conj Hv Hd))].
    destruct (v_cleanupTimer v1); [|exact (ex_intro _ v (conj Hv Hd))].
    repeat case_bool_decide; try (exact (ex_intro _ v (conj Hv Hd))).
    unfold destroy. rewrite Hv1.
    destruct (v_isDestroyed v1) eqn:Hd1; [exact (ex_intro _ v (conj Hv Hd))|].
    assert (Hne : id1 <> id) by congruence.
    unfold destroyed.
    destruct (v_key v1); rewrite ?heap_dematerialized; unfold set_view;
      cbn [heap]; exists v; rewrite lookup_insert_ne by exact Hne;
      split; assumption.
  - unfold onViewMaterialized_resumed.
    case_bool_decide; exact (ex_intro _ v (conj Hv Hd)).
  - exact (ex_intro _ v (conj Hv Hd)).
Qed.

(** X22: a destroyed view stays destroyed.  In a reachable store no
    further sequence of [getView], subscribe, unsubscribe, timer, query
    and clock events revives it, and [getView] never returns it again: a
    query with its fingerprint gets a new view. *)
Theorem destroyed_views_stay_destroyed before after id query enabled ttl :
  destroyed (run empty_store before) id ->
  destroyed (run (run empty_store before) after) id
  /\ fst (getView query enabled ttl (run (run empty_store before) after)) <> id.
Proof.
  intros Hd.
  assert (Hrun : forall events,
             destroyed (run empty_store (before ++ events)%list) id).
  { induction events as [|e events IH] using rev_ind.
    - rewrite app_nil_r. exact Hd.
    - rewrite app_assoc, run_snoc. apply destroyed_step; [|exact IH].
      apply wf_run. }
  rewrite <- run_app. split; [apply Hrun|].
  pose proof (wf_run createQueryHash (before ++ after)%list) as Hwf.
  destruct (Hrun after) as [v [Hv Hdv]].
  set (s := run empty_store (before ++ after)%list) in *.
  unfold ViewStore.getView. destruct enabled; cbn [negb].
  - destruct (views s !! createQueryHash query) as [id0|] eqn:Ev; cbn [fst].
    + destruct (wf_views _ Hwf _ _ Ev) as [v0 [Hv0 [_ Hd0]]]. congruence.
    + pose proof (wf_fresh _ Hwf _ _ Hv). unfold new_view. cbn [fst]. lia.
  - pose proof (wf_fresh _ Hwf _ _ Hv). unfold new_view. cbn [fst]. lia.
Qed.

(** X23: a disabled view is private.  In a reachable store, [getView]
    with [enabled = false] returns a view that did not exist before and
    has no fingerprint; the store's map, the server subscriptions and the
    materialization counts are left as they were, and asking again
    returns yet another view. *)
Theorem disabled_view_is_private events query ttl :
  let s := run empty_store events in
  let id := fst (getView query false ttl s) in
  let s' := snd (getView query false ttl s) in
  heap s !! id = None
  /\ alive s' id
  /\ key_of s' id = None
  /\ views s' = views s
  /\ activeSubscriptions s' = activeSubscriptions s
  /\ materializations s' = materializations s
  /\ fst (getView query false ttl s') <> id.
Proof.
  cbv zeta. pose proof (wf_run createQueryHash events) as Hwf.
  set (s := run empty_store events) in *.
  unfold ViewStore.getView, new_view, alive, key_of.
  cbn [negb fst snd heap views activeSubscriptions materializations next].
  rewrite lookup_insert_eq. repeat split; try reflexivity.
  - destruct (heap s !! next s) as [v|] eqn:E; [|reflexivity].
    pose proof (wf_fresh _ Hwf _ _ E). lia.
  - eexists. split; reflexivity.
  - lia.
Qed.

End Fingerprint.

(** The tasks view is mounted and its initial query comes back; then
    the only consumer leaves and the TTL passes.  Afterwards another
    consumer works with a view of a different query. *)
Definition loaded_and_watched : list Event :=
  [GetView tasks_query true 30; Subscribe 0 7; QuerySettles 0 Fulfilled].

Definition users_query : list (string * value) :=
  [("type", VStr "find"); ("collection", VStr "users")].

Lemma last_unsubscribe_tears_down_witness :
  let s' :=
    run fingerprint (run fingerprint empty_store loaded_and_watched)
      [Unsubscribe 0 7; Advance 30; TimerFires 0] in
  fingerprint tasks_query
  ∈ activeSubscriptions (run fingerprint empty_store loaded_and_watched)
  /\ destroyed s' 0
  /\ views s' !! fingerprint tasks_query = None
  /\ (fingerprint tasks_query ∉ activeSubscriptions s')
  /\ fingerprint tasks_query
     ∉ activeSubscriptions
         (run fingerprint s'
            [GetView users_query true 30; Subscribe 1 8;
             QuerySettles 1 Fulfilled; QuerySettles 0 Fulfilled]).
Proof.
  pose proof (last_unsubscribe_tears_down fingerprint loaded_and_watched 0%nat
                {| v_query := tasks_query;
                   v_key := Some (fingerprint tasks_query); v_ttl := 30;
                   v_subscribers := {[7%nat]}; v_cleanupTimer := None;
                   v_isDestroyed := false;
                   v_serverSubscriptionActive := true |}
                (fingerprint tasks_query) 7%nat 30%nat) as H.
  cbv zeta in H.
  specialize (H ltac:(vm_compute; reflexivity) eq_refl
                ltac:(vm_compute; reflexivity) ltac:(vm_compute; reflexivity)
                ltac:(simpl; lia)).
  destruct H as (Hd & Hgone & Hclosed & Hstays).
  cbv zeta. split; [vm_compute; set_solver|].
  split; [exact Hd|]. split; [exact Hgone|]. split; [exact Hclosed|].
  apply Hstays; [|reflexivity].
  intros id' Hin. vm_compute in Hin. set_solver.
Defined.

Lemma destroyed_views_stay_destroyed_witness :
  destroyed
    (run fingerprint
       (run fingerprint empty_store
          [GetView tasks_query true 30; Subscribe 0 7; Unsubscribe 0 7;
           Advance 30; TimerFires 0])
       [GetView tasks_query true 30; Subscribe 0 7]) 0
  /\ fst (getView fingerprint tasks_query true 30
            (run fingerprint
               (run fingerprint empty_store
                  [GetView tasks_query true 30; Subscribe 0 7; Unsubscribe 0 7;
                   Advance 30; TimerFires 0])
               [GetView tasks_query true 30; Subscribe 0 7]))
     <> 0%nat.
Proof.
  apply (destroyed_views_stay_destroyed fingerprint).
  eexists. split; [vm_compute; reflexivity|reflexivity].
Defined.

End ViewStoreLifecycle.
